(** * Near field to far field transformation (tidy3d/plugins/near2far/near2far.py)

    A shallow embedding of the [Near2Far] class and the properties of its
    constructor and of its query methods.

    Numbers.  Python floats and numpy floats are modelled by the real
    numbers of the Standard Library, complex values by pairs of reals:
    there is no rounding and no overflow.  A division by zero in numpy
    arithmetic gives [nan] or [inf] and a warning; the outcome [NotFinite]
    stands for a result that holds such values.  Where the code goes on
    with a [nan] angle and calls [_radiation_vectors], the model keeps the
    exception this call raises ([radiation_vectors_nan]).  A division by
    zero between Python floats raises [ZeroDivisionError].

    Arrays.  A numpy array of rank at most two is a shape together with an
    index function, so that [np.squeeze], broadcasting and [np.trapz]
    behave on degenerate shapes as they do in numpy. *)

From Stdlib Require Import Reals Lra Lia List String Ascii ZArith Bool Permutation.
Import ListNotations.

Local Open Scope R_scope.

(** ** Outcomes of a Python computation *)

(** The pieces of an f-string: literal text, a formatted float, a
    formatted string value. *)
Inductive piece : Type :=
| Txt (s : string)
| Flt (x : R)
| Str (s : string).

Definition message : Type := list piece.

(** The exceptions the modelled code can raise. *)
Inductive exn : Type :=
| SetupError (msg : message)
| ZeroDivisionError
| ValueError
| IndexError.

Inductive result (A : Type) : Type :=
| Ok (a : A)
| Raise (e : exn)
| NotFinite.

Arguments Ok {A} a.
Arguments Raise {A} e.
Arguments NotFinite {A}.

Definition bind {A B : Type} (m : result A) (k : A -> result B) : result B :=
  match m with
  | Ok a => k a
  | Raise e => Raise e
  | NotFinite => NotFinite
  end.

Definition rmap {A B : Type} (f : A -> B) (m : result A) : result B :=
  bind m (fun a => Ok (f a)).

Notation "x <- m ;; k" := (bind m (fun x => k))
  (at level 61, m at next level, right associativity).
Notation "' p <- m ;; k" := (bind m (fun p => k))
  (at level 61, p pattern, m at next level, right associativity).

(** ** Complex numbers *)

Definition C : Type := (R * R)%type.

Definition RtoC (x : R) : C := (x, 0).
Definition Ci : C := (0, 1).
Definition Cre (z : C) : R := fst z.
Definition Cim (z : C) : R := snd z.
Definition Cadd (a b : C) : C := (fst a + fst b, snd a + snd b).
Definition Csub (a b : C) : C := (fst a - fst b, snd a - snd b).
Definition Cneg (a : C) : C := (- fst a, - snd a).
Definition Cmul (a b : C) : C :=
  (fst a * fst b - snd a * snd b, fst a * snd b + snd a * fst b).
Definition Cconj (a : C) : C := (fst a, - snd a).
(** A complex value divided by a float. *)
Definition Cdivr (a : C) (x : R) : C := (fst a / x, snd a / x).
(** [np.abs] of a complex value. *)
Definition Cabs (a : C) : R := sqrt (fst a ^ 2 + snd a ^ 2).
(** [np.exp] of a complex value. *)
Definition Cexp (a : C) : C := (exp (fst a) * cos (snd a), exp (fst a) * sin (snd a)).

Declare Scope C_scope.
Delimit Scope C_scope with C.
Bind Scope C_scope with C.
Notation "a + b" := (Cadd a b) : C_scope.
Notation "a - b" := (Csub a b) : C_scope.
Notation "a * b" := (Cmul a b) : C_scope.
Notation "- a" := (Cneg a) : C_scope.
Notation "a /. x" := (Cdivr a x) (at level 40, left associativity) : C_scope.
Notation "$ x" := (RtoC x) (at level 9, x at level 9, format "$ x") : C_scope.

(** Equalities of complex values are proved on their two components. *)
Ltac csimp :=
  unfold Cadd, Csub, Cmul, Cneg, Cdivr, Cconj, RtoC, Ci, Cre, Cim in *; cbn [fst snd] in *.

Ltac split_pairs :=
  repeat match goal with
         | |- Ok _ = Ok _ => apply f_equal
         | |- (_, _) = (_, _) => apply f_equal2
         end.

Ltac ceq := csimp; split_pairs; try ring; try (unfold Rdiv; ring); try field.

(** ** Coordinate transformations ([_car_2_sph], [_sph_2_car], [_sph_2_car_field]) *)

(** [np.arctan2 y x] on finite arguments. *)
Definition arctan2 (y x : R) : R :=
  if Rlt_dec 0 x then atan (y / x)
  else if Rlt_dec x 0 then
         if Rle_dec 0 y then atan (y / x) + PI else atan (y / x) - PI
  else if Rlt_dec 0 y then PI / 2
  else if Rlt_dec y 0 then - (PI / 2)
  else 0.

(** [z / r] with [r] a numpy float: [nan] or [inf] when [r] is zero. *)
Definition np_div (a b : R) : result R :=
  if Req_dec_T b 0 then NotFinite else Ok (a / b).

Definition _car_2_sph (x y z : R) : result (R * R * R) :=
  let r := sqrt (x ^ 2 + y ^ 2 + z ^ 2) in
  q <- np_div z r ;;
  let theta := acos q in
  let phi := arctan2 y x in
  Ok (r, theta, phi).

Definition _sph_2_car (r theta phi : R) : R * R * R :=
  let r_sin_theta := r * sin theta in
  let x := r_sin_theta * cos phi in
  let y := r_sin_theta * sin phi in
  let z := r * cos theta in
  (x, y, z).

Definition _sph_2_car_field (Ar Atheta Aphi : C) (theta phi : R) : C * C * C :=
  let sin_theta := sin theta in
  let cos_theta := cos theta in
  let sin_phi := sin phi in
  let cos_phi := cos phi in
  let Ax := (Ar * $sin_theta * $cos_phi + Atheta * $cos_theta * $cos_phi - Aphi * $sin_phi)%C in
  let Ay := (Ar * $sin_theta * $sin_phi + Atheta * $cos_theta * $sin_phi + Aphi * $cos_phi)%C in
  let Az := (Ar * $cos_theta - Atheta * $sin_theta)%C in
  (Ax, Ay, Az).

(** ** numpy arrays of rank at most two *)

Record vec (T : Type) : Type := mkvec { len : nat; vat : nat -> T }.
Record mat (T : Type) : Type := mkmat { rows : nat; cols : nat; mat_at : nat -> nat -> T }.

Arguments mkvec {T} len vat.
Arguments len {T} v.
Arguments vat {T} v i.
Arguments mkmat {T} rows cols mat_at.
Arguments rows {T} m.
Arguments cols {T} m.
Arguments mat_at {T} m i j.

Inductive ndarray (T : Type) : Type :=
| Arr0 (x : T)
| Arr1 (v : vec T)
| Arr2 (m : mat T).

Arguments Arr0 {T} x.
Arguments Arr1 {T} v.
Arguments Arr2 {T} m.

Definition shape {T : Type} (a : ndarray T) : list nat :=
  match a with
  | Arr0 _ => []
  | Arr1 v => [len v]
  | Arr2 m => [rows m; cols m]
  end.

Definition vmap {A B : Type} (f : A -> B) (v : vec A) : vec B :=
  mkvec (len v) (fun i => f (vat v i)).

Definition mmap {A B : Type} (f : A -> B) (m : mat A) : mat B :=
  mkmat (rows m) (cols m) (fun i j => f (mat_at m i j)).

Definition amap {A B : Type} (f : A -> B) (a : ndarray A) : ndarray B :=
  match a with
  | Arr0 x => Arr0 (f x)
  | Arr1 v => Arr1 (vmap f v)
  | Arr2 m => Arr2 (mmap f m)
  end.

(** [np.squeeze]: every axis of length one is removed. *)
Definition squeeze {T : Type} (a : ndarray T) : ndarray T :=
  match a with
  | Arr0 x => Arr0 x
  | Arr1 v => if (len v =? 1)%nat then Arr0 (vat v 0%nat) else Arr1 v
  | Arr2 m =>
      if (rows m =? 1)%nat then
        if (cols m =? 1)%nat then Arr0 (mat_at m 0%nat 0%nat)
        else Arr1 (mkvec (cols m) (fun j => mat_at m 0%nat j))
      else if (cols m =? 1)%nat then Arr1 (mkvec (rows m) (fun i => mat_at m i 0%nat))
      else Arr2 m
  end.

(** Broadcasting of one axis: equal lengths, or one of them is one. *)
Definition bdim (a b : nat) : result nat :=
  if (a =? b)%nat then Ok a
  else if (a =? 1)%nat then Ok b
  else if (b =? 1)%nat then Ok a
  else Raise ValueError.

(** The index read on an axis of length [d] for the broadcast index [i]. *)
Definition bidx (d i : nat) : nat := if (d =? 1)%nat then 0%nat else i.

(** A binary operation on two rank-2 arrays, with broadcasting. *)
Definition broadcast_mat {A B X : Type} (f : A -> B -> X) (a : mat A) (b : mat B)
  : result (mat X) :=
  n <- bdim (rows a) (rows b) ;;
  m <- bdim (cols a) (cols b) ;;
  Ok (mkmat n m (fun i j =>
        f (mat_at a (bidx (rows a) i) (bidx (cols a) j))
          (mat_at b (bidx (rows b) i) (bidx (cols b) j)))).

(** An array of rank at most two seen as a rank-2 array: numpy prepends
    axes of length one before it broadcasts. *)
Definition as_mat {T : Type} (a : ndarray T) : mat T :=
  match a with
  | Arr0 x => mkmat 1 1 (fun _ _ => x)
  | Arr1 v => mkmat 1 (len v) (fun _ j => vat v j)
  | Arr2 m => m
  end.

(** [a[:, 0]] and [a[0, :]] of a rank-2 array. *)
Definition col0 {T : Type} (a : mat T) : result (vec T) :=
  if (cols a =? 0)%nat then Raise IndexError
  else Ok (mkvec (rows a) (fun i => mat_at a i 0%nat)).

Definition row0 {T : Type} (a : mat T) : result (vec T) :=
  if (rows a =? 0)%nat then Raise IndexError
  else Ok (mkvec (cols a) (fun j => mat_at a 0%nat j)).

(** Sum of [g 0], ..., [g (n-1)]. *)
Fixpoint Csum (n : nat) (g : nat -> C) : C :=
  match n with
  | O => RtoC 0
  | S k => (Csum k g + g k)%C
  end.

(** [np.diff] of a rank-1 array. *)
Definition diff (x : vec R) : vec R :=
  mkvec (len x - 1) (fun i => vat x (S i) - vat x i).

(** [np.trapz(y, x, axis=0)] for [y] of rank two and [x] of rank one:
    [d = diff(x)] is reshaped to a column and broadcast against
    [y[1:] + y[:-1]]; the product is halved and summed along axis 0. *)
Definition trapz_mat (y : mat C) (x : vec R) : result (vec C) :=
  let d := diff x in
  let ys := mkmat (rows y - 1) (cols y)
              (fun i j => (mat_at y (S i) j + mat_at y i j)%C) in
  p <- broadcast_mat (fun a b => (($a * b) /. 2)%C) (mkmat (len d) 1 (fun i _ => vat d i)) ys ;;
  Ok (mkvec (cols p) (fun j => Csum (rows p) (fun i => mat_at p i j))).

(** [np.trapz(y, x, axis=0)] for [y] and [x] of rank one. *)
Definition trapz_vec (y : vec C) (x : vec R) : result C :=
  let d := diff x in
  let ys := mkvec (len y - 1) (fun i => (vat y (S i) + vat y i)%C) in
  n <- bdim (len d) (len ys) ;;
  Ok (Csum n (fun i => (($(vat d (bidx (len d) i)) * vat ys (bidx (len ys) i)) /. 2)%C)).

(** [np.linspace(start, stop, num)]. *)
Definition linspace (start stop : R) (num : Z) : result (vec R) :=
  if (num <? 0)%Z then Raise ValueError
  else
    let n := Z.to_nat num in
    let step := (stop - start) / (IZR num - 1) in
    Ok (mkvec n (fun i =>
          if ((1 <? n) && (i =? n - 1))%nat then stop else start + INR i * step)).

(** [np.meshgrid(u, v, indexing="ij")]. *)
Definition meshgrid (u v : vec R) : mat R * mat R :=
  (mkmat (len u) (len v) (fun i _ => vat u i),
   mkmat (len u) (len v) (fun _ j => vat v j)).

(** [np.ceil] followed by [int]. *)
Definition ceil (x : R) : Z := (1 - up (- x))%Z.

(** ** Monitors and near-field data *)

Definition point : Type := (R * R * R)%type.

(** [components.types.Axis]: 0, 1 or 2. *)
Inductive Axis : Type := Ax0 | Ax1 | Ax2.

(** [t[axis]] for a 3-component tuple. *)
Definition item (t : point) (a : Axis) : R :=
  match t, a with
  | (x, _, _), Ax0 => x
  | (_, y, _), Ax1 => y
  | (_, _, z), Ax2 => z
  end.

Record FieldMonitor : Type := mkmon {
  name : string;
  center : point;
  size : point
}.

(** Modelled from the spec: the near-field dataset of one monitor
    ([components.data], not part of this source).  It is keyed by the
    field-component names; each value is indexable by frequency and can be
    resampled at any point. *)
Record ScalarField : Type := mkfield {
  sf_f : list R;
  sf_at : point -> R -> C
}.

Definition FieldData : Type := list (string * ScalarField).

(** The resampled dataset: per field component, the stored frequencies
    and, for each of them, the array of values. *)
Record DataArray : Type := mkda {
  da_f : list R;
  da_values : R -> ndarray C
}.

Definition Dataset : Type := list (string * DataArray).

Definition SimulationData : Type := list (string * FieldData).

Fixpoint lookup {V : Type} (k : string) (d : list (string * V)) : option V :=
  match d with
  | [] => None
  | (k', v) :: d' => if String.eqb k k' then Some v else lookup k d'
  end.

Definition keys {V : Type} (d : list (string * V)) : list string := map fst d.

(** The point of the plane normal to [axis] at [w] with in-plane
    coordinates [a] and [b]. *)
Definition plane_point (axis : Axis) (w a b : R) : point :=
  match axis with
  | Ax0 => (w, a, b)
  | Ax1 => (a, w, b)
  | Ax2 => (a, b, w)
  end.

(** Modelled from the spec: [FieldData.colocate] ([components.data], not
    part of this source), called with one scalar coordinate [w] on the
    axis [axis] and with the coordinate arrays [u] and [v] on the two
    other axes; every field component is resampled on the outer product
    of [u] and [v]. *)
Definition colocate (fd : FieldData) (axis : Axis) (w : R) (u v : vec R) : Dataset :=
  map (fun kv =>
         (fst kv,
          mkda (sf_f (snd kv))
               (fun f => Arr2 (mkmat (len u) (len v)
                         (fun i j => sf_at (snd kv) (plane_point axis w (vat u i) (vat v j)) f)))))
      fd.

(** [da.sel(f=frequency)]: fails when the frequency is not a coordinate. *)
Definition sel (da : DataArray) (f : R) : option (ndarray C) :=
  if in_dec Req_dec_T f (da_f da) then Some (da_values da f) else None.

(** [field_data.get(key).sel(f=frequency)], as evaluated inside [try]. *)
Definition get_sel (ds : Dataset) (key : string) (f : R) : option (ndarray C) :=
  match lookup key ds with
  | Some da => sel da f
  | None => None
  end.

(** [sub in s] for Python strings. *)
Fixpoint str_in (sub s : string) : bool :=
  String.prefix sub s ||
  match s with
  | EmptyString => false
  | String _ s' => str_in sub s'
  end.

(** [np.argmin] of a 3-component tuple: the first smallest component. *)
Definition argmin (t : point) : Axis :=
  match t with
  | (a, b, c) =>
      if Rle_dec a b then
        if Rle_dec a c then Ax0 else Ax2
      else if Rle_dec b c then Ax1 else Ax2
  end.

(** [bool(x)] of a float. *)
Definition truthy (x : R) : bool := if Req_dec_T x 0 then false else true.

(** [sum(bool(size) for size in mon.size)]. *)
Definition count_nonzero (t : point) : nat :=
  match t with
  | (a, b, c) => (Nat.b2n (truthy a) + Nat.b2n (truthy b) + Nat.b2n (truthy c))%nat
  end.

(** ** The engine *)

Record Near2FarData : Type := mkdata {
  grid_points : mat R * mat R;
  data_center : point;
  J : ndarray C * ndarray C;
  M : ndarray C * ndarray C;
  mon_axis : Axis
}.

Record Near2Far : Type := mkengine {
  spacetime_sign : R;
  frequency : R;
  k0 : R;
  pts_per_wavelength : Z;
  data : list Near2FarData;
  origin : point
}.

(** A float times an array. *)
Definition ascale (s : R) (a : ndarray C) : ndarray C := amap (fun z => ($s * z)%C) a.

Definition not_a_surface (mon : FieldMonitor) : message :=
  [Txt "Can't compute far fields for the monitor "; Str (name mon);
   Txt " because it is not a surface."].

Definition no_data (mon : FieldMonitor) : message :=
  [Txt "No data for monitor named '"; Str (name mon); Txt "' found in supplied sim_data."].

Definition no_E_field (mon : FieldMonitor) : message :=
  [Txt "Monitor named '"; Str (name mon); Txt "' doesn't store required E field values"].

Definition no_H_field (mon : FieldMonitor) : message :=
  [Txt "Monitor named '"; Str (name mon); Txt "' doesn't store required H field values"].

Definition no_frequency (f : R) (mon : FieldMonitor) : message :=
  [Txt "Frequency "; Flt f; Txt " not found in all fields from monitor '";
   Str (name mon); Txt "'."].

(** [x / n] for a Python number [x] and the integer [n = len(...)]. *)
Definition py_div (x : R) (n : nat) : result R :=
  if (n =? 0)%nat then Raise ZeroDivisionError else Ok (x / INR n).

(** [a / b] for two Python floats: [frequency] is a [float], so [self.k0]
    and [2.0 * np.pi / self.k0] are computed by Python. *)
Definition py_truediv (a b : R) : result R :=
  if Req_dec_T b 0 then Raise ZeroDivisionError else Ok (a / b).

(** The in-plane axes, the names of the tangential field components and
    the orientation signs for each monitor axis. *)
Definition required_fields (a : Axis) : string * string :=
  match a with
  | Ax0 => ("y", "z")
  | Ax1 => ("x", "z")
  | Ax2 => ("x", "y")
  end%string.

Definition idx_uv (a : Axis) : Axis * Axis :=
  match a with
  | Ax0 => (Ax1, Ax2)
  | Ax1 => (Ax0, Ax2)
  | Ax2 => (Ax0, Ax1)
  end.

Definition base_signs (a : Axis) : R * R :=
  match a with
  | Ax0 => (-1, 1)
  | Ax1 => (1, -1)
  | Ax2 => (-1, 1)
  end.

(** The body of the loop [for idx in idx_uv] of [_get_data_from_monitor]. *)
Definition uv_points_at (ppw : Z) (wavelength : R) (mon : FieldMonitor) (idx : Axis)
  : result (vec R) :=
  let num_pts := ceil (IZR ppw * item (size mon) idx / wavelength) in
  let start := item (center mon) idx - item (size mon) idx / 2 in
  let stop := item (center mon) idx + item (size mon) idx / 2 in
  linspace start stop num_pts.

Definition mem (k : string) (l : list string) : bool := existsb (String.eqb k) l.

(** The [try] block of [_get_data_from_monitor]: the four selections, any
    failure being turned into the same [SetupError]. *)
Definition select_fields (ds : Dataset) (rf : string * string) (f : R)
  : option (ndarray C * ndarray C * ndarray C * ndarray C) :=
  match get_sel ds ("E" ++ fst rf) f with
  | None => None
  | Some Eu =>
      match get_sel ds ("E" ++ snd rf) f with
      | None => None
      | Some Ev =>
          match get_sel ds ("H" ++ fst rf) f with
          | None => None
          | Some Hu =>
              match get_sel ds ("H" ++ snd rf) f with
              | None => None
              | Some Hv => Some (Eu, Ev, Hu, Hv)
              end
          end
      end
  end.

(** [Near2Far._get_data_from_monitor]; [k0], [frequency] and
    [pts_per_wavelength] are the attributes of [self] it reads. *)
Definition _get_data_from_monitor (k0 frequency : R) (pts_per_wavelength : Z)
    (sim_data : SimulationData) (mon : FieldMonitor) : result Near2FarData :=
  if negb (count_nonzero (size mon) =? 2)%nat then Raise (SetupError (not_a_surface mon))
  else
    let mon_axis := argmin (size mon) in
    match lookup (name mon) sim_data with
    | None => Raise (SetupError (no_data mon))
    | Some field_data =>
        let rf := required_fields mon_axis in
        let signs := base_signs mon_axis in
        wavelength <- py_truediv (2 * PI) k0 ;;
        u <- uv_points_at pts_per_wavelength wavelength mon (fst (idx_uv mon_axis)) ;;
        v <- uv_points_at pts_per_wavelength wavelength mon (snd (idx_uv mon_axis)) ;;
        let grid_points := meshgrid u v in
        let field_data := colocate field_data mon_axis (item (center mon) mon_axis) u v in
        let signs :=
          if str_in "-" (name mon) then (-1 * fst signs, -1 * snd signs) else signs in
        let monitor_fields := keys field_data in
        if negb (mem ("E" ++ fst rf) monitor_fields) || negb (mem ("E" ++ snd rf) monitor_fields)
        then Raise (SetupError (no_E_field mon))
        else if negb (mem ("H" ++ fst rf) monitor_fields)
                || negb (mem ("H" ++ snd rf) monitor_fields)
        then Raise (SetupError (no_H_field mon))
        else
          match select_fields field_data rf frequency with
          | None => Raise (SetupError (no_frequency frequency mon))
          | Some (Eu, Ev, Hu, Hv) =>
              let J := (ascale (fst signs) (squeeze Hv), ascale (snd signs) (squeeze Hu)) in
              let M := (ascale (snd signs) (squeeze Ev), ascale (fst signs) (squeeze Eu)) in
              Ok (mkdata grid_points (center mon) J M mon_axis)
          end
    end.

(** The loop [for mon in mons] of the constructor. *)
Fixpoint collect_data (k0 frequency : R) (ppw : Z) (sim_data : SimulationData)
    (mons : list FieldMonitor) : result (list Near2FarData) :=
  match mons with
  | [] => Ok []
  | mon :: rest =>
      d <- _get_data_from_monitor k0 frequency ppw sim_data mon ;;
      ds <- collect_data k0 frequency ppw sim_data rest ;;
      Ok (d :: ds)
  end.

(** [[sum(x) for x in zip(origin, center)]]. *)
Definition zip_sum (o c : point) : point :=
  match o, c with
  | (a, b, c0), (x, y, z) => (a + x, b + y, c0 + z)
  end.

Section Constants.

(** [C_0] and [ETA_0] are imported from [tidy3d.constants]. *)
Variables C_0 ETA_0 : R.

(** [Near2Far.__init__]. *)
Definition __init__ (sim_data : SimulationData) (mons : list FieldMonitor)
    (frequency : R) (pts_per_wavelength : Z) : result Near2Far :=
  let spacetime_sign := 1 in
  let k0 := 2 * PI * frequency / C_0 in
  data <- collect_data k0 frequency pts_per_wavelength sim_data mons ;;
  let origin := fold_left (fun o d => zip_sum o (data_center d)) data (0, 0, 0) in
  match origin with
  | (ox, oy, oz) =>
      x <- py_div ox (List.length data) ;;
      y <- py_div oy (List.length data) ;;
      z <- py_div oz (List.length data) ;;
      Ok (mkengine spacetime_sign frequency k0 pts_per_wavelength data (x, y, z))
  end.

(** [np.exp(-self.spacetime_sign * 1j * self.k0 * xp * s * c)] for one
    coordinate [xp]; [phase_z] has the single factor [cos_theta]. *)
Definition phase2 (self : Near2Far) (xp s c : R) : C :=
  Cexp ($(- spacetime_sign self) * Ci * $(k0 self) * $xp * $s * $c)%C.

Definition phase1 (self : Near2Far) (zp c : R) : C :=
  Cexp ($(- spacetime_sign self) * Ci * $(k0 self) * $zp * $c)%C.

(** [phase_x * phase_y * phase_z] in each of the three branches on
    [data.mon_axis]: one factor is a scalar, the two others are arrays. *)
Definition phase (self : Near2Far) (theta phi : R) (d : Near2FarData) : result (mat C) :=
  let sin_theta := sin theta in
  let cos_theta := cos theta in
  let sin_phi := sin phi in
  let cos_phi := cos phi in
  let w0 := item (data_center d) (mon_axis d) - item (origin self) (mon_axis d) in
  match mon_axis d with
  | Ax0 =>
      let xp := w0 in
      let yp := mmap (fun g => g - item (origin self) Ax1) (fst (grid_points d)) in
      let zp := mmap (fun g => g - item (origin self) Ax2) (snd (grid_points d)) in
      let phase_x := phase2 self xp sin_theta cos_phi in
      let phase_y := mmap (fun y => phase2 self y sin_theta sin_phi) yp in
      let phase_z := mmap (fun z => phase1 self z cos_theta) zp in
      broadcast_mat Cmul (mmap (Cmul phase_x) phase_y) phase_z
  | Ax1 =>
      let xp := mmap (fun g => g - item (origin self) Ax0) (fst (grid_points d)) in
      let yp := w0 in
      let zp := mmap (fun g => g - item (origin self) Ax2) (snd (grid_points d)) in
      let phase_x := mmap (fun x => phase2 self x sin_theta cos_phi) xp in
      let phase_y := phase2 self yp sin_theta sin_phi in
      let phase_z := mmap (fun z => phase1 self z cos_theta) zp in
      broadcast_mat Cmul (mmap (fun x => (x * phase_y)%C) phase_x) phase_z
  | Ax2 =>
      let xp := mmap (fun g => g - item (origin self) Ax0) (fst (grid_points d)) in
      let yp := mmap (fun g => g - item (origin self) Ax1) (snd (grid_points d)) in
      let zp := w0 in
      let phase_x := mmap (fun x => phase2 self x sin_theta cos_phi) xp in
      let phase_y := mmap (fun y => phase2 self y sin_theta sin_phi) yp in
      let phase_z := phase1 self zp cos_theta in
      p <- broadcast_mat Cmul phase_x phase_y ;;
      Ok (mmap (fun x => (x * phase_z)%C) p)
  end.

(** [np.trapz(np.trapz(a * phase, grid_points[0][:,0], axis=0),
              grid_points[1][0,:], axis=0)]. *)
Definition integrate (a : ndarray C) (ph : mat C) (gp : mat R * mat R) : result C :=
  y <- broadcast_mat Cmul (as_mat a) ph ;;
  x0 <- col0 (fst gp) ;;
  t <- trapz_mat y x0 ;;
  x1 <- row0 (snd gp) ;;
  trapz_vec t x1.

(** The list [[0, 0, 0]] with the entries [source_indices] assigned. *)
Definition source_vector (a : Axis) (s0 s1 : C) : C * C * C :=
  match a with
  | Ax0 => ($0, s0, s1)
  | Ax1 => (s0, $0, s1)
  | Ax2 => (s0, s1, $0)
  end%C.

Definition _radiation_vectors_per_monitor (self : Near2Far) (theta phi : R)
    (d : Near2FarData) : result (C * C * C * C) :=
  let sin_theta := sin theta in
  let cos_theta := cos theta in
  let sin_phi := sin phi in
  let cos_phi := cos phi in
  ph <- phase self theta phi d ;;
  J0 <- integrate (fst (J d)) ph (grid_points d) ;;
  J1 <- integrate (snd (J d)) ph (grid_points d) ;;
  M0 <- integrate (fst (M d)) ph (grid_points d) ;;
  M1 <- integrate (snd (M d)) ph (grid_points d) ;;
  match source_vector (mon_axis d) J0 J1, source_vector (mon_axis d) M0 M1 with
  | (Jx, Jy, Jz), (Mx, My, Mz) =>
      let N_theta := (Jx * $cos_theta * $cos_phi + Jy * $cos_theta * $sin_phi
                      - Jz * $sin_theta)%C in
      let N_phi := (- Jx * $sin_phi + Jy * $cos_phi)%C in
      let L_theta := (Mx * $cos_theta * $cos_phi + My * $cos_theta * $sin_phi
                      - Mz * $sin_theta)%C in
      let L_phi := (- Mx * $sin_phi + My * $cos_phi)%C in
      Ok (N_theta, N_phi, L_theta, L_phi)
  end.

(** The loop of [_radiation_vectors], from the accumulators [acc]. *)
Fixpoint accumulate (self : Near2Far) (theta phi : R) (ds : list Near2FarData)
    (acc : C * C * C * C) : result (C * C * C * C) :=
  match ds with
  | [] => Ok acc
  | d :: rest =>
      '(_N_th, _N_ph, _L_th, _L_ph) <- _radiation_vectors_per_monitor self theta phi d ;;
      match acc with
      | (N_theta, N_phi, L_theta, L_phi) =>
          accumulate self theta phi rest
            (N_theta + _N_th, N_phi + _N_ph, L_theta + _L_th, L_phi + _L_ph)%C
      end
  end.

Definition _radiation_vectors (self : Near2Far) (theta phi : R) : result (C * C * C * C) :=
  accumulate self theta phi (data self) ($0, $0, $0, $0)%C.

(** The observation point re-referenced to [self.origin]: the first two
    lines of [fields_spherical] and of [radar_cross_section]. *)
Definition local_sph (self : Near2Far) (r theta phi : R) : result (R * R * R) :=
  match _sph_2_car r theta phi, origin self with
  | (x, y, z), (ox, oy, oz) => _car_2_sph (x - ox) (y - oy) (z - oz)
  end.

Definition scalar_proj_r (self : Near2Far) (r : R) : C :=
  (($(- spacetime_sign self) * Ci * $(k0 self)
    * Cexp ($(spacetime_sign self) * Ci * $(k0 self) * $r)) /. (4 * PI * r))%C.

(** [_radiation_vectors] called with an angle that is [nan].  No numpy
    operation raises on a [nan] value: the call raises what the shapes of
    the data make it raise, the same exception at every angle
    ([radiation_vectors_raise_any_angle]), and returns [nan] values
    otherwise; so do its callers. *)
Definition radiation_vectors_nan {A : Type} (self : Near2Far) : result A :=
  match _radiation_vectors self 0 0 with
  | Raise e => Raise e
  | _ => NotFinite
  end.

(** When the point is the origin, [_car_2_sph] returns the angle
    [theta = nan] and the code goes on with it. *)
Definition fields_spherical (self : Near2Far) (r theta phi : R)
  : result ((C * C * C) * (C * C * C)) :=
  match local_sph self r theta phi with
  | Raise e => Raise e
  | NotFinite => radiation_vectors_nan self
  | Ok (r, theta, phi) =>
      '(N_theta, N_phi, L_theta, L_phi) <- _radiation_vectors self theta phi ;;
      let scalar := scalar_proj_r self r in
      let E_theta := (- scalar * (L_phi + $ETA_0 * N_theta))%C in
      let E_phi := (scalar * (L_theta - $ETA_0 * N_phi))%C in
      let E_r := RtoC 0 in
      let E := (E_r, E_theta, E_phi) in
      let H_theta := ((- E_phi) /. ETA_0)%C in
      let H_phi := (E_theta /. ETA_0)%C in
      let H_r := RtoC 0 in
      let H := (H_r, H_theta, H_phi) in
      Ok (E, H)
  end.

(** At the origin [fields_spherical] is called with [theta = nan]; all
    its coordinates are [nan] from there on. *)
Definition fields_cartesian (self : Near2Far) (x y z : R)
  : result ((C * C * C) * (C * C * C)) :=
  match origin self with
  | (ox, oy, oz) =>
      match _car_2_sph (x - ox) (y - oy) (z - oz) with
      | Raise e => Raise e
      | NotFinite => radiation_vectors_nan self
      | Ok (r, theta, phi) =>
          '(E, H) <- fields_spherical self r theta phi ;;
          match E, H with
          | (Er, Etheta, Ephi), (Hr, Htheta, Hphi) =>
              Ok (_sph_2_car_field Er Etheta Ephi theta phi,
                  _sph_2_car_field Hr Htheta Hphi theta phi)
          end
      end
  end.

Definition power_spherical (self : Near2Far) (r theta phi : R) : result R :=
  '(E, H) <- fields_spherical self r theta phi ;;
  match E, H with
  | (_, E_theta, E_phi), (_, H_theta, H_phi) =>
      let power_theta := 0.5 * Cre (E_theta * Cconj H_phi) in
      let power_phi := 0.5 * Cre (- E_phi * Cconj H_theta) in
      Ok (power_theta + power_phi)
  end.

Definition power_cartesian (self : Near2Far) (x y z : R) : result R :=
  match _car_2_sph x y z with
  | Raise e => Raise e
  | NotFinite => radiation_vectors_nan self
  | Ok (r, theta, phi) => power_spherical self r theta phi
  end.

Definition radar_cross_section (self : Near2Far) (r theta phi : R) : result R :=
  match local_sph self r theta phi with
  | Raise e => Raise e
  | NotFinite => radiation_vectors_nan self
  | Ok (r, theta, phi) =>
      '(N_theta, N_phi, L_theta, L_phi) <- _radiation_vectors self theta phi ;;
      let constant := k0 self ^ 2 / (8 * PI * ETA_0) in
      let term1 := Cabs (L_phi + $ETA_0 * N_theta) ^ 2 in
      let term2 := Cabs (L_theta - $ETA_0 * N_phi) ^ 2 in
      Ok (constant * (term1 + term2))
  end.

(** ** Definitions used to state the properties *)

(** Every stored [J] and [M] sample array multiplied by the constant [c]. *)
Definition cscale (c : C) (a : ndarray C) : ndarray C := amap (Cmul c) a.

Definition scale_data (c : C) (d : Near2FarData) : Near2FarData :=
  mkdata (grid_points d) (data_center d)
         (cscale c (fst (J d)), cscale c (snd (J d)))
         (cscale c (fst (M d)), cscale c (snd (M d)))
         (mon_axis d).

Definition scale_engine (c : C) (e : Near2Far) : Near2Far :=
  mkengine (spacetime_sign e) (frequency e) (k0 e) (pts_per_wavelength e)
           (map (scale_data c) (data e)) (origin e).

Definition vscale (c : C) (v : C * C * C) : C * C * C :=
  match v with
  | (a, b, d) => (c * a, c * b, c * d)%C
  end.

Definition fscale (c : C) (eh : (C * C * C) * (C * C * C)) : (C * C * C) * (C * C * C) :=
  (vscale c (fst eh), vscale c (snd eh)).

(** The squared modulus of a complex constant. *)
Definition Cmod2 (c : C) : R := fst c ^ 2 + snd c ^ 2.

(** The entry of an array at the indices [i] and [j] of the rank-2 view
    that numpy gives it when it broadcasts ([as_mat]). *)
Definition entry {T : Type} (a : ndarray T) (i j : nat) : T := mat_at (as_mat a) i j.

(** The component-wise arithmetic mean of a list of points. *)
Definition mean_point (ps : list point) : point :=
  let n := INR (List.length ps) in
  (fold_right Rplus 0 (map (fun p => item p Ax0) ps) / n,
   fold_right Rplus 0 (map (fun p => item p Ax1) ps) / n,
   fold_right Rplus 0 (map (fun p => item p Ax2) ps) / n).

(** The shape of the collocation grid of a monitor's data. *)
Definition grid_shape (d : Near2FarData) : list nat :=
  [rows (fst (grid_points d)); cols (fst (grid_points d))].

(** The sampled data of a monitor is regular: the two meshes and the four
    current arrays are rank-2 arrays of one shape, with at least one
    sample along each in-plane axis. *)
Definition regular_data (d : Near2FarData) : Prop :=
  exists (n m : nat) (j0 j1 m0 m1 : mat C),
    (1 <= n)%nat /\ (1 <= m)%nat /\
    rows (fst (grid_points d)) = n /\ cols (fst (grid_points d)) = m /\
    rows (snd (grid_points d)) = n /\ cols (snd (grid_points d)) = m /\
    J d = (Arr2 j0, Arr2 j1) /\ M d = (Arr2 m0, Arr2 m1) /\
    rows j0 = n /\ cols j0 = m /\ rows j1 = n /\ cols j1 = m /\
    rows m0 = n /\ cols m0 = m /\ rows m1 = n /\ cols m1 = m.

(** The character [c] occurs in [s]. *)
Definition occurs (c : ascii) (s : string) : Prop :=
  exists i, String.get i s = Some c.

(** The keys of the four tangential field components of a monitor of
    axis [a]. *)
Definition required_keys (a : Axis) : list string :=
  ["E" ++ fst (required_fields a); "E" ++ snd (required_fields a);
   "H" ++ fst (required_fields a); "H" ++ snd (required_fields a)]%string.

(** The monitor is a surface of non-negative extents whose data stores
    the four tangential field components. *)
Definition well_stored (sd : SimulationData) (mon : FieldMonitor) (fd : FieldData) : Prop :=
  count_nonzero (size mon) = 2%nat /\
  (forall a, 0 <= item (size mon) a) /\
  lookup (name mon) sd = Some fd /\
  forall k, In k (required_keys (argmin (size mon))) -> exists sf, lookup k fd = Some sf.

Definition scale4 (c : C) (v : C * C * C * C) : C * C * C * C :=
  match v with
  | (n1, n2, l1, l2) => (c * n1, c * n2, c * l1, c * l2)%C
  end.

(** Two outcomes agree: both are values related by [P], or both are the
    same failure. *)
Definition res_rel {A : Type} (P : A -> A -> Prop) (m m' : result A) : Prop :=
  match m, m' with
  | Ok a, Ok a' => P a a'
  | Raise e, Raise e' => e = e'
  | NotFinite, NotFinite => True
  | _, _ => False
  end.

(** [t'] is [t] with every entry multiplied by [c]. *)
Definition vec_scaled (c : C) (t t' : vec C) : Prop :=
  len t' = len t /\ forall j, vat t' j = (c * vat t j)%C.

Definition mat_scaled (c : C) (y y' : mat C) : Prop :=
  rows y' = rows y /\ cols y' = cols y /\ forall i j, mat_at y' i j = (c * mat_at y i j)%C.

(** Every value returned by a query of [e] is returned by the same query
    of [e']. *)
Definition same_values (e e' : Near2Far) : Prop :=
  (forall r theta phi v, fields_spherical e r theta phi = Ok v ->
                         fields_spherical e' r theta phi = Ok v) /\
  (forall r theta phi v, power_spherical e r theta phi = Ok v ->
                         power_spherical e' r theta phi = Ok v) /\
  (forall r theta phi v, radar_cross_section e r theta phi = Ok v ->
                         radar_cross_section e' r theta phi = Ok v) /\
  (forall x y z v, fields_cartesian e x y z = Ok v -> fields_cartesian e' x y z = Ok v) /\
  (forall x y z v, power_cartesian e x y z = Ok v -> power_cartesian e' x y z = Ok v).

(** ** Example data *)

(** A field component that stores the frequency 1 and has the constant
    value [c]. *)
Definition ex_field (c : C) : ScalarField := mkfield [1] (fun _ _ => c).

Definition ex_fd : FieldData :=
  [("Ex", ex_field (RtoC 0)); ("Ey", ex_field (RtoC 1));
   ("Hx", ex_field (RtoC 0)); ("Hy", ex_field (RtoC 0))]%string.

Definition ex_sd : SimulationData := [("m"%string, ex_fd)].

(** A unit square in the plane z = 1, a strip a quarter of a unit wide in
    the same plane, and a unit cube. *)
Definition ex_mon : FieldMonitor := mkmon "m" (0, 0, 1) (1, 1, 0).
Definition strip_mon : FieldMonitor := mkmon "m" (0, 0, 1) (1, 1 / 4, 0).
Definition cube_mon : FieldMonitor := mkmon "m" (0, 0, 1) (1, 1, 1).

(** The data extracted from [ex_mon] at the frequency 1 with two points
    per wavelength, for a speed of light of 1. *)
Definition ex_pts : vec R :=
  mkvec 2 (fun i => if ((1 <? 2) && (i =? 2 - 1))%nat then 0 + 1 / 2
                    else 0 - 1 / 2 + INR i * ((0 + 1 / 2 - (0 - 1 / 2)) / (IZR 2 - 1))).

Definition ex_arr (c : C) : ndarray C := Arr2 (mkmat 2 2 (fun _ _ => c)).

Definition ex_data : Near2FarData :=
  mkdata (meshgrid ex_pts ex_pts) (0, 0, 1)
         (ascale (-1) (squeeze (ex_arr (RtoC 0))), ascale 1 (squeeze (ex_arr (RtoC 0))))
         (ascale 1 (squeeze (ex_arr (RtoC 1))), ascale (-1) (squeeze (ex_arr (RtoC 0))))
         Ax2.

Definition ex_engine : Near2Far :=
  mkengine 1 1 (2 * PI * 1 / 1) 2 [ex_data] (mean_point [(0, 0, 1)]).

(** The unit square of [ex_mon] under a name with a dash, with its
    simulation data and the data extracted from it; a second unit square,
    named "n" and centered at (2, 0, 3), with simulation data for it and
    for [ex_mon]. *)
Definition dash_mon : FieldMonitor := mkmon "m-" (0, 0, 1) (1, 1, 0).

Definition dash_sd : SimulationData := [("m-"%string, ex_fd)].

Definition dash_data : Near2FarData :=
  mkdata (meshgrid ex_pts ex_pts) (0, 0, 1)
         (ascale (-1 * -1) (squeeze (ex_arr (RtoC 0))), ascale (-1 * 1) (squeeze (ex_arr (RtoC 0))))
         (ascale (-1 * 1) (squeeze (ex_arr (RtoC 1))), ascale (-1 * -1) (squeeze (ex_arr (RtoC 0))))
         Ax2.

Definition mon_n : FieldMonitor := mkmon "n" (2, 0, 3) (1, 1, 0).

Definition pair_sd : SimulationData := [("m"%string, ex_fd); ("n"%string, ex_fd)].

(** The sum v . n of the products of the components of a complex vector
    and of a real vector. *)
Definition dot3 (v : C * C * C) (n : point) : C :=
  match v, n with
  | (a, b, c), (x, y, z) => (a * $x + b * $y + c * $z)%C
  end.

(** The component-wise sum of two tuples of radiation vectors, and the
    tuple of zeros. *)
Definition add4 (a b : C * C * C * C) : C * C * C * C :=
  match a, b with
  | (a1, a2, a3, a4), (b1, b2, b3, b4) => (a1 + b1, a2 + b2, a3 + b3, a4 + b4)%C
  end.

Definition zero4 : C * C * C * C := (RtoC 0, RtoC 0, RtoC 0, RtoC 0).

(** The engine with the data of [ex_mon] twice, a monitor that
    [ex_sd] has no data for, and simulation data for [ex_mon] without the
    E components and without the H components. *)
Definition ex_engine2 : Near2Far :=
  mkengine 1 1 (2 * PI * 1 / 1) 2 [ex_data; ex_data] (origin ex_engine).

Definition other_mon : FieldMonitor := mkmon "q" (0, 0, 1) (1, 1, 0).

Definition ex_sd_no_E : SimulationData :=
  [("m", [("Hx", ex_field (RtoC 0)); ("Hy", ex_field (RtoC 0))])]%string.

Definition ex_sd_no_H : SimulationData :=
  [("m", [("Ex", ex_field (RtoC 0)); ("Ey", ex_field (RtoC 1))])]%string.

(** ** Real and complex arithmetic *)

Lemma sin_cos_sqr (x : R) : sin x * sin x + cos x * cos x = 1.
Proof. generalize (sin2_cos2 x); unfold Rsqr; lra. Qed.

Lemma sin_shift (x : R) : sin (x - PI) = - sin x.
Proof. generalize (neg_sin (x - PI)); replace (x - PI + PI) with x by ring; lra. Qed.

Lemma cos_shift (x : R) : cos (x - PI) = - cos x.
Proof. generalize (neg_cos (x - PI)); replace (x - PI + PI) with x by ring; lra. Qed.

Lemma cos_pos_range (x : R) : - PI < x <= PI -> 0 < cos x -> - (PI / 2) < x < PI / 2.
Proof.
  intros [Hlo Hhi] Hc. split.
  - destruct (Rlt_dec (- (PI / 2)) x) as [|Hn]; [assumption|].
    assert (Hle : cos (- x) <= 0) by (apply cos_le_0; lra).
    rewrite cos_neg in Hle. lra.
  - destruct (Rlt_dec x (PI / 2)) as [|Hn]; [assumption|].
    assert (Hle : cos x <= 0) by (apply cos_le_0; lra). lra.
Qed.

Lemma cos_neg_range (x : R) :
  - PI < x <= PI -> cos x < 0 -> PI / 2 < x \/ x < - (PI / 2).
Proof.
  intros [Hlo Hhi] Hc.
  destruct (Rlt_dec (PI / 2) x) as [|Hn]; [left; assumption|].
  destruct (Rlt_dec x (- (PI / 2))) as [|Hm]; [right; assumption|].
  assert (0 <= cos x) by (apply cos_ge_0; lra). lra.
Qed.

Lemma cos_zero_range (x : R) :
  - PI < x <= PI -> cos x = 0 -> x = PI / 2 \/ x = - (PI / 2).
Proof.
  intros [Hlo Hhi] Hc. pose proof PI_RGT_0 as Hpi.
  destruct (Rle_dec 0 x) as [Hx|Hx].
  - destruct (cos_eq_0_2PI_0 x) as [E|E]; try lra.
  - assert (Hc' : cos (- x) = 0) by (rewrite cos_neg; assumption).
    destruct (cos_eq_0_2PI_0 (- x)) as [E|E]; try lra.
Qed.

Lemma arctan2_polar (s phi : R) :
  0 < s -> - PI < phi <= PI -> arctan2 (s * sin phi) (s * cos phi) = phi.
Proof.
  intros Hs Hphi. pose proof PI_RGT_0 as Hpi. unfold arctan2.
  destruct (Rlt_dec 0 (s * cos phi)) as [Hx|Hx].
  - assert (Hc : 0 < cos phi) by nra.
    replace (s * sin phi / (s * cos phi)) with (tan phi)
      by (unfold tan; field; split; lra).
    apply atan_tan. apply cos_pos_range; assumption.
  - destruct (Rlt_dec (s * cos phi) 0) as [Hx'|Hx'].
    + assert (Hc : cos phi < 0) by nra.
      assert (Ht : s * sin phi / (s * cos phi) = tan (phi - PI)).
      { unfold tan. rewrite sin_shift, cos_shift. field. split; lra. }
      assert (Ht' : s * sin phi / (s * cos phi) = tan (phi + PI)).
      { unfold tan. rewrite neg_sin, neg_cos. field. split; lra. }
      destruct (cos_neg_range phi Hphi Hc) as [Hr|Hr];
        destruct (Rle_dec 0 (s * sin phi)) as [Hy|Hy].
      * rewrite Ht, atan_tan by lra. ring.
      * exfalso. assert (0 <= sin phi) by (apply sin_ge_0; lra). nra.
      * exfalso. assert (sin phi < 0) by (apply sin_lt_0_var; lra). nra.
      * rewrite Ht', atan_tan by lra. ring.
    + assert (Hc : cos phi = 0) by nra.
      pose proof (sin_cos_sqr phi) as Hsc. rewrite Hc in Hsc.
      destruct (cos_zero_range phi Hphi Hc) as [E|E]; subst phi.
      * rewrite sin_PI2. destruct (Rlt_dec 0 (s * 1)); [reflexivity | lra].
      * rewrite sin_neg, sin_PI2.
        destruct (Rlt_dec 0 (s * - (1))); [lra|].
        destruct (Rlt_dec (s * - (1)) 0); [reflexivity | lra].
Qed.

Lemma norm_sph (r theta phi : R) :
  0 <= r ->
  sqrt ((r * sin theta * cos phi) ^ 2 + (r * sin theta * sin phi) ^ 2 + (r * cos theta) ^ 2) = r.
Proof.
  intros Hr.
  replace ((r * sin theta * cos phi) ^ 2 + (r * sin theta * sin phi) ^ 2 + (r * cos theta) ^ 2)
    with (r * r).
  - apply sqrt_square; assumption.
  - pose proof (sin_cos_sqr theta) as H1. pose proof (sin_cos_sqr phi) as H2.
    transitivity (r * r * (sin theta * sin theta * (sin phi * sin phi + cos phi * cos phi)
                           + cos theta * cos theta)).
    + rewrite H2, Rmult_1_r, H1. ring.
    + ring.
Qed.

(** ** Coordinate round trip *)

(** C8 (amended): for r > 0, theta in (0, pi) and phi in (-pi, pi],
    [_car_2_sph] applied to [_sph_2_car r theta phi] returns exactly
    [(r, theta, phi)]. *)
Theorem car_2_sph_sph_2_car (r theta phi : R) :
  0 < r -> 0 < theta < PI -> - PI < phi <= PI ->
  (let '(x, y, z) := _sph_2_car r theta phi in _car_2_sph x y z) = Ok (r, theta, phi).
Proof.
  intros Hr Hth Hphi. unfold _sph_2_car, _car_2_sph. cbv zeta.
  rewrite norm_sph by lra. unfold np_div.
  destruct (Req_dec_T r 0) as [E|_]; [lra|]. cbn [bind].
  replace (r * cos theta / r) with (cos theta) by (field; lra).
  rewrite acos_cos by lra.
  assert (Hs : 0 < sin theta) by (apply sin_gt_0; lra).
  rewrite (arctan2_polar (r * sin theta) phi) by (try nra; assumption).
  reflexivity.
Qed.

Lemma car_2_sph_sph_2_car_witness :
  (let '(x, y, z) := _sph_2_car 1 (PI / 2) (PI / 2) in _car_2_sph x y z)
  = Ok (1, PI / 2, PI / 2).
Proof.
  pose proof PI_RGT_0. apply car_2_sph_sph_2_car; lra.
Defined.

(** C8 as stated fails for an azimuth outside (-pi, pi]: at r = 1,
    theta = pi/2, phi = 2 pi the round trip returns the azimuth 0, which
    is more than 6 away from 2 pi. *)
Lemma roundtrip_any_phi_counterexample :
  (let '(x, y, z) := _sph_2_car 1 (PI / 2) (2 * PI) in _car_2_sph x y z)
  = Ok (1, PI / 2, 0) /\ 2 * PI - 0 > 6.
Proof.
  pose proof PI2_3_2 as Hpi. split; [|lra].
  unfold _sph_2_car, _car_2_sph. cbv zeta.
  rewrite sin_PI2, cos_PI2, sin_2PI, cos_2PI.
  replace ((1 * 1 * 1) ^ 2 + (1 * 1 * 0) ^ 2 + (1 * 0) ^ 2) with (1 * 1) by ring.
  rewrite sqrt_square by lra. unfold np_div.
  destruct (Req_dec_T 1 0) as [E|_]; [lra|]. cbn [bind].
  replace (1 * 0 / 1) with 0 by field. rewrite acos_0.
  unfold arctan2. destruct (Rlt_dec 0 (1 * 1 * 1)) as [_|N]; [|lra].
  replace (1 * 1 * 0 / (1 * 1 * 1)) with 0 by field. rewrite atan_0. reflexivity.
Qed.

(** ** The constructor *)

Lemma bind_ok {A B : Type} (m : result A) (k : A -> result B) (b : B) :
  bind m k = Ok b -> exists a, m = Ok a /\ k a = Ok b.
Proof. destruct m; cbn; intros H; try discriminate. eauto. Qed.

(** What [_get_data_from_monitor] has done when it returns. *)
Lemma get_data_inv (k0 f : R) (ppw : Z) (sd : SimulationData) (mon : FieldMonitor)
    (d : Near2FarData) :
  _get_data_from_monitor k0 f ppw sd mon = Ok d ->
  count_nonzero (size mon) = 2%nat /\
  exists fd wavelength u v Eu Ev Hu Hv,
    lookup (name mon) sd = Some fd /\
    py_truediv (2 * PI) k0 = Ok wavelength /\
    uv_points_at ppw wavelength mon (fst (idx_uv (argmin (size mon)))) = Ok u /\
    uv_points_at ppw wavelength mon (snd (idx_uv (argmin (size mon)))) = Ok v /\
    select_fields
      (colocate fd (argmin (size mon)) (item (center mon) (argmin (size mon))) u v)
      (required_fields (argmin (size mon))) f = Some (Eu, Ev, Hu, Hv) /\
    let signs :=
      if str_in "-" (name mon)
      then (-1 * fst (base_signs (argmin (size mon))),
            -1 * snd (base_signs (argmin (size mon))))
      else base_signs (argmin (size mon)) in
    d = mkdata (meshgrid u v) (center mon)
          (ascale (fst signs) (squeeze Hv), ascale (snd signs) (squeeze Hu))
          (ascale (snd signs) (squeeze Ev), ascale (fst signs) (squeeze Eu))
          (argmin (size mon)).
Proof.
  unfold _get_data_from_monitor. intros H.
  destruct (count_nonzero (size mon) =? 2)%nat eqn:Hc; cbn [negb] in H; [|discriminate].
  apply Nat.eqb_eq in Hc. split; [assumption|].
  destruct (lookup (name mon) sd) as [fd|]; [|discriminate].
  apply bind_ok in H. destruct H as (wl & Hwl & H).
  apply bind_ok in H. destruct H as (u & Hu & H).
  apply bind_ok in H. destruct H as (v & Hv & H).
  match type of H with (if ?b then _ else _) = _ => destruct b; [discriminate|] end.
  match type of H with (if ?b then _ else _) = _ => destruct b; [discriminate|] end.
  match type of H with
  | match ?s with _ => _ end = _ => destruct s as [[[[Eu Ev] Hu'] Hv']|] eqn:Hsel
  end; [|discriminate].
  injection H as <-.
  exists fd, wl, u, v, Eu, Ev, Hu', Hv'. repeat split; try assumption; reflexivity.
Qed.

Lemma get_data_center (k0 f : R) (ppw : Z) (sd : SimulationData) (mon : FieldMonitor)
    (d : Near2FarData) :
  _get_data_from_monitor k0 f ppw sd mon = Ok d -> data_center d = center mon.
Proof.
  intros H. apply get_data_inv in H.
  destruct H as (_ & fd & wl & u & v & Eu & Ev & Hu & Hv & _ & _ & _ & _ & _ & ->).
  reflexivity.
Qed.

Lemma collect_data_inv (k0 f : R) (ppw : Z) (sd : SimulationData) (mons : list FieldMonitor) :
  forall ds, collect_data k0 f ppw sd mons = Ok ds ->
             Forall2 (fun mon d => _get_data_from_monitor k0 f ppw sd mon = Ok d) mons ds.
Proof.
  induction mons as [|mon rest IH]; cbn [collect_data]; intros ds H.
  - injection H as <-. constructor.
  - apply bind_ok in H. destruct H as (d & Hd & H).
    apply bind_ok in H. destruct H as (ds' & Hds & H).
    injection H as <-. constructor; auto.
Qed.

Lemma collect_data_ok (k0 f : R) (ppw : Z) (sd : SimulationData) (mons : list FieldMonitor) :
  forall ds, Forall2 (fun mon d => _get_data_from_monitor k0 f ppw sd mon = Ok d) mons ds ->
             collect_data k0 f ppw sd mons = Ok ds.
Proof.
  induction 1 as [|mon d rest ds Hd _ IH]; cbn [collect_data]; [reflexivity|].
  rewrite Hd. cbn [bind]. rewrite IH. reflexivity.
Qed.

Lemma collect_data_accepted (k0 f : R) (ppw : Z) (sd : SimulationData)
    (mons : list FieldMonitor) :
  Forall (fun mon => exists d, _get_data_from_monitor k0 f ppw sd mon = Ok d) mons ->
  exists ds, collect_data k0 f ppw sd mons = Ok ds /\ List.length ds = List.length mons.
Proof.
  induction 1 as [|mon rest [d Hd] _ (ds & IH & Hl)]; cbn [collect_data].
  - exists []. split; reflexivity.
  - exists (d :: ds). rewrite Hd. cbn [bind]. rewrite IH. cbn. split; congruence.
Qed.

Lemma collect_data_centers (k0 f : R) (ppw : Z) (sd : SimulationData)
    (mons : list FieldMonitor) (ds : list Near2FarData) :
  collect_data k0 f ppw sd mons = Ok ds -> map data_center ds = map center mons.
Proof.
  intros H. apply collect_data_inv in H.
  induction H as [|mon d rest ds' Hd _ IH]; cbn; [reflexivity|].
  rewrite IH. f_equal. eapply get_data_center; eassumption.
Qed.

(** The first monitor that is not accepted decides the outcome of the loop. *)
Lemma collect_data_first_failure (k0 f : R) (ppw : Z) (sd : SimulationData)
    (pre post : list FieldMonitor) (mon : FieldMonitor) (e : exn) :
  Forall (fun m => exists d, _get_data_from_monitor k0 f ppw sd m = Ok d) pre ->
  _get_data_from_monitor k0 f ppw sd mon = Raise e ->
  collect_data k0 f ppw sd (pre ++ mon :: post) = Raise e.
Proof.
  induction 1 as [|m rest [d Hd] _ IH]; intros Hmon; cbn [app collect_data].
  - rewrite Hmon. reflexivity.
  - rewrite Hd. cbn [bind]. rewrite (IH Hmon). reflexivity.
Qed.

Lemma collect_data_not_ok (k0 f : R) (ppw : Z) (sd : SimulationData)
    (mons : list FieldMonitor) (mon : FieldMonitor) :
  In mon mons ->
  (forall d, _get_data_from_monitor k0 f ppw sd mon <> Ok d) ->
  forall ds, collect_data k0 f ppw sd mons <> Ok ds.
Proof.
  intros Hin Hbad ds H. apply collect_data_inv in H.
  induction H as [|m d rest ds' Hd _ IH]; [contradiction|].
  destruct Hin as [->|Hin]; [exact (Hbad d Hd) | exact (IH Hin)].
Qed.

Lemma fold_zip_sum (ds : list Near2FarData) :
  forall acc,
    fold_left (fun o d => zip_sum o (data_center d)) ds acc
    = (item acc Ax0 + fold_right Rplus 0 (map (fun p => item p Ax0) (map data_center ds)),
       item acc Ax1 + fold_right Rplus 0 (map (fun p => item p Ax1) (map data_center ds)),
       item acc Ax2 + fold_right Rplus 0 (map (fun p => item p Ax2) (map data_center ds))).
Proof.
  induction ds as [|d rest IH]; intros [[a b] c]; cbn [fold_left map fold_right item].
  - f_equal; [f_equal|]; ring.
  - rewrite IH. destruct (data_center d) as [[x y] z]. cbn [zip_sum item].
    f_equal; [f_equal|]; ring.
Qed.

Lemma init_spec (sd : SimulationData) (mons : list FieldMonitor) (f : R) (ppw : Z)
    (ds : list Near2FarData) :
  collect_data (2 * PI * f / C_0) f ppw sd mons = Ok ds -> ds <> [] ->
  __init__ sd mons f ppw
  = Ok (mkengine 1 f (2 * PI * f / C_0) ppw ds (mean_point (map data_center ds))).
Proof.
  intros H Hne. unfold __init__. rewrite H. cbn [bind].
  rewrite fold_zip_sum. cbn [item]. unfold py_div.
  destruct ds as [|d rest]; [congruence|]. cbn [List.length Nat.eqb bind].
  unfold mean_point. rewrite length_map. cbn [List.length].
  repeat f_equal; ring.
Qed.

Lemma init_inv (sd : SimulationData) (mons : list FieldMonitor) (f : R) (ppw : Z)
    (e : Near2Far) :
  __init__ sd mons f ppw = Ok e ->
  exists ds, collect_data (2 * PI * f / C_0) f ppw sd mons = Ok ds /\ ds <> [] /\
             e = mkengine 1 f (2 * PI * f / C_0) ppw ds (mean_point (map data_center ds)).
Proof.
  intros H. destruct (collect_data (2 * PI * f / C_0) f ppw sd mons) as [ds| |] eqn:Hc.
  - destruct ds as [|d rest].
    + unfold __init__ in H. rewrite Hc in H. cbn in H. discriminate.
    + exists (d :: rest). split; [reflexivity|]. split; [discriminate|].
      rewrite (init_spec sd mons f ppw (d :: rest) Hc) in H by discriminate.
      injection H as <-. reflexivity.
  - unfold __init__ in H. rewrite Hc in H. discriminate.
  - unfold __init__ in H. rewrite Hc in H. discriminate.
Qed.

(** C10: the constructor called with an empty list of monitors passes the
    loop over the monitors and raises [ZeroDivisionError] when it divides
    the origin by [len(self.data)]; no [SetupError] is raised. *)
Theorem init_empty_zero_division (sd : SimulationData) (f : R) (ppw : Z) :
  collect_data (2 * PI * f / C_0) f ppw sd [] = Ok [] /\
  __init__ sd [] f ppw = Raise ZeroDivisionError.
Proof. split; reflexivity. Qed.

(** ** Rejected monitors *)

(** C5: a monitor whose size does not have exactly two nonzero components
    makes [_get_data_from_monitor] raise the [SetupError] that says it is
    not a surface, whatever the data; the constructor raises this error
    when the monitors listed before it are accepted, and it never returns
    an engine for a list that contains such a monitor. *)
Theorem not_a_surface_rejected (sd : SimulationData) (f : R) (ppw : Z) (mon : FieldMonitor) :
  count_nonzero (size mon) <> 2%nat ->
  (forall k, _get_data_from_monitor k f ppw sd mon = Raise (SetupError (not_a_surface mon))) /\
  (forall pre post,
      Forall (fun m => exists d,
                  _get_data_from_monitor (2 * PI * f / C_0) f ppw sd m = Ok d) pre ->
      __init__ sd (pre ++ mon :: post) f ppw = Raise (SetupError (not_a_surface mon))) /\
  (forall mons e, In mon mons -> __init__ sd mons f ppw <> Ok e).
Proof.
  intros Hc.
  assert (Hget : forall k,
             _get_data_from_monitor k f ppw sd mon = Raise (SetupError (not_a_surface mon))).
  { intros k. unfold _get_data_from_monitor.
    apply Nat.eqb_neq in Hc. rewrite Hc. reflexivity. }
  split; [exact Hget|]. split.
  - intros pre post Hpre. unfold __init__.
    rewrite (collect_data_first_failure _ _ _ _ pre post mon _ Hpre (Hget _)). reflexivity.
  - intros mons e Hin H. apply init_inv in H. destruct H as (ds & Hds & _).
    revert Hds. apply collect_data_not_ok with (mon := mon); [assumption|].
    intros d. rewrite Hget. discriminate.
Qed.

(** ** Missing frequency *)

Lemma lookup_mem {V : Type} (k : string) (d : list (string * V)) (v : V) :
  lookup k d = Some v -> mem k (keys d) = true.
Proof.
  induction d as [|[k' v'] rest IH]; cbn; [discriminate|].
  destruct (String.eqb k k'); [reflexivity|]. intros H. apply IH. assumption.
Qed.

Lemma keys_colocate (fd : FieldData) (a : Axis) (w : R) (u v : vec R) :
  keys (colocate fd a w u v) = keys fd.
Proof. unfold keys, colocate. rewrite map_map. reflexivity. Qed.

Lemma lookup_colocate (fd : FieldData) (a : Axis) (w : R) (u v : vec R) (k : string) :
  lookup k (colocate fd a w u v)
  = match lookup k fd with
    | Some sf =>
        Some (mkda (sf_f sf)
                (fun f => Arr2 (mkmat (len u) (len v)
                   (fun i j => sf_at sf (plane_point a w (vat u i) (vat v j)) f))))
    | None => None
    end.
Proof.
  induction fd as [|[k' sf] rest IH]; cbn; [reflexivity|].
  destruct (String.eqb k k'); [reflexivity | exact IH].
Qed.

Lemma get_sel_colocate (fd : FieldData) (a : Axis) (w : R) (u v : vec R) (k : string) (f : R) :
  get_sel (colocate fd a w u v) k f
  = match lookup k fd with
    | Some sf =>
        if in_dec Req_dec_T f (sf_f sf)
        then Some (Arr2 (mkmat (len u) (len v)
                     (fun i j => sf_at sf (plane_point a w (vat u i) (vat v j)) f)))
        else None
    | None => None
    end.
Proof.
  unfold get_sel. rewrite lookup_colocate.
  destruct (lookup k fd) as [sf|]; reflexivity.
Qed.

Lemma select_fields_none (ds : Dataset) (rf : string * string) (f : R) (k : string) :
  In k ["E" ++ fst rf; "E" ++ snd rf; "H" ++ fst rf; "H" ++ snd rf]%string ->
  get_sel ds k f = None -> select_fields ds rf f = None.
Proof.
  intros Hin Hk. unfold select_fields.
  destruct Hin as [<-|[<-|[<-|[<-|[]]]]]; rewrite ?Hk;
    repeat match goal with
           | |- match ?x with _ => _ end = None => destruct x; try reflexivity
           end;
    congruence.
Qed.

Lemma ceil_nonneg (x : R) : 0 <= x -> (0 <= ceil x)%Z.
Proof.
  intros Hx. unfold ceil. destruct (archimed (- x)) as [_ H].
  assert (Hup : IZR (up (- x)) <= 1) by lra.
  apply le_IZR in Hup. lia.
Qed.

Lemma ceil_unique (x : R) (z : Z) : IZR z - 1 < x <= IZR z -> ceil x = z.
Proof.
  intros [Hlo Hhi]. unfold ceil.
  assert (H : (1 - z)%Z = up (- x)).
  { apply tech_up; rewrite minus_IZR; lra. }
  rewrite <- H. ring.
Qed.

Lemma linspace_ok (start stop : R) (num : Z) :
  (0 <= num)%Z ->
  exists u, linspace start stop num = Ok u /\ len u = Z.to_nat num.
Proof.
  intros H. unfold linspace. destruct (num <? 0)%Z eqn:E.
  - apply Z.ltb_lt in E. lia.
  - eexists. split; reflexivity.
Qed.

Lemma uv_points_ok (ppw : Z) (wavelength : R) (mon : FieldMonitor) (idx : Axis) :
  (0 <= ppw)%Z -> 0 < wavelength -> 0 <= item (size mon) idx ->
  exists u, uv_points_at ppw wavelength mon idx = Ok u.
Proof.
  intros Hp Hw Hs. unfold uv_points_at.
  destruct (linspace_ok (item (center mon) idx - item (size mon) idx / 2)
              (item (center mon) idx + item (size mon) idx / 2)
              (ceil (IZR ppw * item (size mon) idx / wavelength))) as (u & Hu & _).
  - apply ceil_nonneg. apply IZR_le in Hp.
    apply Rmult_le_pos; [nra|]. left. apply Rinv_0_lt_compat. assumption.
  - exists u. exact Hu.
Qed.

Lemma get_data_missing_frequency (k f : R) (ppw : Z) (sd : SimulationData)
    (mon : FieldMonitor) (fd : FieldData) (key : string) (sf : ScalarField) :
  0 < k -> (0 <= ppw)%Z -> well_stored sd mon fd ->
  In key (required_keys (argmin (size mon))) ->
  lookup key fd = Some sf -> ~ In f (sf_f sf) ->
  _get_data_from_monitor k f ppw sd mon = Raise (SetupError (no_frequency f mon)).
Proof.
  intros Hk Hp (Hc & Hsz & Hfd & Hkeys) Hin Hsf Hf.
  pose proof PI_RGT_0 as Hpi.
  unfold _get_data_from_monitor. rewrite Hc, Hfd. cbn [Nat.eqb negb].
  unfold py_truediv. destruct (Req_dec_T k 0) as [E|_]; [lra|]. cbn [bind].
  assert (Hw : 0 < 2 * PI / k) by (apply Rdiv_lt_0_compat; lra).
  destruct (uv_points_ok ppw _ mon (fst (idx_uv (argmin (size mon)))) Hp Hw (Hsz _))
    as [u ->].
  destruct (uv_points_ok ppw _ mon (snd (idx_uv (argmin (size mon)))) Hp Hw (Hsz _))
    as [v ->].
  cbn [bind]. rewrite keys_colocate.
  assert (Hmem : forall k', In k' (required_keys (argmin (size mon))) -> mem k' (keys fd) = true).
  { intros k' Hk'. destruct (Hkeys k' Hk') as [sf' Hsf']. eapply lookup_mem; eassumption. }
  rewrite !Hmem by (unfold required_keys; cbn; auto). cbn [negb orb].
  erewrite select_fields_none; [reflexivity | exact Hin |].
  rewrite get_sel_colocate, Hsf.
  destruct (in_dec Req_dec_T f (sf_f sf)); [contradiction | reflexivity].
Qed.

(** C6: for a surface monitor whose data stores the four tangential field
    components, a requested frequency that one of these components does
    not store makes [_get_data_from_monitor] raise the [SetupError] whose
    message holds the frequency and the monitor's name; the constructor
    raises it when the monitors listed before are accepted, and returns
    no engine for any list that contains the monitor. *)
Theorem missing_frequency_rejected (sd : SimulationData) (f : R) (ppw : Z)
    (mon : FieldMonitor) (fd : FieldData) (key : string) (sf : ScalarField) :
  0 < C_0 -> 0 < f -> (0 <= ppw)%Z -> well_stored sd mon fd ->
  In key (required_keys (argmin (size mon))) ->
  lookup key fd = Some sf -> ~ In f (sf_f sf) ->
  _get_data_from_monitor (2 * PI * f / C_0) f ppw sd mon
  = Raise (SetupError (no_frequency f mon)) /\
  In (Flt f) (no_frequency f mon) /\ In (Str (name mon)) (no_frequency f mon) /\
  (forall pre post,
      Forall (fun m => exists d,
                  _get_data_from_monitor (2 * PI * f / C_0) f ppw sd m = Ok d) pre ->
      __init__ sd (pre ++ mon :: post) f ppw = Raise (SetupError (no_frequency f mon))) /\
  (forall mons e, In mon mons -> __init__ sd mons f ppw <> Ok e).
Proof.
  intros HC Hf Hp Hws Hin Hsf Hmiss. pose proof PI_RGT_0 as Hpi.
  assert (Hk : 0 < 2 * PI * f / C_0) by (apply Rdiv_lt_0_compat; nra).
  pose proof (get_data_missing_frequency _ f ppw sd mon fd key sf Hk Hp Hws Hin Hsf Hmiss)
    as Hget.
  split; [exact Hget|]. split; [cbn; auto|]. split; [cbn; auto 6|]. split.
  - intros pre post Hpre. unfold __init__.
    rewrite (collect_data_first_failure _ _ _ _ pre post mon _ Hpre Hget). reflexivity.
  - intros mons e Hmon H. apply init_inv in H. destruct H as (ds & Hds & _).
    revert Hds. apply collect_data_not_ok with (mon := mon); [assumption|].
    intros d. rewrite Hget. discriminate.
Qed.

(** ** Orientation signs *)

Lemma str_in_dash (s : string) : str_in "-" s = true <-> occurs "-" s.
Proof.
  unfold occurs. induction s as [|c s IH].
  - cbn. split; [discriminate | intros [i H]; destruct i; discriminate].
  - cbn [str_in String.prefix]. destruct (ascii_dec "-" c) as [<-|Hne].
    + replace (String.prefix EmptyString s) with true by (destruct s; reflexivity).
      cbn. split; [intros _; exists 0%nat; reflexivity | reflexivity].
    + cbn [orb]. rewrite IH. split.
      * intros [i Hi]. exists (S i). exact Hi.
      * intros [[|i] Hi]; cbn in Hi; [congruence | exists i; exact Hi].
Qed.

Lemma shape_ascale (s : R) (a : ndarray C) : shape (ascale s a) = shape a.
Proof. destruct a; reflexivity. Qed.

Lemma entry_ascale (s : R) (a : ndarray C) (i j : nat) :
  entry (ascale s a) i j = ($s * entry a i j)%C.
Proof. destruct a; reflexivity. Qed.

Lemma Cmul_flip (s : R) (z : C) : ($(-1 * s) * z = - ($s * z))%C.
Proof. ceq. Qed.

(** C9: for an accepted monitor, every entry of the two J arrays and of
    the two M arrays is the entry of the selected tangential field
    multiplied by the orientation sign of the monitor's axis, and it is
    the negative of this product exactly when the character '-' occurs in
    the monitor's name: when it occurs every entry is negated, when it
    does not no entry is. *)
Theorem sign_flip_iff_dash (k f : R) (ppw : Z) (sd : SimulationData) (mon : FieldMonitor)
    (d : Near2FarData) :
  _get_data_from_monitor k f ppw sd mon = Ok d ->
  exists fd u v Eu Ev Hu Hv,
    lookup (name mon) sd = Some fd /\
    grid_points d = meshgrid u v /\
    select_fields
      (colocate fd (argmin (size mon)) (item (center mon) (argmin (size mon))) u v)
      (required_fields (argmin (size mon))) f = Some (Eu, Ev, Hu, Hv) /\
    let s0 := fst (base_signs (argmin (size mon))) in
    let s1 := snd (base_signs (argmin (size mon))) in
    (shape (fst (J d)) = shape (squeeze Hv) /\ shape (snd (J d)) = shape (squeeze Hu) /\
     shape (fst (M d)) = shape (squeeze Ev) /\ shape (snd (M d)) = shape (squeeze Eu)) /\
    (occurs "-" (name mon) ->
     forall i j,
       entry (fst (J d)) i j = (- ($s0 * entry (squeeze Hv) i j))%C /\
       entry (snd (J d)) i j = (- ($s1 * entry (squeeze Hu) i j))%C /\
       entry (fst (M d)) i j = (- ($s1 * entry (squeeze Ev) i j))%C /\
       entry (snd (M d)) i j = (- ($s0 * entry (squeeze Eu) i j))%C) /\
    (~ occurs "-" (name mon) ->
     forall i j,
       entry (fst (J d)) i j = ($s0 * entry (squeeze Hv) i j)%C /\
       entry (snd (J d)) i j = ($s1 * entry (squeeze Hu) i j)%C /\
       entry (fst (M d)) i j = ($s1 * entry (squeeze Ev) i j)%C /\
       entry (snd (M d)) i j = ($s0 * entry (squeeze Eu) i j)%C).
Proof.
  intros H. apply get_data_inv in H.
  destruct H as (_ & fd & wl & u & v & Eu & Ev & Hu & Hv & Hfd & _ & _ & _ & Hsel & Hd).
  exists fd, u, v, Eu, Ev, Hu, Hv. split; [exact Hfd|].
  cbv zeta in Hd |- *. subst d. cbn [J M grid_points fst snd].
  split; [reflexivity|]. split; [exact Hsel|].
  split; [rewrite !shape_ascale; repeat split; reflexivity|].
  destruct (str_in "-" (name mon)) eqn:Hdash; cbn [fst snd].
  - apply str_in_dash in Hdash. split; [|contradiction].
    intros _ i j. rewrite !entry_ascale, !Cmul_flip. repeat split; reflexivity.
  - split.
    + intros Hocc. apply str_in_dash in Hocc. congruence.
    + intros _ i j. rewrite !entry_ascale. repeat split; reflexivity.
Qed.

(** ** Shapes of the extracted currents *)

Lemma squeeze_regular {T : Type} (m : mat T) :
  rows m <> 1%nat -> cols m <> 1%nat -> squeeze (Arr2 m) = Arr2 m.
Proof.
  intros Hr Hc. cbn [squeeze].
  apply Nat.eqb_neq in Hr, Hc. rewrite Hr, Hc. reflexivity.
Qed.

Lemma select_fields_colocate (fd : FieldData) (a : Axis) (w : R) (u v : vec R)
    (rf : string * string) (f : R) (Eu Ev Hu Hv : ndarray C) :
  select_fields (colocate fd a w u v) rf f = Some (Eu, Ev, Hu, Hv) ->
  exists eu ev hu hv,
    Eu = Arr2 (mkmat (len u) (len v) eu) /\ Ev = Arr2 (mkmat (len u) (len v) ev) /\
    Hu = Arr2 (mkmat (len u) (len v) hu) /\ Hv = Arr2 (mkmat (len u) (len v) hv).
Proof.
  unfold select_fields. rewrite !get_sel_colocate. intros H.
  repeat match type of H with
         | match (match ?x with _ => _ end) with _ => _ end = _ =>
             destruct x; [|discriminate]
         | match (if ?b then _ else _) with _ => _ end = _ =>
             destruct b; [|discriminate]
         end.
  injection H as <- <- <- <-. repeat eexists.
Qed.

(** For an accepted monitor whose collocation grid has a number of points
    different from one along each of its two axes, the two [J] arrays and
    the two [M] arrays have the shape of the grid; the two meshes of the
    grid have this shape too. *)
Lemma currents_have_grid_shape (k f : R) (ppw : Z) (sd : SimulationData)
    (mon : FieldMonitor) (d : Near2FarData) :
  _get_data_from_monitor k f ppw sd mon = Ok d ->
  rows (fst (grid_points d)) <> 1%nat -> cols (fst (grid_points d)) <> 1%nat ->
  shape (fst (J d)) = grid_shape d /\ shape (snd (J d)) = grid_shape d /\
  shape (fst (M d)) = grid_shape d /\ shape (snd (M d)) = grid_shape d /\
  shape (Arr2 (snd (grid_points d))) = grid_shape d.
Proof.
  intros H. apply get_data_inv in H.
  destruct H as (_ & fd & wl & u & v & Eu & Ev & Hu & Hv & _ & _ & _ & _ & Hsel & Hd).
  apply select_fields_colocate in Hsel.
  destruct Hsel as (eu & ev & hu & hv & -> & -> & -> & ->).
  cbv zeta in Hd. subst d. unfold grid_shape. cbn [grid_points J M meshgrid fst snd rows cols].
  intros Hr Hc. rewrite !shape_ascale, !squeeze_regular by assumption.
  repeat split; reflexivity.
Qed.

(** ** Linearity of the queries in the surface currents *)

Lemma Cmul_assoc (a b c : C) : (a * b * c = a * (b * c))%C.
Proof. ceq. Qed.

Lemma Cmul_comm (a b : C) : (a * b = b * a)%C.
Proof. ceq. Qed.

Lemma Cabs_sqr (z : C) : Cabs z ^ 2 = fst z ^ 2 + snd z ^ 2.
Proof. unfold Cabs. apply pow2_sqrt. nra. Qed.

Lemma Csum_ext (n : nat) (g h : nat -> C) :
  (forall i, g i = h i) -> Csum n g = Csum n h.
Proof. intros E. induction n as [|n IH]; cbn; [reflexivity|]. rewrite IH, E. reflexivity. Qed.

Lemma Csum_scale (n : nat) (c : C) (g : nat -> C) :
  Csum n (fun i => (c * g i)%C) = (c * Csum n g)%C.
Proof.
  induction n as [|n IH]; cbn [Csum].
  - ceq.
  - rewrite IH. ceq.
Qed.

Lemma phase_scale (c : C) (e : Near2Far) (theta phi : R) (d : Near2FarData) :
  phase (scale_engine c e) theta phi (scale_data c d) = phase e theta phi d.
Proof. reflexivity. Qed.

Lemma res_rel_bind {A B : Type} (P : A -> A -> Prop) (Q : B -> B -> Prop)
    (m m' : result A) (k k' : A -> result B) :
  res_rel P m m' -> (forall a a', P a a' -> res_rel Q (k a) (k' a')) ->
  res_rel Q (bind m k) (bind m' k').
Proof.
  destruct m, m'; cbn; intros H Hk; try contradiction; auto.
Qed.

Lemma res_rel_refl {A : Type} (P : A -> A -> Prop) (m : result A) :
  (forall a, P a a) -> res_rel P m m.
Proof. destruct m; cbn; auto. Qed.

Lemma res_rel_rmap {A : Type} (g : A -> A) (m m' : result A) :
  res_rel (fun a a' => a' = g a) m m' -> m' = rmap g m.
Proof. destruct m, m'; cbn; intros H; try contradiction; congruence. Qed.

Lemma broadcast_scaled (c : C) (a : ndarray C) (ph : mat C) :
  res_rel (mat_scaled c) (broadcast_mat Cmul (as_mat a) ph)
          (broadcast_mat Cmul (as_mat (cscale c a)) ph).
Proof.
  assert (Hr : rows (as_mat (cscale c a)) = rows (as_mat a)) by (destruct a; reflexivity).
  assert (Hc : cols (as_mat (cscale c a)) = cols (as_mat a)) by (destruct a; reflexivity).
  assert (Hv : forall i j, mat_at (as_mat (cscale c a)) i j = (c * mat_at (as_mat a) i j)%C)
    by (destruct a; reflexivity).
  unfold broadcast_mat. rewrite Hr, Hc.
  destruct (bdim (rows (as_mat a)) (rows ph)) as [n| |]; cbn; auto.
  destruct (bdim (cols (as_mat a)) (cols ph)) as [m| |]; cbn; auto.
  repeat split. intros i j. cbn. rewrite Hv. apply Cmul_assoc.
Qed.

Lemma trapz_mat_scaled (c : C) (y y' : mat C) (x : vec R) :
  mat_scaled c y y' -> res_rel (vec_scaled c) (trapz_mat y x) (trapz_mat y' x).
Proof.
  intros (Hr & Hc & Hv). unfold trapz_mat, broadcast_mat. cbn [rows cols mat_at].
  rewrite Hr, Hc.
  destruct (bdim (len (diff x)) (rows y - 1)) as [n| |]; cbn; auto.
  destruct (bdim 1 (cols y)) as [m| |]; cbn; auto.
  split; [reflexivity|]. intros j. cbn.
  rewrite <- Csum_scale. apply Csum_ext. intros i. rewrite !Hv. ceq.
Qed.

Lemma trapz_vec_scaled (c : C) (t t' : vec C) (x : vec R) :
  vec_scaled c t t' -> res_rel (fun z z' => z' = (c * z)%C) (trapz_vec t x) (trapz_vec t' x).
Proof.
  intros (Hl & Hv). unfold trapz_vec. cbn [len vat]. rewrite Hl.
  destruct (bdim (len (diff x)) (len t - 1)) as [n| |]; cbn; auto.
  rewrite <- Csum_scale. apply Csum_ext. intros i. rewrite !Hv. ceq.
Qed.

Lemma integrate_scale (c : C) (a : ndarray C) (ph : mat C) (gp : mat R * mat R) :
  integrate (cscale c a) ph gp = rmap (Cmul c) (integrate a ph gp).
Proof.
  apply res_rel_rmap. unfold integrate.
  eapply res_rel_bind; [apply broadcast_scaled|]. intros y y' Hy.
  eapply res_rel_bind; [apply res_rel_refl; intros; reflexivity|]. intros x0 ? <-.
  eapply res_rel_bind; [apply trapz_mat_scaled; exact Hy|]. intros t t' Ht.
  eapply res_rel_bind; [apply res_rel_refl; intros; reflexivity|]. intros x1 ? <-.
  apply trapz_vec_scaled. exact Ht.
Qed.

Lemma per_monitor_scale (c : C) (e : Near2Far) (theta phi : R) (d : Near2FarData) :
  _radiation_vectors_per_monitor (scale_engine c e) theta phi (scale_data c d)
  = rmap (scale4 c) (_radiation_vectors_per_monitor e theta phi d).
Proof.
  unfold _radiation_vectors_per_monitor. rewrite phase_scale.
  cbn [scale_data J M grid_points mon_axis fst snd].
  destruct (phase e theta phi d) as [ph| |]; cbn [bind rmap]; try reflexivity.
  rewrite !integrate_scale. unfold rmap.
  destruct (integrate (fst (J d)) ph (grid_points d)) as [J0| |]; cbn [bind]; try reflexivity.
  destruct (integrate (snd (J d)) ph (grid_points d)) as [J1| |]; cbn [bind]; try reflexivity.
  destruct (integrate (fst (M d)) ph (grid_points d)) as [M0| |]; cbn [bind]; try reflexivity.
  destruct (integrate (snd (M d)) ph (grid_points d)) as [M1| |]; cbn [bind]; try reflexivity.
  destruct (mon_axis d); cbn [source_vector scale4 bind]; ceq.
Qed.

Lemma accumulate_scale (c : C) (e : Near2Far) (theta phi : R) (ds : list Near2FarData) :
  forall acc,
    accumulate (scale_engine c e) theta phi (map (scale_data c) ds) (scale4 c acc)
    = rmap (scale4 c) (accumulate e theta phi ds acc).
Proof.
  induction ds as [|d rest IH]; intros acc; cbn [map accumulate]; [reflexivity|].
  rewrite per_monitor_scale. unfold rmap at 1.
  destruct (_radiation_vectors_per_monitor e theta phi d) as [[[[n1 n2] l1] l2]| |];
    cbn [bind]; try reflexivity.
  destruct acc as [[[a1 a2] a3] a4]. cbn [scale4]. rewrite <- IH. cbn [scale4].
  f_equal. ceq.
Qed.

Lemma radiation_vectors_scale (c : C) (e : Near2Far) (theta phi : R) :
  _radiation_vectors (scale_engine c e) theta phi
  = rmap (scale4 c) (_radiation_vectors e theta phi).
Proof.
  unfold _radiation_vectors. rewrite <- accumulate_scale. cbn [scale_engine data scale4].
  f_equal. ceq.
Qed.

Lemma radiation_vectors_nan_scale {A : Type} (g : A -> A) (c : C) (e : Near2Far) :
  radiation_vectors_nan (scale_engine c e) = rmap g (radiation_vectors_nan e).
Proof.
  unfold radiation_vectors_nan. rewrite radiation_vectors_scale.
  destruct (_radiation_vectors e 0 0) as [[[[n1 n2] l1] l2]| |]; reflexivity.
Qed.

Lemma fields_spherical_scale (c : C) (e : Near2Far) (r theta phi : R) :
  fields_spherical (scale_engine c e) r theta phi
  = rmap (fscale c) (fields_spherical e r theta phi).
Proof.
  unfold fields_spherical.
  change (local_sph (scale_engine c e) r theta phi) with (local_sph e r theta phi).
  destruct (local_sph e r theta phi) as [[[r' th'] ph']| |]; cbn [bind rmap];
    try reflexivity; try apply radiation_vectors_nan_scale.
  rewrite radiation_vectors_scale. unfold rmap.
  destruct (_radiation_vectors e th' ph') as [[[[n1 n2] l1] l2]| |];
    cbn [bind scale4]; try reflexivity.
  change (scalar_proj_r (scale_engine c e) r') with (scalar_proj_r e r').
  unfold fscale, vscale. cbn [fst snd]. ceq.
Qed.

Lemma Cabs_scale (c z : C) : Cabs (c * z) ^ 2 = Cmod2 c * Cabs z ^ 2.
Proof. rewrite !Cabs_sqr. unfold Cmod2. csimp. ring. Qed.

(** C3: multiplying every stored [J] and [M] array by the complex constant
    [c] multiplies the two vectors returned by [fields_spherical] by [c]
    and the values returned by [power_spherical] and
    [radar_cross_section] by the squared modulus of [c]; a query that
    fails, fails in the same way on both engines. *)
Theorem queries_scale (c : C) (e : Near2Far) (r theta phi : R) :
  fields_spherical (scale_engine c e) r theta phi
  = rmap (fscale c) (fields_spherical e r theta phi) /\
  power_spherical (scale_engine c e) r theta phi
  = rmap (Rmult (Cmod2 c)) (power_spherical e r theta phi) /\
  radar_cross_section (scale_engine c e) r theta phi
  = rmap (Rmult (Cmod2 c)) (radar_cross_section e r theta phi).
Proof.
  split; [apply fields_spherical_scale|]. split.
  - unfold power_spherical. rewrite fields_spherical_scale. unfold rmap.
    destruct (fields_spherical e r theta phi) as [[[[Er Et] Ep] [[Hr Ht] Hp]]| |];
      cbn [bind fscale vscale fst snd]; try reflexivity.
    f_equal. unfold Cmod2. csimp. ring.
  - unfold radar_cross_section.
    change (local_sph (scale_engine c e) r theta phi) with (local_sph e r theta phi).
    destruct (local_sph e r theta phi) as [[[r' th'] ph']| |]; cbn [bind rmap];
      try reflexivity; try apply radiation_vectors_nan_scale.
    rewrite radiation_vectors_scale. unfold rmap.
    destruct (_radiation_vectors e th' ph') as [[[[n1 n2] l1] l2]| |];
      cbn [bind scale4]; try reflexivity.
    f_equal. cbn [scale_engine k0].
    replace (c * l2 + $ETA_0 * (c * n1))%C with (c * (l2 + $ETA_0 * n1))%C by ceq.
    replace (c * l1 - $ETA_0 * (c * n2))%C with (c * (l1 - $ETA_0 * n2))%C by ceq.
    rewrite !Cabs_scale. ring.
Qed.

(** ** Accepted monitors *)

Lemma select_fields_some (ds : Dataset) (rf : string * string) (f : R) :
  (forall k, In k ["E" ++ fst rf; "E" ++ snd rf; "H" ++ fst rf; "H" ++ snd rf]%string ->
             exists a, get_sel ds k f = Some a) ->
  exists q, select_fields ds rf f = Some q.
Proof.
  intros H. unfold select_fields.
  destruct (H ("E" ++ fst rf)%string) as [Eu ->]; [cbn; auto|].
  destruct (H ("E" ++ snd rf)%string) as [Ev ->]; [cbn; auto|].
  destruct (H ("H" ++ fst rf)%string) as [Hu ->]; [cbn; auto|].
  destruct (H ("H" ++ snd rf)%string) as [Hv ->]; [cbn; auto|].
  eexists; reflexivity.
Qed.

(** A surface monitor whose data stores the four tangential components
    at the requested frequency is accepted. *)
Lemma get_data_accepted (k f : R) (ppw : Z) (sd : SimulationData) (mon : FieldMonitor)
    (fd : FieldData) :
  0 < k -> (0 <= ppw)%Z -> well_stored sd mon fd ->
  (forall key sf, In key (required_keys (argmin (size mon))) ->
                  lookup key fd = Some sf -> In f (sf_f sf)) ->
  exists d, _get_data_from_monitor k f ppw sd mon = Ok d.
Proof.
  intros Hk Hp (Hc & Hsz & Hfd & Hkeys) Hf. pose proof PI_RGT_0 as Hpi.
  unfold _get_data_from_monitor. rewrite Hc, Hfd. cbn [Nat.eqb negb].
  unfold py_truediv. destruct (Req_dec_T k 0) as [E|_]; [lra|]. cbn [bind].
  assert (Hw : 0 < 2 * PI / k) by (apply Rdiv_lt_0_compat; lra).
  destruct (uv_points_ok ppw _ mon (fst (idx_uv (argmin (size mon)))) Hp Hw (Hsz _))
    as [u ->].
  destruct (uv_points_ok ppw _ mon (snd (idx_uv (argmin (size mon)))) Hp Hw (Hsz _))
    as [v ->].
  cbn [bind]. rewrite keys_colocate.
  assert (Hmem : forall k', In k' (required_keys (argmin (size mon))) ->
                            mem k' (keys fd) = true).
  { intros k' Hk'. destruct (Hkeys k' Hk') as [sf' Hsf']. eapply lookup_mem; eassumption. }
  rewrite !Hmem by (unfold required_keys; cbn; auto). cbn [negb orb].
  destruct (select_fields_some
              (colocate fd (argmin (size mon)) (item (center mon) (argmin (size mon))) u v)
              (required_fields (argmin (size mon))) f) as [[[[Eu Ev] Hu] Hv] ->].
  - intros key Hin. rewrite get_sel_colocate.
    destruct (Hkeys key Hin) as [sf Hsf]. rewrite Hsf.
    destruct (in_dec Req_dec_T f (sf_f sf)) as [_|N]; [eexists; reflexivity|].
    exfalso. apply N. eapply Hf; eassumption.
  - eexists; reflexivity.
Qed.

Lemma uv_points_len (ppw : Z) (wavelength : R) (mon : FieldMonitor) (idx : Axis) (u : vec R) :
  uv_points_at ppw wavelength mon idx = Ok u ->
  len u = Z.to_nat (ceil (IZR ppw * item (size mon) idx / wavelength)).
Proof.
  unfold uv_points_at, linspace.
  destruct (_ <? 0)%Z; [discriminate|]. intros H. injection H as <-. reflexivity.
Qed.

(** The shape of the grid and the shapes of the squeezed currents of an
    accepted monitor, from the numbers of points on its two axes. *)
Lemma get_data_shapes (k f : R) (ppw : Z) (sd : SimulationData) (mon : FieldMonitor)
    (d : Near2FarData) :
  _get_data_from_monitor k f ppw sd mon = Ok d ->
  let n idx := Z.to_nat (ceil (IZR ppw * item (size mon) idx / (2 * PI / k))) in
  let nu := n (fst (idx_uv (argmin (size mon)))) in
  let nv := n (snd (idx_uv (argmin (size mon)))) in
  let squeezed := filter (fun a => negb (a =? 1)%nat) [nu; nv] in
  grid_shape d = [nu; nv] /\
  shape (Arr2 (snd (grid_points d))) = [nu; nv] /\
  shape (fst (J d)) = squeezed /\ shape (snd (J d)) = squeezed /\
  shape (fst (M d)) = squeezed /\ shape (snd (M d)) = squeezed.
Proof.
  intros H. apply get_data_inv in H.
  destruct H as (_ & fd & wl & u & v & Eu & Ev & Hu & Hv & _ & Hwl & Hlu & Hlv & Hsel & Hd).
  apply select_fields_colocate in Hsel.
  destruct Hsel as (eu & ev & hu & hv & -> & -> & -> & ->).
  unfold py_truediv in Hwl. destruct (Req_dec_T k 0); [discriminate|]. injection Hwl as <-.
  apply uv_points_len in Hlu, Hlv. cbv zeta in Hd |- *. subst d.
  unfold grid_shape. cbn [grid_points J M meshgrid fst snd rows cols shape].
  rewrite !shape_ascale, <- Hlu, <- Hlv. cbn [squeeze rows cols filter].
  destruct (len u =? 1)%nat, (len v =? 1)%nat; cbn [negb shape len rows cols];
    repeat split; reflexivity.
Qed.

(** ** Queries on regular data *)

Lemma bdim_same (n : nat) : bdim n n = Ok n.
Proof. unfold bdim. rewrite Nat.eqb_refl. reflexivity. Qed.

Lemma bdim_one_l (m : nat) : bdim 1 m = Ok m.
Proof. unfold bdim. destruct (1 =? m)%nat eqn:E; [apply Nat.eqb_eq in E; subst|]; reflexivity. Qed.

Lemma broadcast_mat_same {A B X : Type} (f : A -> B -> X) (a : mat A) (b : mat B) :
  rows a = rows b -> cols a = cols b ->
  exists p, broadcast_mat f a b = Ok p /\ rows p = rows b /\ cols p = cols b.
Proof.
  intros Hr Hc. unfold broadcast_mat. rewrite Hr, Hc, !bdim_same. cbn [bind].
  eexists. repeat split.
Qed.

Lemma phase_ok (e : Near2Far) (theta phi : R) (d : Near2FarData) :
  rows (fst (grid_points d)) = rows (snd (grid_points d)) ->
  cols (fst (grid_points d)) = cols (snd (grid_points d)) ->
  exists ph, phase e theta phi d = Ok ph /\
             rows ph = rows (snd (grid_points d)) /\ cols ph = cols (snd (grid_points d)).
Proof.
  intros Hr Hc. unfold phase.
  destruct (mon_axis d);
    match goal with
    | |- context [broadcast_mat ?f ?a ?b] =>
        destruct (broadcast_mat_same f a b) as (p & -> & Hpr & Hpc);
        [exact Hr | exact Hc |]
    end;
    cbn [bind]; eexists; (split; [reflexivity|]); split; assumption.
Qed.

Lemma integrate_ok (j : mat C) (ph : mat C) (gp : mat R * mat R) :
  (1 <= rows ph)%nat -> (1 <= cols ph)%nat ->
  rows j = rows ph -> cols j = cols ph ->
  rows (fst gp) = rows ph -> cols (fst gp) = cols ph ->
  rows (snd gp) = rows ph -> cols (snd gp) = cols ph ->
  exists z, integrate (Arr2 j) ph gp = Ok z.
Proof.
  intros Hn Hm Hjr Hjc H0r H0c H1r H1c. unfold integrate. cbn [as_mat].
  destruct (broadcast_mat_same Cmul j ph Hjr Hjc) as (y & -> & Hyr & Hyc). cbn [bind].
  unfold col0. destruct (cols (fst gp) =? 0)%nat eqn:E; [apply Nat.eqb_eq in E; lia|].
  cbn [bind]. unfold trapz_mat, broadcast_mat. cbn [rows cols len diff].
  rewrite H0r, Hyr, bdim_same. cbn [bind]. rewrite bdim_one_l. cbn [bind].
  unfold row0. destruct (rows (snd gp) =? 0)%nat eqn:E'; [apply Nat.eqb_eq in E'; lia|].
  cbn [bind]. unfold trapz_vec. cbn [len diff]. rewrite H1c, Hyc, bdim_same. cbn [bind].
  eexists; reflexivity.
Qed.

Lemma per_monitor_ok (e : Near2Far) (theta phi : R) (d : Near2FarData) :
  regular_data d -> exists v, _radiation_vectors_per_monitor e theta phi d = Ok v.
Proof.
  intros (n & m & j0 & j1 & m0 & m1 & Hn & Hm & H0r & H0c & H1r & H1c & HJ & HM
          & Hj0r & Hj0c & Hj1r & Hj1c & Hm0r & Hm0c & Hm1r & Hm1c).
  unfold _radiation_vectors_per_monitor.
  destruct (phase_ok e theta phi d) as (ph & -> & Hpr & Hpc); try congruence.
  cbn [bind]. rewrite HJ, HM. cbn [fst snd].
  assert (Hi : forall j, rows j = n -> cols j = m ->
                         exists z, integrate (Arr2 j) ph (grid_points d) = Ok z).
  { intros j Hr Hc. apply integrate_ok; congruence || lia. }
  destruct (Hi j0 Hj0r Hj0c) as [z0 ->]. destruct (Hi j1 Hj1r Hj1c) as [z1 ->].
  destruct (Hi m0 Hm0r Hm0c) as [z2 ->]. destruct (Hi m1 Hm1r Hm1c) as [z3 ->].
  cbn [bind].
  destruct (source_vector (mon_axis d) z0 z1) as [[Jx Jy] Jz].
  destruct (source_vector (mon_axis d) z2 z3) as [[Mx My] Mz].
  eexists; reflexivity.
Qed.

Lemma accumulate_ok (e : Near2Far) (theta phi : R) (ds : list Near2FarData) :
  Forall regular_data ds -> forall acc, exists v, accumulate e theta phi ds acc = Ok v.
Proof.
  induction 1 as [|d rest Hd _ IH]; intros acc; cbn [accumulate].
  - eexists; reflexivity.
  - destruct (per_monitor_ok e theta phi d Hd) as [[[[a b] c] d'] ->]. cbn [bind].
    destruct acc as [[[a1 a2] a3] a4]. apply IH.
Qed.

Lemma radiation_vectors_ok (e : Near2Far) (theta phi : R) :
  Forall regular_data (data e) -> exists v, _radiation_vectors e theta phi = Ok v.
Proof. intros H. apply accumulate_ok. assumption. Qed.

Lemma radiation_vectors_nan_not_ok {A : Type} (e : Near2Far) (a : A) :
  radiation_vectors_nan e <> Ok a.
Proof.
  unfold radiation_vectors_nan. destruct (_radiation_vectors e 0 0); discriminate.
Qed.

Lemma radiation_vectors_nan_regular {A : Type} (e : Near2Far) :
  Forall regular_data (data e) -> @radiation_vectors_nan A e = NotFinite.
Proof.
  intros H. unfold radiation_vectors_nan.
  destruct (radiation_vectors_ok e 0 0 H) as [v ->]. reflexivity.
Qed.

Lemma norm_zero (x y z : R) : sqrt (x ^ 2 + y ^ 2 + z ^ 2) = 0 -> x = 0 /\ y = 0 /\ z = 0.
Proof.
  intros H. apply sqrt_eq_0 in H; [|nra].
  repeat split; nra.
Qed.

(** An observation point that is not the origin has local spherical
    coordinates, with a positive radius. *)
Lemma local_sph_ok (e : Near2Far) (r theta phi : R) :
  _sph_2_car r theta phi <> origin e ->
  exists r' theta' phi', local_sph e r theta phi = Ok (r', theta', phi') /\ 0 < r'.
Proof.
  intros Hne. unfold local_sph.
  destruct (_sph_2_car r theta phi) as [[x y] z]. destruct (origin e) as [[ox oy] oz].
  unfold _car_2_sph, np_div.
  destruct (Req_dec_T (sqrt ((x - ox) ^ 2 + (y - oy) ^ 2 + (z - oz) ^ 2)) 0) as [E|N].
  - exfalso. apply norm_zero in E. destruct E as (Hx & Hy & Hz).
    apply Hne. repeat f_equal; lra.
  - cbn [bind]. do 3 eexists. split; [reflexivity|].
    pose proof (sqrt_pos ((x - ox) ^ 2 + (y - oy) ^ 2 + (z - oz) ^ 2)). lra.
Qed.

(** At the origin itself the local coordinates are not finite. *)
Lemma local_sph_origin (e : Near2Far) (r theta phi : R) :
  _sph_2_car r theta phi = origin e -> local_sph e r theta phi = NotFinite.
Proof.
  intros Heq. unfold local_sph. rewrite Heq. destruct (origin e) as [[ox oy] oz].
  unfold _car_2_sph, np_div.
  replace ((ox - ox) ^ 2 + (oy - oy) ^ 2 + (oz - oz) ^ 2) with 0 by ring.
  rewrite sqrt_0. destruct (Req_dec_T 0 0) as [_|N]; [reflexivity | congruence].
Qed.

(** ** Far fields, power and radar cross section *)

Lemma fields_spherical_eq (e : Near2Far) (r theta phi r' theta' phi' : R)
    (N_theta N_phi L_theta L_phi : C) :
  local_sph e r theta phi = Ok (r', theta', phi') ->
  _radiation_vectors e theta' phi' = Ok (N_theta, N_phi, L_theta, L_phi) ->
  let scalar :=
    (($(- spacetime_sign e) * Ci * $(k0 e)
      * Cexp ($(spacetime_sign e) * Ci * $(k0 e) * $r')) /. (4 * PI * r'))%C in
  let E_theta := (- scalar * (L_phi + $ETA_0 * N_theta))%C in
  let E_phi := (scalar * (L_theta - $ETA_0 * N_phi))%C in
  fields_spherical e r theta phi
  = Ok (($0, E_theta, E_phi), ($0, (- E_phi) /. ETA_0, E_theta /. ETA_0))%C.
Proof.
  intros Hl Hv. unfold fields_spherical. rewrite Hl. cbn [bind]. rewrite Hv. reflexivity.
Qed.

(** C1 (amended): for an engine with regular data and an observation
    point (r, theta, phi) that is not the origin, [fields_spherical]
    re-references the point to the origin, which gives the local
    coordinates (r', theta', phi') with r' > 0, computes the radiation
    vectors at (theta', phi') and returns E and H with
    E_theta = -scalar (L_phi + eta0 N_theta),
    E_phi = scalar (L_theta - eta0 N_phi), E_r = 0,
    H_theta = -E_phi / eta0, H_phi = E_theta / eta0, H_r = 0, where
    scalar = -sign j k0 exp(sign j k0 r') / (4 pi r') is taken at the
    local radius r'. *)
Theorem fields_spherical_formula (e : Near2Far) (r theta phi : R) :
  Forall regular_data (data e) -> _sph_2_car r theta phi <> origin e ->
  exists r' theta' phi' N_theta N_phi L_theta L_phi,
    (let '(x, y, z) := _sph_2_car r theta phi in
     let '(ox, oy, oz) := origin e in
     _car_2_sph (x - ox) (y - oy) (z - oz)) = Ok (r', theta', phi') /\
    0 < r' /\
    _radiation_vectors e theta' phi' = Ok (N_theta, N_phi, L_theta, L_phi) /\
    let scalar :=
      (($(- spacetime_sign e) * Ci * $(k0 e)
        * Cexp ($(spacetime_sign e) * Ci * $(k0 e) * $r')) /. (4 * PI * r'))%C in
    let E_theta := (- scalar * (L_phi + $ETA_0 * N_theta))%C in
    let E_phi := (scalar * (L_theta - $ETA_0 * N_phi))%C in
    fields_spherical e r theta phi
    = Ok (($0, E_theta, E_phi), ($0, (- E_phi) /. ETA_0, E_theta /. ETA_0))%C.
Proof.
  intros Hreg Hne.
  destruct (local_sph_ok e r theta phi Hne) as (r' & th' & ph' & Hl & Hr').
  destruct (radiation_vectors_ok e th' ph' Hreg) as [[[[n1 n2] l1] l2] Hv].
  exists r', th', ph', n1, n2, l1, l2.
  split; [|split; [exact Hr'|split; [exact Hv|]]].
  - unfold local_sph in Hl. destruct (_sph_2_car r theta phi) as [[x y] z].
    destruct (origin e) as [[ox oy] oz]. exact Hl.
  - exact (fields_spherical_eq e r theta phi r' th' ph' n1 n2 l1 l2 Hl Hv).
Qed.

Lemma power_form (a b : C) (eta : R) :
  0 < eta ->
  0 <= 0.5 * Cre (a * Cconj (a /. eta)) + 0.5 * Cre (- b * Cconj ((- b) /. eta)).
Proof.
  intros He. csimp. unfold Rdiv.
  assert (Hi : 0 < / eta) by (apply Rinv_0_lt_compat; assumption).
  pose proof (Rmult_le_pos _ _ (Rle_0_sqr (fst a)) (Rlt_le _ _ Hi)) as H1.
  pose proof (Rmult_le_pos _ _ (Rle_0_sqr (snd a)) (Rlt_le _ _ Hi)) as H2.
  pose proof (Rmult_le_pos _ _ (Rle_0_sqr (fst b)) (Rlt_le _ _ Hi)) as H3.
  pose proof (Rmult_le_pos _ _ (Rle_0_sqr (snd b)) (Rlt_le _ _ Hi)) as H4.
  unfold Rsqr in *. lra.
Qed.

Lemma fields_spherical_inv (e : Near2Far) (r theta phi : R) (E H : C * C * C) :
  fields_spherical e r theta phi = Ok (E, H) ->
  exists a b, E = (RtoC 0, a, b) /\ H = (RtoC 0, (- b) /. ETA_0, a /. ETA_0)%C.
Proof.
  unfold fields_spherical. intros Hf.
  destruct (local_sph e r theta phi) as [[[r' th'] ph']|x|];
    [|discriminate | exfalso; exact (radiation_vectors_nan_not_ok _ _ Hf)].
  apply bind_ok in Hf. destruct Hf as ([[[n1 n2] l1] l2] & _ & Hf).
  injection Hf as <- <-. do 2 eexists. split; reflexivity.
Qed.

Lemma power_nonneg (e : Near2Far) (r theta phi p : R) :
  0 < ETA_0 -> power_spherical e r theta phi = Ok p -> 0 <= p.
Proof.
  intros He H. unfold power_spherical in H.
  apply bind_ok in H. destruct H as ([E Hh] & Hf & H).
  apply fields_spherical_inv in Hf. destruct Hf as (a & b & -> & ->).
  injection H as <-. apply power_form. assumption.
Qed.

Lemma rcs_nonneg (e : Near2Far) (r theta phi v : R) :
  0 < ETA_0 -> radar_cross_section e r theta phi = Ok v -> 0 <= v.
Proof.
  intros He H. unfold radar_cross_section in H. pose proof PI_RGT_0 as Hpi.
  destruct (local_sph e r theta phi) as [[[r' th'] ph']|x|];
    [|discriminate | exfalso; exact (radiation_vectors_nan_not_ok _ _ H)].
  destruct (_radiation_vectors e th' ph') as [[[[n1 n2] l1] l2]| |];
    cbn [bind] in H; try discriminate.
  injection H as <-. apply Rmult_le_pos.
  - apply Rmult_le_pos; [apply pow2_ge_0|]. left. apply Rinv_0_lt_compat. nra.
  - apply Rplus_le_le_0_compat; apply pow2_ge_0.
Qed.

(** C2 (amended): for an engine with regular data and an observation
    point that is not the origin, [radar_cross_section] and
    [power_spherical] return non-negative real numbers; whenever they
    return a value, on any engine, it is non-negative. *)
Theorem rcs_power_nonneg (e : Near2Far) (r theta phi : R) :
  0 < ETA_0 -> Forall regular_data (data e) -> _sph_2_car r theta phi <> origin e ->
  (exists v, radar_cross_section e r theta phi = Ok v /\ 0 <= v) /\
  (exists p, power_spherical e r theta phi = Ok p /\ 0 <= p).
Proof.
  intros He Hreg Hne.
  destruct (local_sph_ok e r theta phi Hne) as (r' & th' & ph' & Hl & Hr').
  destruct (radiation_vectors_ok e th' ph' Hreg) as [[[[n1 n2] l1] l2] Hv].
  split.
  - assert (Hx : exists v, radar_cross_section e r theta phi = Ok v).
    { unfold radar_cross_section. rewrite Hl. cbn [bind]. rewrite Hv. cbn [bind].
      eexists; reflexivity. }
    destruct Hx as [v Hx]. exists v. split; [exact Hx|]. eapply rcs_nonneg; eassumption.
  - assert (Hx : exists p, power_spherical e r theta phi = Ok p).
    { unfold power_spherical.
      rewrite (fields_spherical_eq e r theta phi r' th' ph' n1 n2 l1 l2 Hl Hv).
      cbn [bind]. eexists; reflexivity. }
    destruct Hx as [p Hx]. exists p. split; [exact Hx|]. eapply power_nonneg; eassumption.
Qed.

(** ** The origin and the order of the monitors *)

Lemma per_monitor_self (e e' : Near2Far) (theta phi : R) (d : Near2FarData) :
  spacetime_sign e' = spacetime_sign e -> k0 e' = k0 e -> origin e' = origin e ->
  _radiation_vectors_per_monitor e' theta phi d = _radiation_vectors_per_monitor e theta phi d.
Proof.
  intros Hs Hk Ho. unfold _radiation_vectors_per_monitor, phase, phase1, phase2.
  rewrite Hs, Hk, Ho. reflexivity.
Qed.

Lemma accumulate_self (e e' : Near2Far) (theta phi : R) (ds : list Near2FarData) :
  spacetime_sign e' = spacetime_sign e -> k0 e' = k0 e -> origin e' = origin e ->
  forall acc, accumulate e' theta phi ds acc = accumulate e theta phi ds acc.
Proof.
  intros Hs Hk Ho. induction ds as [|d rest IH]; intros acc; cbn [accumulate]; [reflexivity|].
  rewrite (per_monitor_self e e' theta phi d Hs Hk Ho).
  destruct (_radiation_vectors_per_monitor e theta phi d) as [[[[a b] c] d']| |];
    cbn [bind]; try reflexivity.
  destruct acc as [[[a1 a2] a3] a4]. apply IH.
Qed.

Lemma accumulate_perm (e : Near2Far) (theta phi : R) (ds ds' : list Near2FarData) :
  Permutation ds ds' ->
  forall acc v, accumulate e theta phi ds acc = Ok v -> accumulate e theta phi ds' acc = Ok v.
Proof.
  induction 1 as [|x l l' _ IH|x y l|l l' l'' _ IH1 _ IH2]; intros acc v H.
  - exact H.
  - cbn [accumulate] in H |- *.
    apply bind_ok in H. destruct H as ([[[a b] c] d'] & -> & H). cbn [bind].
    destruct acc as [[[a1 a2] a3] a4]. apply IH. exact H.
  - cbn [accumulate] in H |- *.
    apply bind_ok in H. destruct H as ([[[a b] c] d'] & Hy & H).
    destruct acc as [[[a1 a2] a3] a4].
    apply bind_ok in H. destruct H as ([[[a' b'] c'] d''] & Hx & H).
    rewrite Hx. cbn [bind]. rewrite Hy. cbn [bind]. rewrite <- H.
    f_equal. ceq.
  - apply IH2, IH1. exact H.
Qed.

Lemma sum_perm (l l' : list R) :
  Permutation l l' -> fold_right Rplus 0 l = fold_right Rplus 0 l'.
Proof.
  induction 1 as [|x l l' _ IH|x y l|l l' l'' _ IH1 _ IH2]; cbn [fold_right];
    [reflexivity | rewrite IH; reflexivity | ring | congruence].
Qed.

Lemma mean_point_perm (ps ps' : list point) :
  Permutation ps ps' -> mean_point ps = mean_point ps'.
Proof.
  intros H. unfold mean_point. rewrite (Permutation_length H).
  rewrite (sum_perm _ _ (Permutation_map (fun p => item p Ax0) H)).
  rewrite (sum_perm _ _ (Permutation_map (fun p => item p Ax1) H)).
  rewrite (sum_perm _ _ (Permutation_map (fun p => item p Ax2) H)).
  reflexivity.
Qed.

Lemma collect_data_perm (k f : R) (ppw : Z) (sd : SimulationData)
    (mons mons' : list FieldMonitor) (ds : list Near2FarData) :
  Permutation mons mons' -> collect_data k f ppw sd mons = Ok ds ->
  exists ds', collect_data k f ppw sd mons' = Ok ds' /\ Permutation ds ds'.
Proof.
  intros Hp H. apply collect_data_inv in H.
  destruct (Permutation_Forall2 Hp H) as (ds' & Hperm & Hall).
  exists ds'. split; [apply collect_data_ok; exact Hall | exact Hperm].
Qed.

(** Two engines that differ by the order of their data give the same
    values. *)
Lemma queries_perm (e e' : Near2Far) :
  spacetime_sign e' = spacetime_sign e -> k0 e' = k0 e -> origin e' = origin e ->
  Permutation (data e) (data e') -> same_values e e'.
Proof.
  intros Hs Hk Ho Hp.
  assert (Hrv : forall th ph v, _radiation_vectors e th ph = Ok v ->
                                _radiation_vectors e' th ph = Ok v).
  { intros th ph v H. unfold _radiation_vectors in *.
    rewrite (accumulate_self e e' th ph (data e') Hs Hk Ho).
    eapply accumulate_perm; eassumption. }
  assert (Hl : forall r theta phi, local_sph e' r theta phi = local_sph e r theta phi)
    by (intros; unfold local_sph; rewrite Ho; reflexivity).
  assert (Hsc : forall x, scalar_proj_r e' x = scalar_proj_r e x)
    by (intros x; unfold scalar_proj_r; rewrite Hs, Hk; reflexivity).
  assert (Hf : forall r theta phi v, fields_spherical e r theta phi = Ok v ->
                                     fields_spherical e' r theta phi = Ok v).
  { intros r theta phi v H. unfold fields_spherical in *. rewrite Hl.
    destruct (local_sph e r theta phi) as [[[r' th'] ph']|x|];
      [|discriminate | exfalso; exact (radiation_vectors_nan_not_ok _ _ H)].
    apply bind_ok in H. destruct H as ([[[n1 n2] l1] l2] & Hv & H).
    rewrite (Hrv _ _ _ Hv). cbn [bind]. rewrite Hsc. exact H. }
  assert (Hpw : forall r theta phi v, power_spherical e r theta phi = Ok v ->
                                      power_spherical e' r theta phi = Ok v).
  { intros r theta phi v H. unfold power_spherical in *.
    apply bind_ok in H. destruct H as (eh & Hfe & H). rewrite (Hf _ _ _ _ Hfe). exact H. }
  unfold same_values. repeat split.
  - exact Hf.
  - exact Hpw.
  - intros r theta phi v H. unfold radar_cross_section in *. rewrite Hl.
    destruct (local_sph e r theta phi) as [[[r' th'] ph']|x|];
      [|discriminate | exfalso; exact (radiation_vectors_nan_not_ok _ _ H)].
    apply bind_ok in H. destruct H as ([[[n1 n2] l1] l2] & Hv & H).
    rewrite (Hrv _ _ _ Hv). cbn [bind]. rewrite Hk. exact H.
  - intros x y z v H. unfold fields_cartesian in *. rewrite Ho.
    destruct (origin e) as [[ox oy] oz].
    destruct (_car_2_sph (x - ox) (y - oy) (z - oz)) as [[[r' th'] ph']|x0|];
      [|discriminate | exfalso; exact (radiation_vectors_nan_not_ok _ _ H)].
    apply bind_ok in H. destruct H as (eh & Hfe & H). rewrite (Hf _ _ _ _ Hfe). exact H.
  - intros x y z v H. unfold power_cartesian in *.
    destruct (_car_2_sph x y z) as [[[r' th'] ph']|x0|];
      [|discriminate | exfalso; exact (radiation_vectors_nan_not_ok _ _ H)].
    apply Hpw. exact H.
Qed.

(** C4: for a nonempty list of accepted monitors the constructor returns
    an engine whose origin is the component-wise arithmetic mean of the
    monitors' centers; for the same monitors listed in any other order
    it returns an engine with the same origin, and every value returned
    by one of the five queries of the first engine is returned by the
    second. *)
Theorem origin_is_mean_any_order (sd : SimulationData) (mons : list FieldMonitor)
    (f : R) (ppw : Z) :
  mons <> [] ->
  Forall (fun m => exists d,
              _get_data_from_monitor (2 * PI * f / C_0) f ppw sd m = Ok d) mons ->
  exists e,
    __init__ sd mons f ppw = Ok e /\
    origin e = mean_point (map center mons) /\
    forall mons', Permutation mons mons' ->
      exists e',
        __init__ sd mons' f ppw = Ok e' /\ origin e' = origin e /\ same_values e e'.
Proof.
  intros Hne Hacc.
  destruct (collect_data_accepted _ f ppw sd mons Hacc) as (ds & Hds & Hlen).
  assert (Hds_ne : ds <> []).
  { destruct ds; [destruct mons; [congruence | discriminate] | discriminate]. }
  eexists. split; [apply (init_spec sd mons f ppw ds Hds Hds_ne)|].
  cbn [origin]. split.
  - rewrite (collect_data_centers _ _ _ _ _ _ Hds). reflexivity.
  - intros mons' Hp.
    destruct (collect_data_perm _ f ppw sd mons mons' ds Hp Hds) as (ds' & Hds' & Hperm).
    assert (Hds'_ne : ds' <> []).
    { intros ->. apply Permutation_sym, Permutation_nil in Hperm. congruence. }
    eexists. split; [apply (init_spec sd mons' f ppw ds' Hds' Hds'_ne)|].
    cbn [origin]. split.
    + apply mean_point_perm, Permutation_map, Permutation_sym. exact Hperm.
    + apply queries_perm; cbn [spacetime_sign k0 origin data];
        try reflexivity; [|exact Hperm].
      apply mean_point_perm, Permutation_map, Permutation_sym. exact Hperm.
Qed.

(** An accepted monitor with at least two points along each axis of its
    grid has regular data. *)
Lemma get_data_regular (k f : R) (ppw : Z) (sd : SimulationData) (mon : FieldMonitor)
    (d : Near2FarData) :
  _get_data_from_monitor k f ppw sd mon = Ok d ->
  (2 <= rows (fst (grid_points d)))%nat -> (2 <= cols (fst (grid_points d)))%nat ->
  regular_data d.
Proof.
  intros H. apply get_data_inv in H.
  destruct H as (_ & fd & wl & u & v & Eu & Ev & Hu & Hv & _ & _ & _ & _ & Hsel & Hd).
  apply select_fields_colocate in Hsel.
  destruct Hsel as (eu & ev & hu & hv & -> & -> & -> & ->).
  cbv zeta in Hd. subst d. cbn [grid_points meshgrid fst snd rows cols].
  intros Hr Hc. unfold regular_data. cbn [grid_points J M meshgrid fst snd rows cols].
  assert (Hr1 : (len u =? 1)%nat = false) by (apply Nat.eqb_neq; lia).
  assert (Hc1 : (len v =? 1)%nat = false) by (apply Nat.eqb_neq; lia).
  cbn [squeeze rows cols]. rewrite Hr1, Hc1. cbn [ascale amap].
  exists (len u), (len v). do 4 eexists.
  repeat split; try reflexivity; lia.
Qed.

(** ** Queries on a strip one sample wide *)

Lemma bdim_one_r (n : nat) : bdim n 1 = Ok n.
Proof.
  unfold bdim. destruct (n =? 1)%nat eqn:E; [apply Nat.eqb_eq in E; subst; reflexivity|].
  reflexivity.
Qed.

Lemma bdim_mismatch (a b : nat) : a <> b -> a <> 1%nat -> b <> 1%nat -> bdim a b = Raise ValueError.
Proof.
  intros H1 H2 H3. unfold bdim.
  apply Nat.eqb_neq in H1, H2, H3. rewrite H1, H2, H3. reflexivity.
Qed.

(** A current array sampled on a grid of shape (n, 1) with n >= 3 is
    squeezed to rank one; its product with the phase has the shape (n, n)
    and the second integration fails. *)
Lemma integrate_strip (s : R) (a ph : mat C) (gp : mat R * mat R) (n : nat) :
  (3 <= n)%nat ->
  rows a = n -> cols a = 1%nat -> rows ph = n -> cols ph = 1%nat ->
  rows (fst gp) = n -> cols (fst gp) = 1%nat ->
  rows (snd gp) = n -> cols (snd gp) = 1%nat ->
  integrate (ascale s (squeeze (Arr2 a))) ph gp = Raise ValueError.
Proof.
  intros Hn Har Hac Hpr Hpc H0r H0c H1r H1c.
  cbn [squeeze]. rewrite Har, Hac.
  assert (Hn1 : (n =? 1)%nat = false) by (apply Nat.eqb_neq; lia).
  assert (Hn0 : (n =? 0)%nat = false) by (apply Nat.eqb_neq; lia).
  rewrite Hn1.
  cbn [Nat.eqb ascale amap]. unfold integrate, broadcast_mat.
  cbn [as_mat vmap rows cols len]. rewrite Hpr, Hpc, bdim_one_l, bdim_one_r. cbn [bind].
  unfold col0. rewrite H0c. cbn [Nat.eqb bind].
  unfold trapz_mat, broadcast_mat. cbn [rows cols len diff]. rewrite H0r, bdim_same, bdim_one_l.
  cbn [bind]. unfold row0. rewrite H1r.
  rewrite Hn0.
  cbn [bind]. unfold trapz_vec. cbn [len diff rows cols]. rewrite H1c.
  rewrite bdim_mismatch by lia. reflexivity.
Qed.

Lemma per_monitor_strip (k f : R) (ppw : Z) (sd : SimulationData) (mon : FieldMonitor)
    (d : Near2FarData) (e : Near2Far) (theta phi : R) :
  _get_data_from_monitor k f ppw sd mon = Ok d ->
  (3 <= rows (fst (grid_points d)))%nat -> cols (fst (grid_points d)) = 1%nat ->
  _radiation_vectors_per_monitor e theta phi d = Raise ValueError.
Proof.
  intros H. apply get_data_inv in H.
  destruct H as (_ & fd & wl & u & v & Eu & Ev & Hu & Hv & _ & _ & _ & _ & Hsel & Hd).
  apply select_fields_colocate in Hsel.
  destruct Hsel as (eu & ev & hu & hv & -> & -> & -> & ->).
  cbv zeta in Hd. subst d. cbn [grid_points meshgrid fst snd rows cols]. intros Hr Hc.
  unfold _radiation_vectors_per_monitor.
  match goal with
  | |- context [phase e theta phi ?d] =>
      destruct (phase_ok e theta phi d) as (ph & -> & Hpr & Hpc); [reflexivity.. |]
  end.
  cbn [grid_points meshgrid fst snd rows cols] in Hpr, Hpc. cbn [bind J fst].
  rewrite (integrate_strip _ _ ph _ (len u)); try assumption; try reflexivity; try congruence.
Qed.

End Constants.

(** ** The example engine *)

Lemma truthy_nonzero (x : R) : x <> 0 -> truthy x = true.
Proof. intros H. unfold truthy. destruct (Req_dec_T x 0); [contradiction | reflexivity]. Qed.

Lemma truthy_zero : truthy 0 = false.
Proof. unfold truthy. destruct (Req_dec_T 0 0); [reflexivity | congruence]. Qed.

Lemma ex_argmin : argmin (size ex_mon) = Ax2.
Proof.
  cbn. destruct (Rle_dec 1 1); [|lra]. destruct (Rle_dec 1 0); [lra | reflexivity].
Qed.

Lemma strip_argmin : argmin (size strip_mon) = Ax2.
Proof.
  cbn. destruct (Rle_dec 1 (1 / 4)); [lra|]. destruct (Rle_dec (1 / 4) 0); [lra | reflexivity].
Qed.

Lemma ex_wavelength : 2 * PI / (2 * PI * 1 / 1) = 1.
Proof. pose proof PI_RGT_0. field. lra. Qed.

Lemma ex_well_stored (mon : FieldMonitor) :
  name mon = "m"%string -> argmin (size mon) = Ax2 -> count_nonzero (size mon) = 2%nat ->
  (forall a, 0 <= item (size mon) a) -> well_stored ex_sd mon ex_fd.
Proof.
  intros Hn Ha Hc Hs. unfold well_stored. rewrite Hn, Ha.
  split; [exact Hc|]. split; [exact Hs|]. split; [reflexivity|].
  intros k [<-|[<-|[<-|[<-|[]]]]]; eexists; reflexivity.
Qed.

Lemma ex_frequency_stored (key : string) (sf : ScalarField) :
  lookup key ex_fd = Some sf -> In 1 (sf_f sf).
Proof.
  cbn. repeat (destruct (String.eqb key _); [intros H; injection H as <-; cbn; auto|]).
  discriminate.
Qed.

Lemma ex_count : count_nonzero (size ex_mon) = 2%nat.
Proof.
  cbn. rewrite truthy_zero, (truthy_nonzero 1) by lra. reflexivity.
Qed.

Lemma ex_uv (idx : Axis) : idx <> Ax2 ->
  uv_points_at 2 (2 * PI / (2 * PI * 1 / 1)) ex_mon idx = Ok ex_pts.
Proof.
  intros H. unfold uv_points_at. rewrite ex_wavelength.
  assert (Hs : item (size ex_mon) idx = 1) by (destruct idx; [reflexivity.. | congruence]).
  assert (Hc : item (center ex_mon) idx = 0) by (destruct idx; [reflexivity.. | congruence]).
  rewrite Hs, Hc.
  rewrite (ceil_unique (2 * 1 / 1) 2) by lra.
  reflexivity.
Qed.

Lemma ex_get_data : _get_data_from_monitor (2 * PI * 1 / 1) 1 2 ex_sd ex_mon = Ok ex_data.
Proof.
  unfold _get_data_from_monitor. rewrite ex_count, ex_argmin.
  cbn [Nat.eqb negb name ex_mon lookup ex_sd String.eqb Ascii.eqb Bool.eqb].
  unfold py_truediv. pose proof PI_RGT_0.
  destruct (Req_dec_T (2 * PI * 1 / 1) 0) as [E|_]; [lra|]. cbn [bind idx_uv fst snd].
  rewrite !ex_uv by discriminate. cbn [bind].
  rewrite keys_colocate.
  cbn [mem keys ex_fd map fst existsb required_fields String.eqb Ascii.eqb Bool.eqb
       append negb orb snd].
  unfold select_fields. rewrite !get_sel_colocate.
  cbn [lookup ex_fd required_fields String.eqb Ascii.eqb Bool.eqb append fst snd
       sf_f ex_field].
  destruct (in_dec Req_dec_T 1 [1]) as [_|N]; [|exfalso; apply N; cbn; auto].
  reflexivity.
Qed.

Lemma ex_init : __init__ 1 ex_sd [ex_mon] 1 2 = Ok ex_engine.
Proof.
  apply (init_spec 1 ex_sd [ex_mon] 1 2 [ex_data]); [|discriminate].
  cbn [collect_data]. rewrite ex_get_data. reflexivity.
Qed.

Lemma Cexp_zero (z : C) : z = (0, 0) -> Cexp z = (1, 0).
Proof. intros ->. unfold Cexp. cbn [fst snd]. rewrite exp_0, cos_0, sin_0. f_equal; ring. Qed.

Lemma phase2_sin0 (e : Near2Far) (x c : R) : phase2 e x 0 c = (1, 0).
Proof. unfold phase2. apply Cexp_zero. unfold Cmul, RtoC, Ci; cbn [fst snd]. f_equal; ring. Qed.

Lemma phase1_zero (e : Near2Far) (z c : R) : z = 0 -> phase1 e z c = (1, 0).
Proof.
  intros ->. unfold phase1. apply Cexp_zero. unfold Cmul, RtoC, Ci; cbn [fst snd].
  f_equal; ring.
Qed.

Lemma RtoC_add (a b : R) : ($a + $b = $(a + b))%C.
Proof. ceq. Qed.

Lemma RtoC_sub (a b : R) : ($a - $b = $(a - b))%C.
Proof. ceq. Qed.

Lemma RtoC_mul (a b : R) : ($a * $b = $(a * b))%C.
Proof. ceq. Qed.

Lemma RtoC_neg (a : R) : (- $a = $(- a))%C.
Proof. ceq. Qed.

Lemma RtoC_divr (a x : R) : ($a /. x = $(a / x))%C.
Proof. unfold Cdivr, RtoC; cbn [fst snd]. f_equal. unfold Rdiv. ring. Qed.

Lemma ex_rv : _radiation_vectors ex_engine 0 0 = Ok ($0, $0, $1, $0)%C.
Proof.
  unfold _radiation_vectors.
  cbn [accumulate _radiation_vectors_per_monitor phase integrate broadcast_mat trapz_mat
       trapz_vec col0 row0 bdim bidx diff Csum mmap as_mat squeeze ascale amap ex_data ex_engine
       ex_arr ex_pts meshgrid data grid_points J M mon_axis data_center origin fst snd rows cols
       mat_at len vat bind Nat.eqb Nat.sub source_vector andb Nat.ltb Nat.leb].
  rewrite sin_0, cos_0. rewrite !phase2_sin0.
  rewrite !phase1_zero by (cbn; field).
  cbn [INR]. change (1, 0) with (RtoC 1).
  repeat (rewrite ?RtoC_mul, ?RtoC_add, ?RtoC_sub, ?RtoC_neg, ?RtoC_divr).
  unfold RtoC. split_pairs; try reflexivity; field.
Qed.

Lemma scalar_proj_r_val (e : Near2Far) (r : R) :
  spacetime_sign e = 1 ->
  scalar_proj_r e r
  = (k0 e * sin (k0 e * r) / (4 * PI * r), - (k0 e * cos (k0 e * r)) / (4 * PI * r)).
Proof.
  intros Hs. unfold scalar_proj_r. rewrite Hs.
  assert (Hz : ($1 * Ci * $(k0 e) * $r)%C = (0, k0 e * r)) by (csimp; f_equal; ring).
  rewrite Hz. unfold Cexp. cbn [fst snd]. rewrite exp_0. csimp.
  f_equal; unfold Rdiv; ring.
Qed.

Lemma ex_local : local_sph ex_engine 3 0 0 = Ok (2, 0, 0).
Proof.
  unfold local_sph, _sph_2_car. rewrite sin_0, cos_0.
  cbn [ex_engine origin mean_point List.length map fold_right item INR].
  unfold _car_2_sph.
  replace ((3 * 0 * 1 - (0 + 0) / 1) ^ 2 + (3 * 0 * 0 - (0 + 0) / 1) ^ 2
           + (3 * 1 - (1 + 0) / 1) ^ 2) with (2 * 2) by field.
  rewrite sqrt_square by lra. unfold np_div.
  destruct (Req_dec_T 2 0) as [E|_]; [lra|]. cbn [bind].
  replace ((3 * 1 - (1 + 0) / 1) / 2) with 1 by field. rewrite acos_1.
  unfold arctan2.
  destruct (Rlt_dec 0 (3 * 0 * 1 - (0 + 0) / 1)); [lra|].
  destruct (Rlt_dec (3 * 0 * 1 - (0 + 0) / 1) 0); [lra|].
  destruct (Rlt_dec 0 (3 * 0 * 0 - (0 + 0) / 1)); [lra|].
  destruct (Rlt_dec (3 * 0 * 0 - (0 + 0) / 1) 0); [lra|].
  reflexivity.
Qed.

Lemma ex_scalars_differ :
  scalar_proj_r ex_engine 2 <> scalar_proj_r ex_engine 3.
Proof.
  rewrite !scalar_proj_r_val by reflexivity. cbn [ex_engine k0].
  pose proof PI_RGT_0 as Hpi. intros H. injection H as Hs Hc.
  set (k := 2 * PI * 1 / 1) in *.
  pose proof (sin_cos_sqr (k * 2)) as U2. pose proof (sin_cos_sqr (k * 3)) as U3.
  assert (Hq : forall t r, 0 < r -> k * t / (4 * PI * r) = t / (2 * r))
    by (intros t r Hr; subst k; field; lra).
  assert (Hq' : forall t r, 0 < r -> - (k * t) / (4 * PI * r) = - t / (2 * r))
    by (intros t r Hr; subst k; field; lra).
  rewrite !Hq in Hs by lra. rewrite !Hq' in Hc by lra.
  assert (E1 : 3 * sin (k * 2) = 2 * sin (k * 3)) by lra.
  assert (E2 : 3 * cos (k * 2) = 2 * cos (k * 3)) by lra.
  nra.
Qed.

Lemma ex_regular : Forall regular_data (data ex_engine).
Proof.
  repeat constructor.
  apply (get_data_regular (2 * PI * 1 / 1) 1 2 ex_sd ex_mon ex_data ex_get_data);
    cbn; lia.
Qed.

Lemma ex_point_not_origin : _sph_2_car 3 0 0 <> origin ex_engine.
Proof.
  unfold _sph_2_car. rewrite sin_0, cos_0.
  cbn [ex_engine origin]. unfold mean_point. cbn [List.length map fold_right item INR].
  intros H. injection H as _ _ H. lra.
Qed.

Lemma ex_point_origin : _sph_2_car 1 0 0 = origin ex_engine.
Proof.
  unfold _sph_2_car. rewrite sin_0, cos_0.
  cbn [ex_engine origin]. unfold mean_point. cbn [List.length map fold_right item INR].
  split_pairs; field.
Qed.

Lemma ex_accepted :
  Forall (fun m => exists d, _get_data_from_monitor (2 * PI * 1 / 1) 1 2 ex_sd m = Ok d)
         [ex_mon].
Proof. repeat constructor. exists ex_data. exact ex_get_data. Qed.

Lemma cube_count : count_nonzero (size cube_mon) <> 2%nat.
Proof. cbn. rewrite (truthy_nonzero 1) by lra. discriminate. Qed.

Lemma ex_sizes (a : Axis) : 0 <= item (size ex_mon) a.
Proof. destruct a; cbn; lra. Qed.

Lemma strip_count : count_nonzero (size strip_mon) = 2%nat.
Proof.
  cbn. rewrite truthy_zero, (truthy_nonzero 1), (truthy_nonzero (1 / 4)) by lra. reflexivity.
Qed.

Lemma strip_sizes (a : Axis) : 0 <= item (size strip_mon) a.
Proof. destruct a; cbn; lra. Qed.

Lemma strip3_data :
  exists d, _get_data_from_monitor (2 * PI * 1 / 1) 1 3 ex_sd strip_mon = Ok d /\
            rows (fst (grid_points d)) = 3%nat /\ cols (fst (grid_points d)) = 1%nat.
Proof.
  pose proof PI_RGT_0 as Hpi.
  destruct (get_data_accepted (2 * PI * 1 / 1) 1 3 ex_sd strip_mon ex_fd) as [d Hd].
  - lra.
  - lia.
  - apply ex_well_stored; [reflexivity | exact strip_argmin | exact strip_count
                           | exact strip_sizes].
  - intros key sf _ Hsf. exact (ex_frequency_stored key sf Hsf).
  - exists d. split; [exact Hd|].
    pose proof (get_data_shapes _ _ _ _ _ _ Hd) as Hs. cbv zeta in Hs.
    rewrite strip_argmin, ex_wavelength in Hs.
    cbn [idx_uv fst snd strip_mon size item] in Hs.
    rewrite (ceil_unique (3 * 1 / 1) 3), (ceil_unique (3 * (1 / 4) / 1) 1) in Hs by lra.
    destruct Hs as (Hg & _). unfold grid_shape in Hg. injection Hg as Hr Hc.
    split; [exact Hr | exact Hc].
Qed.

(** The engine built from the strip sampled with three points per
    wavelength: every query of its radiation vectors raises. *)
Lemma strip3_engine :
  exists e, __init__ 1 ex_sd [strip_mon] 1 3 = Ok e /\
            origin e = mean_point [(0, 0, 1)] /\
            forall theta phi, _radiation_vectors e theta phi = Raise ValueError.
Proof.
  destruct strip3_data as (d & Hd & Hr & Hc).
  eexists. split.
  - apply (init_spec 1 ex_sd [strip_mon] 1 3 [d]); [|discriminate].
    cbn [collect_data]. rewrite Hd. reflexivity.
  - cbn [origin map]. rewrite (get_data_center _ _ _ _ _ _ Hd). split; [reflexivity|].
    intros theta phi. unfold _radiation_vectors. cbn [data accumulate].
    rewrite (per_monitor_strip _ _ _ _ _ _ _ theta phi Hd); [reflexivity | lia | exact Hc].
Qed.

Lemma strip3_local (e : Near2Far) :
  origin e = mean_point [(0, 0, 1)] -> exists q, local_sph e 3 0 0 = Ok q.
Proof.
  intros Ho. destruct (local_sph_ok e 3 0 0) as (r' & th' & ph' & H & _).
  - rewrite Ho. unfold _sph_2_car. rewrite sin_0, cos_0.
    unfold mean_point. cbn [List.length map fold_right item INR].
    intros H. injection H as _ _ H. lra.
  - eexists. exact H.
Qed.

Lemma entry_squeeze_00 {T : Type} (m : mat T) :
  entry (squeeze (Arr2 m)) 0 0 = mat_at m 0%nat 0%nat.
Proof.
  unfold entry. cbn [squeeze].
  destruct (rows m =? 1)%nat, (cols m =? 1)%nat; reflexivity.
Qed.

(** The E component along the second in-plane axis selected from the
    example data has the value 1 at every point of every grid. *)
Lemma ex_selected (a : Axis) (w : R) (u v : vec R) (Eu Ev Hu Hv : ndarray C) :
  select_fields (colocate ex_fd a w u v) ("x", "y")%string 1 = Some (Eu, Ev, Hu, Hv) ->
  entry (squeeze Ev) 0 0 = RtoC 1.
Proof.
  unfold select_fields. rewrite !get_sel_colocate.
  cbn [lookup ex_fd String.eqb Ascii.eqb Bool.eqb append fst snd sf_f sf_at ex_field].
  destruct (in_dec Req_dec_T 1 [1]) as [_|N]; [|exfalso; apply N; cbn; auto].
  intros H. injection H as _ <- _ _. apply entry_squeeze_00.
Qed.

Lemma dash_occurs : occurs "-" (name dash_mon).
Proof. exists 1%nat. reflexivity. Qed.

Lemma ex_no_dash : ~ occurs "-" (name ex_mon).
Proof. intros H. apply str_in_dash in H. discriminate. Qed.

Lemma dash_get_data :
  _get_data_from_monitor (2 * PI * 1 / 1) 1 2 dash_sd dash_mon = Ok dash_data.
Proof.
  unfold _get_data_from_monitor.
  change (size dash_mon) with (size ex_mon). change (center dash_mon) with (center ex_mon).
  rewrite ex_count, ex_argmin.
  cbn [Nat.eqb negb name dash_mon lookup dash_sd String.eqb Ascii.eqb Bool.eqb].
  unfold py_truediv. pose proof PI_RGT_0.
  destruct (Req_dec_T (2 * PI * 1 / 1) 0) as [E|_]; [lra|]. cbn [bind idx_uv fst snd].
  assert (Huv : forall idx, uv_points_at 2 (2 * PI / (2 * PI * 1 / 1)) dash_mon idx
                            = uv_points_at 2 (2 * PI / (2 * PI * 1 / 1)) ex_mon idx)
    by reflexivity.
  rewrite !Huv, !ex_uv by discriminate. cbn [bind].
  rewrite keys_colocate.
  cbn [mem keys ex_fd map fst existsb required_fields String.eqb Ascii.eqb Bool.eqb
       append negb orb snd].
  unfold select_fields. rewrite !get_sel_colocate.
  cbn [lookup ex_fd required_fields String.eqb Ascii.eqb Bool.eqb append fst snd
       sf_f ex_field].
  destruct (in_dec Req_dec_T 1 [1]) as [_|N]; [|exfalso; apply N; cbn; auto].
  reflexivity.
Qed.

Lemma pair_well_stored (mon : FieldMonitor) :
  name mon = "m"%string \/ name mon = "n"%string ->
  argmin (size mon) = Ax2 -> count_nonzero (size mon) = 2%nat ->
  (forall a, 0 <= item (size mon) a) -> well_stored pair_sd mon ex_fd.
Proof.
  intros Hn Ha Hc Hs. unfold well_stored. rewrite Ha.
  split; [exact Hc|]. split; [exact Hs|]. split; [destruct Hn as [-> | ->]; reflexivity|].
  intros k [<-|[<-|[<-|[<-|[]]]]]; eexists; reflexivity.
Qed.

Lemma pair_accepted :
  Forall (fun m => exists d, _get_data_from_monitor (2 * PI * 1 / 1) 1 2 pair_sd m = Ok d)
         [ex_mon; mon_n].
Proof.
  pose proof PI_RGT_0 as Hpi.
  assert (Hacc : forall m, well_stored pair_sd m ex_fd ->
             exists d, _get_data_from_monitor (2 * PI * 1 / 1) 1 2 pair_sd m = Ok d).
  { intros m Hws. apply (get_data_accepted _ 1 2 pair_sd m ex_fd); [lra | lia | exact Hws|].
    intros key sf _ Hsf. exact (ex_frequency_stored key sf Hsf). }
  repeat constructor; apply Hacc, pair_well_stored;
    try exact ex_argmin; try exact ex_count; try exact ex_sizes; auto.
Qed.

Lemma pair_mean : mean_point [(0, 0, 1); (2, 0, 3)] = (1, 0, 2).
Proof.
  unfold mean_point. cbn [List.length map fold_right item INR]. split_pairs; field.
Qed.

(** ** Instances of the theorems on the example data *)

Lemma fields_spherical_formula_witness :
  Forall regular_data (data ex_engine) /\ _sph_2_car 3 0 0 <> origin ex_engine /\
  exists E H, fields_spherical 1 ex_engine 3 0 0 = Ok (E, H).
Proof.
  split; [exact ex_regular|]. split; [exact ex_point_not_origin|].
  destruct (fields_spherical_formula 1 ex_engine 3 0 0 ex_regular ex_point_not_origin)
    as (r' & th' & ph' & n1 & n2 & l1 & l2 & _ & _ & _ & H).
  do 2 eexists. exact H.
Defined.

(** C1 as stated fails when the origin is not the point (0, 0, 0): for
    the engine built from a unit square centered at (0, 0, 1), the query
    point r = 3, theta = 0, phi = 0 has the local radius 2, and the
    returned E_phi is not the product of [L_theta - eta0 N_phi] by the
    factor [scalar] taken at the radius 3 of the query.  For the engine
    built from a strip sampled at three points along one axis and one
    point along the other, [fields_spherical] returns nothing: it raises
    [ValueError]. *)
Lemma fields_scalar_at_query_radius_counterexample :
  (__init__ 1 ex_sd [ex_mon] 1 2 = Ok ex_engine /\ 0 < 3 /\
   local_sph ex_engine 3 0 0 = Ok (2, 0, 0) /\
   _radiation_vectors ex_engine 0 0 = Ok ($0, $0, $1, $0)%C /\
   exists E_theta E_phi H,
     fields_spherical 1 ex_engine 3 0 0 = Ok (($0, E_theta, E_phi)%C, H) /\
     let scalar :=
       (($(- spacetime_sign ex_engine) * Ci * $(k0 ex_engine)
         * Cexp ($(spacetime_sign ex_engine) * Ci * $(k0 ex_engine) * $3)) /. (4 * PI * 3))%C in
     E_phi <> (scalar * ($1 - $1 * $0))%C) /\
  (exists e, __init__ 1 ex_sd [strip_mon] 1 3 = Ok e /\
             fields_spherical 1 e 3 0 0 = Raise ValueError).
Proof.
  split.
  - split; [exact ex_init|]. split; [lra|]. split; [exact ex_local|]. split; [exact ex_rv|].
    do 3 eexists. split.
    + exact (fields_spherical_eq 1 ex_engine 3 0 0 2 0 0 _ _ _ _ ex_local ex_rv).
    + cbv zeta. fold (scalar_proj_r ex_engine 2). fold (scalar_proj_r ex_engine 3).
      assert (Hx : ($1 - $1 * $0)%C = (1, 0)) by ceq. rewrite Hx.
      intros H. apply ex_scalars_differ.
      destruct (scalar_proj_r ex_engine 2) as [a b].
      destruct (scalar_proj_r ex_engine 3) as [a' b'].
      csimp. injection H as H1 H2. f_equal; lra.
  - destruct strip3_engine as (e & He & Ho & Hrv). exists e. split; [exact He|].
    destruct (strip3_local e Ho) as [[[r' th'] ph'] Hl].
    unfold fields_spherical. rewrite Hl. cbn [bind]. rewrite Hrv. reflexivity.
Qed.

Lemma rcs_power_nonneg_witness :
  0 < 1 /\ Forall regular_data (data ex_engine) /\ _sph_2_car 3 0 0 <> origin ex_engine /\
  (exists v, radar_cross_section 1 ex_engine 3 0 0 = Ok v /\ 0 <= v) /\
  (exists p, power_spherical 1 ex_engine 3 0 0 = Ok p /\ 0 <= p).
Proof.
  split; [lra|]. split; [exact ex_regular|]. split; [exact ex_point_not_origin|].
  apply (rcs_power_nonneg 1 ex_engine 3 0 0); [lra | exact ex_regular | exact ex_point_not_origin].
Defined.

(** C2 as stated fails at the observation point that is the origin: for
    the engine built from a unit square centered at (0, 0, 1), the point
    r = 1, theta = 0, phi = 0 has r > 0 and is the origin; the local polar
    angle is 0/0 and neither query returns a real number.  It also fails
    for the engine built from a strip sampled at three points along one
    axis and one point along the other: both queries raise [ValueError]. *)
Lemma rcs_power_at_origin_counterexample :
  (__init__ 1 ex_sd [ex_mon] 1 2 = Ok ex_engine /\ 0 < 1 /\
   radar_cross_section 1 ex_engine 1 0 0 = NotFinite /\
   power_spherical 1 ex_engine 1 0 0 = NotFinite) /\
  (exists e, __init__ 1 ex_sd [strip_mon] 1 3 = Ok e /\ 0 < 3 /\
             radar_cross_section 1 e 3 0 0 = Raise ValueError /\
             power_spherical 1 e 3 0 0 = Raise ValueError).
Proof.
  split.
  - split; [exact ex_init|]. split; [lra|].
    pose proof (local_sph_origin ex_engine 1 0 0 ex_point_origin) as Hl.
    unfold radar_cross_section, power_spherical, fields_spherical. rewrite Hl.
    split; reflexivity.
  - destruct strip3_engine as (e & He & Ho & Hrv). exists e.
    split; [exact He|]. split; [lra|].
    destruct (strip3_local e Ho) as [[[r' th'] ph'] Hl].
    unfold radar_cross_section, power_spherical, fields_spherical. rewrite Hl.
    cbn [bind]. rewrite Hrv. split; reflexivity.
Qed.

Lemma origin_is_mean_any_order_witness :
  [ex_mon; mon_n] <> [] /\ Permutation [ex_mon; mon_n] [mon_n; ex_mon] /\
  exists e e',
    __init__ 1 pair_sd [ex_mon; mon_n] 1 2 = Ok e /\
    origin e = mean_point [(0, 0, 1); (2, 0, 3)] /\
    mean_point [(0, 0, 1); (2, 0, 3)] = (1, 0, 2) /\
    __init__ 1 pair_sd [mon_n; ex_mon] 1 2 = Ok e' /\
    origin e' = origin e /\ same_values 1 e e'.
Proof.
  assert (Hne : [ex_mon; mon_n] <> []) by discriminate.
  assert (Hp : Permutation [ex_mon; mon_n] [mon_n; ex_mon]) by apply perm_swap.
  split; [exact Hne|]. split; [exact Hp|].
  destruct (origin_is_mean_any_order 1 1 pair_sd [ex_mon; mon_n] 1 2 Hne pair_accepted)
    as (e & He & Ho & Hany).
  destruct (Hany [mon_n; ex_mon] Hp) as (e' & He' & Ho' & Hsame).
  exists e, e'.
  split; [exact He|]. split; [exact Ho|]. split; [exact pair_mean|].
  split; [exact He'|]. split; [exact Ho' | exact Hsame].
Defined.

Lemma not_a_surface_rejected_witness :
  count_nonzero (size cube_mon) <> 2%nat /\
  __init__ 1 ex_sd [cube_mon] 1 2 = Raise (SetupError (not_a_surface cube_mon)).
Proof.
  split; [exact cube_count|].
  destruct (not_a_surface_rejected 1 ex_sd 1 2 cube_mon cube_count) as (_ & H & _).
  exact (H [] [] (Forall_nil _)).
Defined.

Lemma missing_frequency_rejected_witness :
  well_stored ex_sd ex_mon ex_fd /\ lookup "Ex"%string ex_fd = Some (ex_field (RtoC 0)) /\
  ~ In 2 (sf_f (ex_field (RtoC 0))) /\
  __init__ 1 ex_sd [ex_mon] 2 2 = Raise (SetupError (no_frequency 2 ex_mon)).
Proof.
  assert (Hws : well_stored ex_sd ex_mon ex_fd)
    by (apply ex_well_stored; [reflexivity | exact ex_argmin | exact ex_count | exact ex_sizes]).
  assert (Hmiss : ~ In 2 (sf_f (ex_field (RtoC 0)))) by (cbn; intros [H|[]]; lra).
  split; [exact Hws|]. split; [reflexivity|]. split; [exact Hmiss|].
  destruct (missing_frequency_rejected 1 ex_sd 2 2 ex_mon ex_fd "Ex" (ex_field (RtoC 0)))
    as (_ & _ & _ & H & _); try lra; try lia; try assumption.
  - rewrite ex_argmin. cbn. auto.
  - reflexivity.
  - exact (H [] [] (Forall_nil _)).
Defined.

Lemma sign_flip_iff_dash_witness :
  (_get_data_from_monitor (2 * PI * 1 / 1) 1 2 dash_sd dash_mon = Ok dash_data /\
   occurs "-" (name dash_mon) /\ entry (fst (M dash_data)) 0 0 = RtoC (-1)) /\
  (_get_data_from_monitor (2 * PI * 1 / 1) 1 2 ex_sd ex_mon = Ok ex_data /\
   ~ occurs "-" (name ex_mon) /\ entry (fst (M ex_data)) 0 0 = RtoC 1).
Proof.
  split.
  - split; [exact dash_get_data|]. split; [exact dash_occurs|].
    destruct (sign_flip_iff_dash _ 1 2 dash_sd dash_mon dash_data dash_get_data)
      as (fd & u & v & Eu & Ev & Hu & Hv & Hfd & _ & Hsel & _ & Hdash & _).
    change (lookup (name dash_mon) dash_sd) with (Some ex_fd) in Hfd.
    injection Hfd as <-.
    change (size dash_mon) with (size ex_mon) in Hsel, Hdash.
    rewrite ex_argmin in Hsel, Hdash.
    destruct (Hdash dash_occurs 0%nat 0%nat) as (_ & _ & HM & _).
    rewrite (ex_selected _ _ _ _ _ _ _ _ Hsel) in HM. rewrite HM.
    cbn [base_signs snd]. ceq.
  - split; [exact ex_get_data|]. split; [exact ex_no_dash|].
    destruct (sign_flip_iff_dash _ 1 2 ex_sd ex_mon ex_data ex_get_data)
      as (fd & u & v & Eu & Ev & Hu & Hv & Hfd & _ & Hsel & _ & _ & Hno).
    change (lookup (name ex_mon) ex_sd) with (Some ex_fd) in Hfd.
    injection Hfd as <-.
    rewrite ex_argmin in Hsel, Hno.
    destruct (Hno ex_no_dash 0%nat 0%nat) as (_ & _ & HM & _).
    rewrite (ex_selected _ _ _ _ _ _ _ _ Hsel) in HM. rewrite HM.
    cbn [base_signs snd]. ceq.
Defined.

(** C7: the code on a monitor with a single point along one axis of its
    grid.  The strip of size (1, 1/4, 0), sampled with three points per
    wavelength at the wavelength 1, is accepted with a grid of shape
    (3, 1); [np.squeeze] leaves its four current arrays with the shape
    (3,), which is not the shape of the grid, and every query of the
    radiation vectors of an engine that starts with this data raises
    [ValueError]. *)
Theorem strip_currents_lose_axis :
  exists d,
    _get_data_from_monitor (2 * PI * 1 / 1) 1 3 ex_sd strip_mon = Ok d /\
    grid_shape d = [3; 1]%nat /\
    shape (fst (J d)) = [3]%nat /\ shape (snd (J d)) = [3]%nat /\
    shape (fst (M d)) = [3]%nat /\ shape (snd (M d)) = [3]%nat /\
    forall e rest theta phi,
      data e = d :: rest -> _radiation_vectors e theta phi = Raise ValueError.
Proof.
  pose proof PI_RGT_0 as Hpi.
  destruct (get_data_accepted (2 * PI * 1 / 1) 1 3 ex_sd strip_mon ex_fd) as [d Hd].
  - lra.
  - lia.
  - apply ex_well_stored; [reflexivity | exact strip_argmin | exact strip_count
                           | exact strip_sizes].
  - intros key sf _ Hsf. exact (ex_frequency_stored key sf Hsf).
  - exists d. split; [exact Hd|].
    pose proof (get_data_shapes _ _ _ _ _ _ Hd) as Hs. cbv zeta in Hs.
    rewrite strip_argmin, ex_wavelength in Hs.
    cbn [idx_uv fst snd strip_mon size item] in Hs.
    rewrite (ceil_unique (3 * 1 / 1) 3), (ceil_unique (3 * (1 / 4) / 1) 1) in Hs by lra.
    cbn in Hs. destruct Hs as (Hg & _ & HJ0 & HJ1 & HM0 & HM1).
    split; [exact Hg|]. split; [exact HJ0|]. split; [exact HJ1|].
    split; [exact HM0|]. split; [exact HM1|].
    intros e rest theta phi He. unfold _radiation_vectors. rewrite He. cbn [accumulate].
    unfold grid_shape in Hg. injection Hg as Hr Hc.
    rewrite (per_monitor_strip _ _ _ _ _ _ e theta phi Hd); [reflexivity | lia | exact Hc].
Qed.

(** * Further properties of the code *)

(** ** More on the coordinate transformations *)

Lemma sqrt_one_plus_sqr (x y : R) :
  x <> 0 -> sqrt (1 + (y / x)²) = sqrt (x ^ 2 + y ^ 2) / Rabs x.
Proof.
  intros Hx.
  replace (1 + (y / x)²) with ((x ^ 2 + y ^ 2) / Rsqr x) by (unfold Rsqr; field; exact Hx).
  rewrite sqrt_div; [|nra|unfold Rsqr; nra].
  rewrite sqrt_Rsqr_abs. reflexivity.
Qed.

Lemma atan_cos_sin (x y : R) :
  x <> 0 ->
  cos (atan (y / x)) = Rabs x / sqrt (x ^ 2 + y ^ 2) /\
  sin (atan (y / x)) = (y / x) * Rabs x / sqrt (x ^ 2 + y ^ 2).
Proof.
  intros Hx.
  assert (Hrho : 0 < sqrt (x ^ 2 + y ^ 2)) by (apply sqrt_lt_R0; nra).
  assert (Ha : 0 < Rabs x) by (apply Rabs_pos_lt; exact Hx).
  rewrite cos_atan, sin_atan, sqrt_one_plus_sqr by exact Hx.
  split; field; lra.
Qed.

(** The azimuth returned by [np.arctan2] points along (x, y). *)
Lemma arctan2_cos_sin (x y : R) :
  0 < sqrt (x ^ 2 + y ^ 2) ->
  cos (arctan2 y x) = x / sqrt (x ^ 2 + y ^ 2) /\
  sin (arctan2 y x) = y / sqrt (x ^ 2 + y ^ 2).
Proof.
  intros Hrho. unfold arctan2.
  destruct (Rlt_dec 0 x) as [Hx|Hx].
  - destruct (atan_cos_sin x y) as [Hc Hs]; [lra|].
    rewrite Hc, Hs, Rabs_right by lra. split; field; lra.
  - destruct (Rlt_dec x 0) as [Hx'|Hx'].
    + destruct (atan_cos_sin x y) as [Hc Hs]; [lra|].
      rewrite Rabs_left in Hc, Hs by lra.
      destruct (Rle_dec 0 y).
      * rewrite neg_cos, neg_sin, Hc, Hs. split; field; lra.
      * rewrite cos_shift, sin_shift, Hc, Hs. split; field; lra.
    + assert (E : x = 0) by lra. subst x.
      assert (Hy : sqrt (0 ^ 2 + y ^ 2) = Rabs y).
      { replace (0 ^ 2 + y ^ 2) with (Rsqr y) by (unfold Rsqr; ring). apply sqrt_Rsqr_abs. }
      rewrite Hy in *.
      destruct (Rlt_dec 0 y) as [Hy1|Hy1].
      * rewrite cos_PI2, sin_PI2, Rabs_right by lra. split; field; lra.
      * destruct (Rlt_dec y 0) as [Hy2|Hy2].
        -- rewrite cos_neg, sin_neg, cos_PI2, sin_PI2, Rabs_left by lra. split; field; lra.
        -- assert (y = 0) by lra. subst y. rewrite Rabs_R0 in Hrho. lra.
Qed.

Lemma atan_sign (t : R) : (t <= 0 -> atan t <= 0) /\ (0 < t -> 0 < atan t).
Proof.
  split; intros H.
  - destruct H as [H|H]; [|subst; rewrite atan_0; lra].
    pose proof (atan_increasing _ _ H) as Hi. rewrite atan_0 in Hi. lra.
  - pose proof (atan_increasing _ _ H) as Hi. rewrite atan_0 in Hi. exact Hi.
Qed.

Lemma arctan2_range (x y : R) : - PI < arctan2 y x <= PI.
Proof.
  pose proof PI_RGT_0 as Hpi. unfold arctan2.
  destruct (Rlt_dec 0 x) as [Hx|Hx].
  - pose proof (atan_bound (y / x)). lra.
  - destruct (Rlt_dec x 0) as [Hx'|Hx'].
    + pose proof (atan_bound (y / x)) as Hb. destruct (atan_sign (y / x)) as [Hn Hp].
      assert (Hi : / x < 0) by (apply Rinv_lt_0_compat; exact Hx').
      destruct (Rle_dec 0 y) as [Hy|Hy].
      * assert (y / x <= 0) by (unfold Rdiv; nra). specialize (Hn H). lra.
      * assert (0 < y / x) by (unfold Rdiv; nra). specialize (Hp H). lra.
    + destruct (Rlt_dec 0 y); [lra|]. destruct (Rlt_dec y 0); lra.
Qed.

Lemma norm_pos (x y z : R) : (x, y, z) <> (0, 0, 0) -> 0 < sqrt (x ^ 2 + y ^ 2 + z ^ 2).
Proof.
  intros Hne.
  destruct (Req_dec_T (sqrt (x ^ 2 + y ^ 2 + z ^ 2)) 0) as [E|N].
  - apply norm_zero in E. destruct E as (-> & -> & ->). congruence.
  - pose proof (sqrt_pos (x ^ 2 + y ^ 2 + z ^ 2)). lra.
Qed.

Lemma car_2_sph_zero (a b c : R) :
  a = 0 -> b = 0 -> c = 0 -> _car_2_sph a b c = NotFinite.
Proof.
  intros -> -> ->. unfold _car_2_sph, np_div.
  replace (0 ^ 2 + 0 ^ 2 + 0 ^ 2) with 0 by ring. rewrite sqrt_0.
  destruct (Req_dec_T 0 0) as [_|N]; [reflexivity | congruence].
Qed.

Lemma sph_2_car_of_car (x y z : R) :
  (x, y, z) <> (0, 0, 0) ->
  exists r theta phi,
    _car_2_sph x y z = Ok (r, theta, phi) /\ _sph_2_car r theta phi = (x, y, z).
Proof.
  intros Hne. pose proof (norm_pos x y z Hne) as Hr.
  unfold _car_2_sph, np_div.
  destruct (Req_dec_T (sqrt (x ^ 2 + y ^ 2 + z ^ 2)) 0) as [E|_]; [lra|]. cbn [bind].
  do 3 eexists. split; [reflexivity|].
  set (r := sqrt (x ^ 2 + y ^ 2 + z ^ 2)) in *.
  assert (Hr2 : r * r = x ^ 2 + y ^ 2 + z ^ 2) by (apply sqrt_sqrt; nra).
  assert (Hq : -1 <= z / r <= 1).
  { assert (Hz : z * z <= r * r).
    { rewrite Hr2. pose proof (pow2_ge_0 x). pose proof (pow2_ge_0 y).
      replace (z * z) with (z ^ 2) by ring. lra. }
    assert (Hb : - r <= z <= r) by (split; nra).
    assert (Hi : 0 < / r) by (apply Rinv_0_lt_compat; exact Hr).
    assert (Hri : r * / r = 1) by (field; lra).
    destruct Hb as [Hb1 Hb2].
    pose proof (Rmult_le_compat_r (/ r) _ _ (Rlt_le _ _ Hi) Hb1).
    pose proof (Rmult_le_compat_r (/ r) _ _ (Rlt_le _ _ Hi) Hb2).
    unfold Rdiv. split; lra. }
  assert (Hsin : r * sin (acos (z / r)) = sqrt (x ^ 2 + y ^ 2)).
  { rewrite sin_acos by exact Hq.
    replace (r * sqrt (1 - (z / r)²)) with (sqrt (r * r) * sqrt (1 - (z / r)²))
      by (rewrite sqrt_square by lra; reflexivity).
    rewrite <- sqrt_mult; [|nra|].
    - f_equal.
      replace (r * r * (1 - (z / r)²)) with (r * r - z * z) by (unfold Rsqr; field; lra).
      rewrite Hr2. ring.
    - assert (Hs : (z / r)² <= 1).
      { replace 1 with (Rsqr 1) by (unfold Rsqr; ring).
        apply neg_pos_Rsqr_le; lra. }
      lra. }
  unfold _sph_2_car. rewrite Hsin, cos_acos by exact Hq.
  destruct (Req_dec_T (sqrt (x ^ 2 + y ^ 2)) 0) as [E|N].
  - rewrite E. apply sqrt_eq_0 in E; [|nra].
    assert (x = 0) by nra. assert (y = 0) by nra. subst x y.
    repeat apply f_equal2; try field; lra.
  - assert (Hrho : 0 < sqrt (x ^ 2 + y ^ 2)) by (pose proof (sqrt_pos (x ^ 2 + y ^ 2)); lra).
    destruct (arctan2_cos_sin x y Hrho) as [-> ->].
    repeat apply f_equal2; field; lra.
Qed.

Lemma car_2_sph_of_sph (r theta phi : R) :
  0 < r -> 0 < theta < PI -> - PI < phi <= PI ->
  _car_2_sph (r * sin theta * cos phi) (r * sin theta * sin phi) (r * cos theta)
  = Ok (r, theta, phi).
Proof.
  intros Hr Hth Hphi. unfold _car_2_sph.
  rewrite norm_sph by lra. unfold np_div.
  destruct (Req_dec_T r 0) as [E|_]; [lra|]. cbn [bind].
  replace (r * cos theta / r) with (cos theta) by (field; lra).
  rewrite acos_cos by lra.
  assert (Hs : 0 < sin theta) by (apply sin_gt_0; lra).
  rewrite (arctan2_polar (r * sin theta) phi) by (try nra; assumption).
  reflexivity.
Qed.

(** X1: for every point (x, y, z) other than (0, 0, 0), [_car_2_sph]
    returns spherical coordinates, and [_sph_2_car] applied to them gives
    back exactly (x, y, z). *)
Theorem sph_2_car_car_2_sph (x y z : R) :
  (x, y, z) <> (0, 0, 0) ->
  exists r theta phi,
    _car_2_sph x y z = Ok (r, theta, phi) /\ _sph_2_car r theta phi = (x, y, z).
Proof. apply sph_2_car_of_car. Qed.

Lemma sph_2_car_car_2_sph_witness :
  (1, 0, 0) <> (0, 0, 0) /\
  exists r theta phi,
    _car_2_sph 1 0 0 = Ok (r, theta, phi) /\ _sph_2_car r theta phi = (1, 0, 0).
Proof.
  assert (H : (1, 0, 0) <> (0, 0, 0)) by (intros H; inversion H; lra).
  split; [exact H | exact (sph_2_car_car_2_sph 1 0 0 H)].
Defined.

(** X2: [_car_2_sph] is not finite at the point (0, 0, 0) and nowhere
    else; at every other point it returns the radius
    sqrt(x^2 + y^2 + z^2) > 0, a polar angle in [0, pi] and an azimuth in
    (-pi, pi]. *)
Theorem car_2_sph_outcome (x y z : R) :
  ((x, y, z) = (0, 0, 0) /\ _car_2_sph x y z = NotFinite) \/
  (exists r theta phi,
      _car_2_sph x y z = Ok (r, theta, phi) /\
      r = sqrt (x ^ 2 + y ^ 2 + z ^ 2) /\ 0 < r /\ 0 <= theta <= PI /\ - PI < phi <= PI).
Proof.
  unfold _car_2_sph, np_div.
  destruct (Req_dec_T (sqrt (x ^ 2 + y ^ 2 + z ^ 2)) 0) as [E|N].
  - left. split; [|reflexivity].
    apply norm_zero in E. destruct E as (-> & -> & ->). reflexivity.
  - right. cbn [bind]. do 3 eexists. split; [reflexivity|]. split; [reflexivity|].
    pose proof (sqrt_pos (x ^ 2 + y ^ 2 + z ^ 2)).
    split; [lra|]. split; [apply acos_bound | apply arctan2_range].
Qed.

Lemma rotation_norm (a b c s1 c1 s2 c2 : R) :
  s1 * s1 + c1 * c1 = 1 -> s2 * s2 + c2 * c2 = 1 ->
  (a * s1 * c2 + b * c1 * c2 - c * s2) ^ 2 + (a * s1 * s2 + b * c1 * s2 + c * c2) ^ 2
  + (a * c1 - b * s1) ^ 2 = a ^ 2 + b ^ 2 + c ^ 2.
Proof.
  intros H1 H2.
  replace ((a * s1 * c2 + b * c1 * c2 - c * s2) ^ 2 + (a * s1 * s2 + b * c1 * s2 + c * c2) ^ 2
           + (a * c1 - b * s1) ^ 2)
    with ((a * s1 + b * c1) ^ 2 * (s2 * s2 + c2 * c2) + c ^ 2 * (s2 * s2 + c2 * c2)
          + (a * c1 - b * s1) ^ 2) by ring.
  rewrite H2.
  replace ((a * s1 + b * c1) ^ 2 * 1 + c ^ 2 * 1 + (a * c1 - b * s1) ^ 2)
    with ((a ^ 2 + b ^ 2) * (s1 * s1 + c1 * c1) + c ^ 2) by ring.
  rewrite H1. ring.
Qed.

(** X3: [_sph_2_car_field] keeps the squared norm of a complex vector:
    |Ax|^2 + |Ay|^2 + |Az|^2 = |Ar|^2 + |Atheta|^2 + |Aphi|^2 at every pair
    of angles. *)
Theorem sph_2_car_field_norm (Ar Atheta Aphi : C) (theta phi : R) :
  let '(Ax, Ay, Az) := _sph_2_car_field Ar Atheta Aphi theta phi in
  Cmod2 Ax + Cmod2 Ay + Cmod2 Az = Cmod2 Ar + Cmod2 Atheta + Cmod2 Aphi.
Proof.
  unfold _sph_2_car_field. cbv zeta. unfold Cmod2.
  pose proof (rotation_norm (fst Ar) (fst Atheta) (fst Aphi) _ _ _ _
                (sin_cos_sqr theta) (sin_cos_sqr phi)) as Hre.
  pose proof (rotation_norm (snd Ar) (snd Atheta) (snd Aphi) _ _ _ _
                (sin_cos_sqr theta) (sin_cos_sqr phi)) as Him.
  csimp.
  match goal with
  | |- ?l = _ =>
      replace l with
        (((fst Ar * sin theta * cos phi + fst Atheta * cos theta * cos phi
           - fst Aphi * sin phi) ^ 2
          + (fst Ar * sin theta * sin phi + fst Atheta * cos theta * sin phi
             + fst Aphi * cos phi) ^ 2
          + (fst Ar * cos theta - fst Atheta * sin theta) ^ 2)
         + ((snd Ar * sin theta * cos phi + snd Atheta * cos theta * cos phi
             - snd Aphi * sin phi) ^ 2
            + (snd Ar * sin theta * sin phi + snd Atheta * cos theta * sin phi
               + snd Aphi * cos phi) ^ 2
            + (snd Ar * cos theta - snd Atheta * sin theta) ^ 2)) by ring
  end.
  rewrite Hre, Him. ring.
Qed.

Lemma radial_projection (a b c s1 c1 s2 c2 : R) :
  s1 * s1 + c1 * c1 = 1 -> s2 * s2 + c2 * c2 = 1 ->
  (a * s1 * c2 + b * c1 * c2 - c * s2) * (s1 * c2)
  + (a * s1 * s2 + b * c1 * s2 + c * c2) * (s1 * s2) + (a * c1 - b * s1) * c1 = a.
Proof.
  intros H1 H2.
  replace ((a * s1 * c2 + b * c1 * c2 - c * s2) * (s1 * c2)
           + (a * s1 * s2 + b * c1 * s2 + c * c2) * (s1 * s2) + (a * c1 - b * s1) * c1)
    with ((a * s1 * s1 + b * c1 * s1) * (s2 * s2 + c2 * c2) + (a * c1 - b * s1) * c1) by ring.
  rewrite H2.
  replace ((a * s1 * s1 + b * c1 * s1) * 1 + (a * c1 - b * s1) * c1)
    with (a * (s1 * s1 + c1 * c1)) by ring.
  rewrite H1. ring.
Qed.

Lemma polar_projection (a b c s1 c1 s2 c2 : R) :
  s1 * s1 + c1 * c1 = 1 -> s2 * s2 + c2 * c2 = 1 ->
  (a * s1 * c2 + b * c1 * c2 - c * s2) * (c1 * c2)
  + (a * s1 * s2 + b * c1 * s2 + c * c2) * (c1 * s2) - (a * c1 - b * s1) * s1 = b.
Proof.
  intros H1 H2.
  replace ((a * s1 * c2 + b * c1 * c2 - c * s2) * (c1 * c2)
           + (a * s1 * s2 + b * c1 * s2 + c * c2) * (c1 * s2) - (a * c1 - b * s1) * s1)
    with ((a * s1 * c1 + b * c1 * c1) * (s2 * s2 + c2 * c2) - (a * c1 - b * s1) * s1) by ring.
  rewrite H2.
  replace ((a * s1 * c1 + b * c1 * c1) * 1 - (a * c1 - b * s1) * s1)
    with (b * (s1 * s1 + c1 * c1)) by ring.
  rewrite H1. ring.
Qed.

Lemma azimuthal_projection (a b c s1 c1 s2 c2 : R) :
  s2 * s2 + c2 * c2 = 1 ->
  - (a * s1 * c2 + b * c1 * c2 - c * s2) * s2
  + (a * s1 * s2 + b * c1 * s2 + c * c2) * c2 = c.
Proof.
  intros H2.
  replace (- (a * s1 * c2 + b * c1 * c2 - c * s2) * s2
           + (a * s1 * s2 + b * c1 * s2 + c * c2) * c2)
    with (c * (s2 * s2 + c2 * c2)) by ring.
  rewrite H2. ring.
Qed.

(** The component of a rotated vector along the direction (theta, phi)
    is its radial component. *)
Lemma sph_2_car_field_radial_part (Ar Atheta Aphi : C) (theta phi : R) :
  dot3 (_sph_2_car_field Ar Atheta Aphi theta phi) (_sph_2_car 1 theta phi) = Ar.
Proof.
  unfold _sph_2_car_field, _sph_2_car, dot3. cbv zeta.
  destruct Ar as [ar ai], Atheta as [tr ti], Aphi as [pr pi].
  pose proof (radial_projection ar tr pr _ _ _ _ (sin_cos_sqr theta) (sin_cos_sqr phi))
    as Hre.
  pose proof (radial_projection ai ti pi _ _ _ _ (sin_cos_sqr theta) (sin_cos_sqr phi))
    as Him.
  csimp. f_equal.
  - etransitivity; [|exact Hre]. ring.
  - etransitivity; [|exact Him]. ring.
Qed.

(** X4: the spherical components are recovered from the output of
    [_sph_2_car_field] by projecting it on the unit vectors of the
    directions r, theta and phi; so the transformation loses nothing. *)
Theorem sph_2_car_field_inverse (Ar Atheta Aphi : C) (theta phi : R) :
  let A := _sph_2_car_field Ar Atheta Aphi theta phi in
  dot3 A (sin theta * cos phi, sin theta * sin phi, cos theta) = Ar /\
  dot3 A (cos theta * cos phi, cos theta * sin phi, - sin theta) = Atheta /\
  dot3 A (- sin phi, cos phi, 0) = Aphi.
Proof.
  unfold _sph_2_car_field, dot3. cbv zeta.
  destruct Ar as [ar ai], Atheta as [tr ti], Aphi as [pr pi].
  pose proof (sin_cos_sqr theta) as H1. pose proof (sin_cos_sqr phi) as H2.
  pose proof (radial_projection ar tr pr _ _ _ _ H1 H2) as Hr1.
  pose proof (radial_projection ai ti pi _ _ _ _ H1 H2) as Hr2.
  pose proof (polar_projection ar tr pr _ _ _ _ H1 H2) as Ht1.
  pose proof (polar_projection ai ti pi _ _ _ _ H1 H2) as Ht2.
  pose proof (azimuthal_projection ar tr pr (sin theta) (cos theta) _ _ H2) as Hp1.
  pose proof (azimuthal_projection ai ti pi (sin theta) (cos theta) _ _ H2) as Hp2.
  csimp. repeat split; f_equal.
  - etransitivity; [|exact Hr1]. ring.
  - etransitivity; [|exact Hr2]. ring.
  - etransitivity; [|exact Ht1]. ring.
  - etransitivity; [|exact Ht2]. ring.
  - etransitivity; [|exact Hp1]. ring.
  - etransitivity; [|exact Hp2]. ring.
Qed.

(** ** The exceptions of the radiation vectors *)

(** Broadcasting succeeds or fails by the shapes alone. *)
Lemma broadcast_mat_shape (f g : C -> C -> C) (a b a' b' : mat C) :
  rows a' = rows a -> cols a' = cols a -> rows b' = rows b -> cols b' = cols b ->
  res_rel (fun y y' : mat C => rows y' = rows y /\ cols y' = cols y)
          (broadcast_mat f a b) (broadcast_mat g a' b').
Proof.
  intros Har Hac Hbr Hbc. unfold broadcast_mat. rewrite Har, Hac, Hbr, Hbc.
  destruct (bdim (rows a) (rows b)) as [n| |]; cbn; auto.
  destruct (bdim (cols a) (cols b)) as [m| |]; cbn; auto.
Qed.

Lemma phase_shape (e e' : Near2Far) (theta phi theta' phi' : R) (d : Near2FarData) :
  res_rel (fun y y' : mat C => rows y' = rows y /\ cols y' = cols y)
          (phase e theta phi d) (phase e' theta' phi' d).
Proof.
  unfold phase. cbv zeta. destruct (mon_axis d).
  - apply broadcast_mat_shape; reflexivity.
  - apply broadcast_mat_shape; reflexivity.
  - eapply res_rel_bind; [apply broadcast_mat_shape; reflexivity|].
    intros y y' [Hr Hc]. cbn. split; assumption.
Qed.

Lemma trapz_mat_shape (y y' : mat C) (x : vec R) :
  rows y' = rows y -> cols y' = cols y ->
  res_rel (fun t t' : vec C => len t' = len t) (trapz_mat y x) (trapz_mat y' x).
Proof.
  intros Hr Hc. unfold trapz_mat, broadcast_mat. cbn [rows cols mat_at].
  rewrite Hr, Hc.
  destruct (bdim (len (diff x)) (rows y - 1)) as [n| |]; cbn; auto.
  destruct (bdim 1 (cols y)) as [m| |]; cbn; auto.
Qed.

Lemma trapz_vec_shape (t t' : vec C) (x : vec R) :
  len t' = len t -> res_rel (fun _ _ : C => True) (trapz_vec t x) (trapz_vec t' x).
Proof.
  intros Hl. unfold trapz_vec. cbn [len vat]. rewrite Hl.
  destruct (bdim (len (diff x)) (len t - 1)) as [n| |]; cbn; auto.
Qed.

Lemma integrate_shape (a : ndarray C) (ph ph' : mat C) (gp : mat R * mat R) :
  rows ph' = rows ph -> cols ph' = cols ph ->
  res_rel (fun _ _ : C => True) (integrate a ph gp) (integrate a ph' gp).
Proof.
  intros Hr Hc. unfold integrate.
  eapply res_rel_bind; [apply broadcast_mat_shape; auto|]. intros y y' [Hyr Hyc].
  eapply res_rel_bind; [apply res_rel_refl; intros; reflexivity|]. intros x0 ? <-.
  eapply res_rel_bind; [apply trapz_mat_shape; assumption|]. intros t t' Ht.
  eapply res_rel_bind; [apply res_rel_refl; intros; reflexivity|]. intros x1 ? <-.
  apply trapz_vec_shape. exact Ht.
Qed.

Lemma per_monitor_shape (e e' : Near2Far) (theta phi theta' phi' : R) (d : Near2FarData) :
  res_rel (fun _ _ : C * C * C * C => True)
          (_radiation_vectors_per_monitor e theta phi d)
          (_radiation_vectors_per_monitor e' theta' phi' d).
Proof.
  unfold _radiation_vectors_per_monitor. cbv zeta.
  eapply res_rel_bind; [apply phase_shape|]. intros ph ph' [Hr Hc].
  eapply res_rel_bind; [apply integrate_shape; assumption|]. intros J0 J0' _.
  eapply res_rel_bind; [apply integrate_shape; assumption|]. intros J1 J1' _.
  eapply res_rel_bind; [apply integrate_shape; assumption|]. intros M0 M0' _.
  eapply res_rel_bind; [apply integrate_shape; assumption|]. intros M1 M1' _.
  destruct (mon_axis d); cbn; exact I.
Qed.

Lemma accumulate_shape (e e' : Near2Far) (theta phi theta' phi' : R)
    (ds : list Near2FarData) :
  forall acc acc', res_rel (fun _ _ : C * C * C * C => True)
                     (accumulate e theta phi ds acc) (accumulate e' theta' phi' ds acc').
Proof.
  induction ds as [|d rest IH]; intros acc acc'; cbn [accumulate]; [exact I|].
  eapply res_rel_bind; [apply per_monitor_shape|].
  intros [[[a b] c] d0] [[[a' b'] c'] d0'] _.
  destruct acc as [[[a1 a2] a3] a4], acc' as [[[b1 b2] b3] b4]. apply IH.
Qed.

(** An exception of [_radiation_vectors] comes from the shapes of the
    data: it is raised at every pair of angles, for every sign, wave
    number and origin. *)
Lemma radiation_vectors_raise_any_angle (e : Near2Far) (theta phi theta' phi' : R)
    (x : exn) :
  _radiation_vectors e theta phi = Raise x -> _radiation_vectors e theta' phi' = Raise x.
Proof.
  intros H. unfold _radiation_vectors in *.
  pose proof (accumulate_shape e e theta phi theta' phi' (data e)
                (RtoC 0, RtoC 0, RtoC 0, RtoC 0) (RtoC 0, RtoC 0, RtoC 0, RtoC 0)) as Hs.
  rewrite H in Hs.
  destruct (accumulate e theta' phi' (data e) (RtoC 0, RtoC 0, RtoC 0, RtoC 0));
    cbn in Hs; [contradiction | congruence | contradiction].
Qed.

Lemma radiation_vectors_nan_raise {A : Type} (e : Near2Far) (theta phi : R) (x : exn) :
  _radiation_vectors e theta phi = Raise x -> @radiation_vectors_nan A e = Raise x.
Proof.
  intros H. unfold radiation_vectors_nan.
  rewrite (radiation_vectors_raise_any_angle e theta phi 0 0 x H). reflexivity.
Qed.

(** ** The far fields *)

Lemma Cmod2_mul (a b : C) : Cmod2 (a * b) = Cmod2 a * Cmod2 b.
Proof. unfold Cmod2. csimp. ring. Qed.

Lemma Cmod2_neg (a : C) : Cmod2 (- a) = Cmod2 a.
Proof. unfold Cmod2. csimp. ring. Qed.

Lemma local_sph_radius (e : Near2Far) (r theta phi r' theta' phi' : R) :
  local_sph e r theta phi = Ok (r', theta', phi') -> 0 < r'.
Proof.
  unfold local_sph. destruct (_sph_2_car r theta phi) as [[x y] z].
  destruct (origin e) as [[ox oy] oz]. unfold _car_2_sph, np_div.
  pose proof (sqrt_pos ((x - ox) ^ 2 + (y - oy) ^ 2 + (z - oz) ^ 2)) as Hp.
  set (s := sqrt ((x - ox) ^ 2 + (y - oy) ^ 2 + (z - oz) ^ 2)) in *.
  destruct (Req_dec_T s 0) as [E|N]; [discriminate|]. unfold bind.
  intros H. injection H as <- _ _. lra.
Qed.

(** The squared modulus of the factor [scalar_proj_r]. *)
Lemma scalar_mod2 (e : Near2Far) (r : R) :
  spacetime_sign e * spacetime_sign e = 1 -> r <> 0 ->
  Cmod2 (scalar_proj_r e r) = k0 e ^ 2 / (16 * PI ^ 2 * r ^ 2).
Proof.
  intros Hs Hr. unfold scalar_proj_r.
  assert (Hz : ($(spacetime_sign e) * Ci * $(k0 e) * $r)%C
               = (0, spacetime_sign e * k0 e * r)) by ceq.
  rewrite Hz. unfold Cexp. cbn [fst snd]. rewrite exp_0.
  pose proof (sin_cos_sqr (spacetime_sign e * k0 e * r)) as Hu.
  set (s := sin (spacetime_sign e * k0 e * r)) in *.
  set (c := cos (spacetime_sign e * k0 e * r)) in *.
  unfold Cmod2. csimp.
  transitivity (spacetime_sign e * spacetime_sign e * k0 e ^ 2 * (s * s + c * c)
                / (16 * PI ^ 2 * r ^ 2)).
  - field. split; [exact Hr | apply PI_neq0].
  - rewrite Hs, Hu. field. split; [exact Hr | apply PI_neq0].
Qed.

Section Fields.

Variable ETA_0 : R.

(** X5: in every result of [fields_spherical], E and H have no radial
    component, are orthogonal to each other, and |E|^2 = eta0^2 |H|^2
    (for eta0 other than zero). *)
Theorem fields_spherical_orthogonal (e : Near2Far) (r theta phi : R)
    (E_r E_theta E_phi H_r H_theta H_phi : C) :
  ETA_0 <> 0 ->
  fields_spherical ETA_0 e r theta phi = Ok ((E_r, E_theta, E_phi), (H_r, H_theta, H_phi)) ->
  E_r = RtoC 0 /\ H_r = RtoC 0 /\
  (E_theta * H_theta + E_phi * H_phi)%C = RtoC 0 /\
  Cmod2 E_theta + Cmod2 E_phi = ETA_0 ^ 2 * (Cmod2 H_theta + Cmod2 H_phi).
Proof.
  intros He Hf. apply fields_spherical_inv in Hf. destruct Hf as (a & b & HE & HH).
  injection HE as -> -> ->. injection HH as -> -> ->.
  split; [reflexivity|]. split; [reflexivity|]. split.
  - ceq.
  - unfold Cmod2. csimp. field. exact He.
Qed.

Lemma power_closed (e : Near2Far) (r theta phi : R)
    (E_r E_theta E_phi : C) (H : C * C * C) :
  ETA_0 <> 0 ->
  fields_spherical ETA_0 e r theta phi = Ok ((E_r, E_theta, E_phi), H) ->
  power_spherical ETA_0 e r theta phi = Ok ((Cmod2 E_theta + Cmod2 E_phi) / (2 * ETA_0)).
Proof.
  intros He Hf. unfold power_spherical. rewrite Hf.
  apply fields_spherical_inv in Hf. destruct Hf as (a & b & HE & ->).
  injection HE as -> -> ->. cbn [bind]. f_equal. unfold Cmod2. csimp.
  replace 0.5 with (1 / 2) by lra. field. exact He.
Qed.

(** X6: when [fields_spherical] returns the field E, [power_spherical]
    at the same point returns (|E_theta|^2 + |E_phi|^2) / (2 eta0). *)
Theorem power_spherical_closed_form (e : Near2Far) (r theta phi : R)
    (E_r E_theta E_phi : C) (H : C * C * C) :
  ETA_0 <> 0 ->
  fields_spherical ETA_0 e r theta phi = Ok ((E_r, E_theta, E_phi), H) ->
  power_spherical ETA_0 e r theta phi = Ok ((Cmod2 E_theta + Cmod2 E_phi) / (2 * ETA_0)).
Proof. apply power_closed. Qed.

(** X7: for a space-time sign of 1 or -1, the radar cross section at a
    point is 4 pi r'^2 times the power at that point, where r' is the
    radius of the point re-referenced to the origin. *)
Theorem rcs_is_scaled_power (e : Near2Far) (r theta phi r' theta' phi' p : R) :
  spacetime_sign e * spacetime_sign e = 1 -> ETA_0 <> 0 ->
  local_sph e r theta phi = Ok (r', theta', phi') ->
  power_spherical ETA_0 e r theta phi = Ok p ->
  radar_cross_section ETA_0 e r theta phi = Ok (4 * PI * r' ^ 2 * p).
Proof.
  intros Hs He Hl Hp. pose proof (local_sph_radius _ _ _ _ _ _ _ Hl) as Hr.
  assert (Hv : exists n1 n2 l1 l2, _radiation_vectors e theta' phi' = Ok (n1, n2, l1, l2)).
  { unfold power_spherical, fields_spherical in Hp. rewrite Hl in Hp. cbn [bind] in Hp.
    destruct (_radiation_vectors e theta' phi') as [[[[n1 n2] l1] l2]| |];
      try discriminate. do 4 eexists. reflexivity. }
  destruct Hv as (n1 & n2 & l1 & l2 & Hv).
  pose proof (fields_spherical_eq ETA_0 e r theta phi r' theta' phi' n1 n2 l1 l2 Hl Hv) as Hf.
  cbv zeta in Hf. fold (scalar_proj_r e r') in Hf.
  rewrite (power_closed e r theta phi _ _ _ _ He Hf) in Hp. injection Hp as <-.
  unfold radar_cross_section. rewrite Hl. cbn [bind]. rewrite Hv. cbn [bind]. f_equal.
  rewrite !Cabs_sqr, !Cmod2_mul, Cmod2_neg, (scalar_mod2 e r' Hs) by lra.
  unfold Cmod2. field. repeat split; try assumption; try lra; apply PI_neq0.
Qed.

(** ** Queries in Cartesian coordinates *)

(** X8: the fields returned by [fields_cartesian] are transverse: the
    components of E and of H along the direction (theta, phi) of the
    point, taken from the origin, are zero. *)
Theorem fields_cartesian_transverse (e : Near2Far) (x y z : R) (E H : C * C * C) :
  fields_cartesian ETA_0 e x y z = Ok (E, H) ->
  exists r theta phi,
    (let '(ox, oy, oz) := origin e in _car_2_sph (x - ox) (y - oy) (z - oz))
    = Ok (r, theta, phi) /\
    dot3 E (_sph_2_car 1 theta phi) = RtoC 0 /\
    dot3 H (_sph_2_car 1 theta phi) = RtoC 0.
Proof.
  unfold fields_cartesian. intros Hf. destruct (origin e) as [[ox oy] oz].
  destruct (_car_2_sph (x - ox) (y - oy) (z - oz)) as [[[r th] ph]|x0|];
    [|discriminate | exfalso; exact (radiation_vectors_nan_not_ok _ _ Hf)].
  apply bind_ok in Hf. destruct Hf as ([E' H'] & Hs & Hf).
  apply fields_spherical_inv in Hs. destruct Hs as (a & b & -> & ->).
  injection Hf as <- <-. exists r, th, ph. split; [reflexivity|].
  split; apply sph_2_car_field_radial_part.
Qed.

(** [fields_cartesian] returns fields for regular data at every point
    that is neither the origin nor twice the origin. *)
Lemma fields_cartesian_ok (e : Near2Far) (x y z ox oy oz : R) :
  Forall regular_data (data e) -> origin e = (ox, oy, oz) ->
  (x, y, z) <> (ox, oy, oz) -> (x, y, z) <> (ox + ox, oy + oy, oz + oz) ->
  exists E H, fields_cartesian ETA_0 e x y z = Ok (E, H).
Proof.
  intros Hreg Ho Hne Hne2.
  destruct (sph_2_car_of_car (x - ox) (y - oy) (z - oz)) as (r & th & ph & Hc & Hs).
  { intros E. inversion E. apply Hne. repeat f_equal; lra. }
  destruct (local_sph_ok e r th ph) as (r' & th' & ph' & Hl & _).
  { rewrite Hs, Ho. intros E. inversion E. apply Hne2. repeat f_equal; lra. }
  destruct (radiation_vectors_ok e th' ph' Hreg) as [[[[n1 n2] l1] l2] Hv].
  pose proof (fields_spherical_eq ETA_0 e r th ph r' th' ph' n1 n2 l1 l2 Hl Hv) as Hf.
  cbv zeta in Hf. unfold fields_cartesian. rewrite Ho, Hc. cbn [bind]. rewrite Hf.
  cbn [bind]. do 2 eexists. reflexivity.
Qed.

(** X9: [fields_cartesian] subtracts the origin from the point and hands
    the spherical coordinates of the difference to [fields_spherical],
    which subtracts the origin again: the radiation vectors and the
    radius are those of the point minus twice the origin. *)
Theorem fields_cartesian_recenters_twice (e : Near2Far) (x y z ox oy oz : R) :
  origin e = (ox, oy, oz) -> (x, y, z) <> (ox, oy, oz) ->
  exists r theta phi,
    _car_2_sph (x - ox) (y - oy) (z - oz) = Ok (r, theta, phi) /\
    local_sph e r theta phi = _car_2_sph (x - ox - ox) (y - oy - oy) (z - oz - oz) /\
    fields_cartesian ETA_0 e x y z
    = ('(E, H) <- fields_spherical ETA_0 e r theta phi ;;
       match E, H with
       | (Er, Etheta, Ephi), (Hr, Htheta, Hphi) =>
           Ok (_sph_2_car_field Er Etheta Ephi theta phi,
               _sph_2_car_field Hr Htheta Hphi theta phi)
       end).
Proof.
  intros Ho Hne.
  destruct (sph_2_car_of_car (x - ox) (y - oy) (z - oz)) as (r & th & ph & Hc & Hs).
  { intros E. inversion E. apply Hne. repeat f_equal; lra. }
  exists r, th, ph. split; [exact Hc|]. split.
  - unfold local_sph. rewrite Hs, Ho. reflexivity.
  - unfold fields_cartesian. rewrite Ho, Hc. reflexivity.
Qed.

(** X10: at the origin of the engine [fields_cartesian], and at the
    point (0, 0, 0) [power_cartesian], return no value: the polar angle is
    0/0 and the code goes on with it.  The outcome is not finite when the
    data of the engine is regular, and it is the exception of
    [_radiation_vectors] when the data makes this function raise. *)
Theorem cartesian_queries_at_origin (e : Near2Far) (ox oy oz : R) :
  origin e = (ox, oy, oz) ->
  (forall v, fields_cartesian ETA_0 e ox oy oz <> Ok v) /\
  (forall p, power_cartesian ETA_0 e 0 0 0 <> Ok p) /\
  (Forall regular_data (data e) ->
   fields_cartesian ETA_0 e ox oy oz = NotFinite /\
   power_cartesian ETA_0 e 0 0 0 = NotFinite) /\
  (forall x theta phi,
      _radiation_vectors e theta phi = Raise x ->
      fields_cartesian ETA_0 e ox oy oz = Raise x /\
      power_cartesian ETA_0 e 0 0 0 = Raise x).
Proof.
  intros Ho.
  assert (Hf : fields_cartesian ETA_0 e ox oy oz = radiation_vectors_nan e).
  { unfold fields_cartesian. rewrite Ho, car_2_sph_zero by ring. reflexivity. }
  assert (Hp : power_cartesian ETA_0 e 0 0 0 = radiation_vectors_nan e).
  { unfold power_cartesian. rewrite car_2_sph_zero by reflexivity. reflexivity. }
  rewrite Hf, Hp. split; [|split; [|split]].
  - intros v. apply radiation_vectors_nan_not_ok.
  - intros p. apply radiation_vectors_nan_not_ok.
  - intros Hreg. split; apply radiation_vectors_nan_regular; exact Hreg.
  - intros x theta phi Hx. split; apply (radiation_vectors_nan_raise e theta phi x Hx).
Qed.

(** X11: for r > 0, theta in (0, pi) and phi in (-pi, pi],
    [power_cartesian] at the point [_sph_2_car r theta phi] is
    [power_spherical] at (r, theta, phi), whatever the outcome. *)
Theorem power_cartesian_of_sph (e : Near2Far) (r theta phi : R) :
  0 < r -> 0 < theta < PI -> - PI < phi <= PI ->
  (let '(x, y, z) := _sph_2_car r theta phi in power_cartesian ETA_0 e x y z)
  = power_spherical ETA_0 e r theta phi.
Proof.
  intros Hr Hth Hphi. unfold _sph_2_car, power_cartesian. cbv zeta.
  rewrite car_2_sph_of_sph by assumption. reflexivity.
Qed.

End Fields.

Lemma ex_origin : origin ex_engine = (0, 0, 1).
Proof.
  cbn [ex_engine origin]. unfold mean_point. cbn [List.length map fold_right item INR].
  split_pairs; field.
Qed.

Lemma ex_fields :
  exists E_theta E_phi H,
    fields_spherical 1 ex_engine 3 0 0 = Ok ((RtoC 0, E_theta, E_phi), H).
Proof.
  pose proof (fields_spherical_eq 1 ex_engine 3 0 0 2 0 0 _ _ _ _ ex_local ex_rv) as Hf.
  cbv zeta in Hf. do 3 eexists. exact Hf.
Qed.

Lemma ex_power : exists p, power_spherical 1 ex_engine 3 0 0 = Ok p.
Proof.
  destruct ex_fields as (a & b & H & Hf). eexists.
  apply (power_closed 1 ex_engine 3 0 0 _ _ _ _ R1_neq_R0 Hf).
Qed.

Lemma ex_fields_cartesian : exists E H, fields_cartesian 1 ex_engine 0 0 4 = Ok (E, H).
Proof.
  apply (fields_cartesian_ok 1 ex_engine 0 0 4 0 0 1 ex_regular ex_origin).
  - intros E. inversion E. lra.
  - intros E. inversion E. lra.
Qed.

Lemma fields_spherical_orthogonal_witness :
  1 <> 0 /\
  exists E_theta E_phi H_theta H_phi,
    fields_spherical 1 ex_engine 3 0 0
    = Ok ((RtoC 0, E_theta, E_phi), (RtoC 0, H_theta, H_phi)) /\
    (E_theta * H_theta + E_phi * H_phi)%C = RtoC 0.
Proof.
  split; [exact R1_neq_R0|].
  pose proof (fields_spherical_eq 1 ex_engine 3 0 0 2 0 0 _ _ _ _ ex_local ex_rv) as Hf.
  cbv zeta in Hf. do 4 eexists. split; [exact Hf|].
  destruct (fields_spherical_orthogonal 1 ex_engine 3 0 0 _ _ _ _ _ _ R1_neq_R0 Hf)
    as (_ & _ & H & _).
  exact H.
Defined.

Lemma power_spherical_closed_form_witness :
  1 <> 0 /\
  exists E_theta E_phi H,
    fields_spherical 1 ex_engine 3 0 0 = Ok ((RtoC 0, E_theta, E_phi), H) /\
    power_spherical 1 ex_engine 3 0 0 = Ok ((Cmod2 E_theta + Cmod2 E_phi) / (2 * 1)).
Proof.
  split; [exact R1_neq_R0|].
  destruct ex_fields as (a & b & H & Hf). exists a, b, H. split; [exact Hf|].
  exact (power_spherical_closed_form 1 ex_engine 3 0 0 _ _ _ _ R1_neq_R0 Hf).
Defined.

Lemma rcs_is_scaled_power_witness :
  spacetime_sign ex_engine * spacetime_sign ex_engine = 1 /\ 1 <> 0 /\
  local_sph ex_engine 3 0 0 = Ok (2, 0, 0) /\
  exists p, power_spherical 1 ex_engine 3 0 0 = Ok p /\
            radar_cross_section 1 ex_engine 3 0 0 = Ok (4 * PI * 2 ^ 2 * p).
Proof.
  assert (Hs : spacetime_sign ex_engine * spacetime_sign ex_engine = 1)
    by (cbn [ex_engine spacetime_sign]; lra).
  split; [exact Hs|]. split; [exact R1_neq_R0|]. split; [exact ex_local|].
  destruct ex_power as [p Hp]. exists p. split; [exact Hp|].
  exact (rcs_is_scaled_power 1 ex_engine 3 0 0 2 0 0 p Hs R1_neq_R0 ex_local Hp).
Defined.

Lemma fields_cartesian_transverse_witness :
  exists E H r theta phi,
    fields_cartesian 1 ex_engine 0 0 4 = Ok (E, H) /\
    (let '(ox, oy, oz) := origin ex_engine in _car_2_sph (0 - ox) (0 - oy) (4 - oz))
    = Ok (r, theta, phi) /\
    dot3 E (_sph_2_car 1 theta phi) = RtoC 0 /\
    dot3 H (_sph_2_car 1 theta phi) = RtoC 0.
Proof.
  destruct ex_fields_cartesian as (E & H & Hf).
  destruct (fields_cartesian_transverse 1 ex_engine 0 0 4 E H Hf) as (r & th & ph & Hc).
  exists E, H, r, th, ph. split; [exact Hf | exact Hc].
Defined.

Lemma fields_cartesian_recenters_twice_witness :
  origin ex_engine = (0, 0, 1) /\ (0, 0, 4) <> (0, 0, 1) /\
  exists r theta phi,
    _car_2_sph (0 - 0) (0 - 0) (4 - 1) = Ok (r, theta, phi) /\
    local_sph ex_engine r theta phi = _car_2_sph (0 - 0 - 0) (0 - 0 - 0) (4 - 1 - 1).
Proof.
  assert (Hne : (0, 0, 4) <> (0, 0, 1)) by (intros E; inversion E; lra).
  split; [exact ex_origin|]. split; [exact Hne|].
  destruct (fields_cartesian_recenters_twice 1 ex_engine 0 0 4 0 0 1 ex_origin Hne)
    as (r & th & ph & Hc & Hl & _).
  exists r, th, ph. split; [exact Hc | exact Hl].
Defined.

Lemma cartesian_queries_at_origin_witness :
  (origin ex_engine = (0, 0, 1) /\ Forall regular_data (data ex_engine) /\
   fields_cartesian 1 ex_engine 0 0 1 = NotFinite /\
   power_cartesian 1 ex_engine 0 0 0 = NotFinite) /\
  (exists e, __init__ 1 ex_sd [strip_mon] 1 3 = Ok e /\
             origin e = ((0 + 0) / 1, (0 + 0) / 1, (1 + 0) / 1) /\
             _radiation_vectors e 0 0 = Raise ValueError /\
             fields_cartesian 1 e ((0 + 0) / 1) ((0 + 0) / 1) ((1 + 0) / 1)
             = Raise ValueError /\
             power_cartesian 1 e 0 0 0 = Raise ValueError).
Proof.
  split.
  - split; [exact ex_origin|]. split; [exact ex_regular|].
    destruct (cartesian_queries_at_origin 1 ex_engine 0 0 1 ex_origin) as (_ & _ & H & _).
    exact (H ex_regular).
  - destruct strip3_engine as (e & He & Ho & Hrv). exists e.
    split; [exact He|]. split; [exact Ho|]. split; [exact (Hrv 0 0)|].
    destruct (cartesian_queries_at_origin 1 e _ _ _ Ho) as (_ & _ & _ & H).
    exact (H ValueError 0 0 (Hrv 0 0)).
Defined.

Lemma power_cartesian_of_sph_witness :
  0 < 1 /\ 0 < PI / 2 < PI /\ - PI < PI / 2 <= PI /\
  (let '(x, y, z) := _sph_2_car 1 (PI / 2) (PI / 2) in power_cartesian 1 ex_engine x y z)
  = power_spherical 1 ex_engine 1 (PI / 2) (PI / 2).
Proof.
  pose proof PI_RGT_0 as Hpi.
  assert (H1 : 0 < 1) by lra.
  assert (H2 : 0 < PI / 2 < PI) by lra.
  assert (H3 : - PI < PI / 2 <= PI) by lra.
  split; [exact H1|]. split; [exact H2|]. split; [exact H3|].
  exact (power_cartesian_of_sph 1 ex_engine 1 (PI / 2) (PI / 2) H1 H2 H3).
Defined.

(** ** The sum over the monitors *)

Lemma accumulate_shift (e : Near2Far) (theta phi : R) (ds : list Near2FarData) :
  forall acc, accumulate e theta phi ds acc
              = rmap (add4 acc) (accumulate e theta phi ds zero4).
Proof.
  induction ds as [|d rest IH]; intros acc; cbn [accumulate].
  - unfold rmap. cbn [bind]. f_equal.
    destruct acc as [[[[a1 a1'] [a2 a2']] [a3 a3']] [a4 a4']]. unfold zero4, add4. ceq.
  - destruct (_radiation_vectors_per_monitor e theta phi d) as [[[[n1 n2] l1] l2]| |];
      cbn [bind rmap]; try reflexivity.
    destruct acc as [[[a1 a2] a3] a4]. unfold zero4. rewrite IH.
    rewrite (IH ($0 + n1, $0 + n2, $0 + l1, $0 + l2)%C).
    destruct (accumulate e theta phi rest zero4) as [[[[b1 b2] b3] b4]| |];
      unfold rmap; cbn [bind]; try reflexivity.
    f_equal. unfold add4. ceq.
Qed.

Lemma accumulate_app (e : Near2Far) (theta phi : R) (ds1 ds2 : list Near2FarData) :
  forall acc, accumulate e theta phi (ds1 ++ ds2) acc
              = bind (accumulate e theta phi ds1 acc) (accumulate e theta phi ds2).
Proof.
  induction ds1 as [|d rest IH]; intros acc; cbn [app accumulate bind]; [reflexivity|].
  destruct (_radiation_vectors_per_monitor e theta phi d) as [[[[n1 n2] l1] l2]| |];
    cbn [bind]; try reflexivity.
  destruct acc as [[[a1 a2] a3] a4]. apply IH.
Qed.

(** X12: the radiation vectors are additive in the monitors: for
    engines with the same sign, wave number and origin, the radiation
    vectors of the engine whose data is the concatenation of the data of
    two engines are the sums of the radiation vectors of the two. *)
Theorem radiation_vectors_additive (e1 e2 e : Near2Far) (theta phi : R)
    (v1 v2 : C * C * C * C) :
  spacetime_sign e1 = spacetime_sign e -> k0 e1 = k0 e -> origin e1 = origin e ->
  spacetime_sign e2 = spacetime_sign e -> k0 e2 = k0 e -> origin e2 = origin e ->
  data e = data e1 ++ data e2 ->
  _radiation_vectors e1 theta phi = Ok v1 ->
  _radiation_vectors e2 theta phi = Ok v2 ->
  _radiation_vectors e theta phi = Ok (add4 v1 v2).
Proof.
  intros Hs1 Hk1 Ho1 Hs2 Hk2 Ho2 Hd H1 H2. unfold _radiation_vectors in *.
  rewrite (accumulate_self e e1 theta phi (data e1) Hs1 Hk1 Ho1) in H1.
  rewrite (accumulate_self e e2 theta phi (data e2) Hs2 Hk2 Ho2) in H2.
  rewrite Hd, accumulate_app. fold zero4 in *. rewrite H1. cbn [bind].
  rewrite accumulate_shift, H2. reflexivity.
Qed.

Lemma radiation_vectors_additive_witness :
  _radiation_vectors ex_engine2 0 0
  = Ok (add4 (RtoC 0, RtoC 0, RtoC 1, RtoC 0) (RtoC 0, RtoC 0, RtoC 1, RtoC 0)).
Proof.
  apply (radiation_vectors_additive ex_engine ex_engine ex_engine2 0 0);
    [reflexivity | reflexivity | reflexivity | reflexivity | reflexivity | reflexivity
    | reflexivity | exact ex_rv | exact ex_rv].
Defined.

(** ** Degenerate grids *)

Lemma Csum_zero (n : nat) (g : nat -> C) :
  (forall i, g i = RtoC 0) -> Csum n g = RtoC 0.
Proof.
  intros H. induction n as [|n IH]; cbn [Csum]; [reflexivity|].
  rewrite IH, H. ceq.
Qed.

(** One sample along the first axis: the first integration is over no
    interval and gives zeros. *)
Lemma integrate_single_row (s : R) (a ph : mat C) (gp : mat R * mat R) (m : nat) :
  (1 <= m)%nat ->
  rows a = 1%nat -> cols a = m -> rows ph = 1%nat -> cols ph = m ->
  rows (fst gp) = 1%nat -> cols (fst gp) = m ->
  rows (snd gp) = 1%nat -> cols (snd gp) = m ->
  integrate (ascale s (squeeze (Arr2 a))) ph gp = Ok (RtoC 0).
Proof.
  intros Hm Har Hac Hpr Hpc H0r H0c H1r H1c.
  assert (Hm0 : (m =? 0)%nat = false) by (apply Nat.eqb_neq; lia).
  assert (Hy : exists y, broadcast_mat Cmul (as_mat (ascale s (squeeze (Arr2 a)))) ph = Ok y
                         /\ rows y = 1%nat /\ cols y = m).
  { cbn [squeeze]. rewrite Har, Hac. cbn [Nat.eqb].
    destruct (m =? 1)%nat eqn:Hm1.
    - apply Nat.eqb_eq in Hm1. cbn [ascale amap as_mat]. unfold broadcast_mat.
      cbn [rows cols]. rewrite Hpr, Hpc, Hm1. cbn [bdim Nat.eqb bind].
      eexists. repeat split.
    - cbn [ascale amap as_mat vmap]. unfold broadcast_mat. cbn [rows cols len].
      rewrite Hpr, Hpc, !bdim_same. cbn [bind]. eexists. repeat split. }
  destruct Hy as (y & Hy & Hyr & Hyc).
  unfold integrate. rewrite Hy. cbn [bind].
  unfold col0. rewrite H0c, Hm0. cbn [bind].
  unfold trapz_mat, broadcast_mat. cbn [rows cols len diff].
  rewrite H0r, Hyr, Hyc. cbn [Nat.sub]. rewrite bdim_same, bdim_one_l. cbn [bind].
  unfold row0. rewrite H1r. cbn [Nat.eqb bind].
  unfold trapz_vec. cbn [len diff rows cols vat mat_at Csum]. rewrite H1c, bdim_same.
  cbn [bind]. f_equal. apply Csum_zero. intros i. ceq.
Qed.

(** Two samples along the first axis and one along the second: the
    second integration is over no interval. *)
Lemma integrate_two_by_one (s : R) (a ph : mat C) (gp : mat R * mat R) :
  rows a = 2%nat -> cols a = 1%nat -> rows ph = 2%nat -> cols ph = 1%nat ->
  rows (fst gp) = 2%nat -> cols (fst gp) = 1%nat ->
  rows (snd gp) = 2%nat -> cols (snd gp) = 1%nat ->
  integrate (ascale s (squeeze (Arr2 a))) ph gp = Ok (RtoC 0).
Proof.
  intros Har Hac Hpr Hpc H0r H0c H1r H1c.
  cbn [squeeze]. rewrite Har, Hac. cbn [Nat.eqb ascale amap].
  unfold integrate, broadcast_mat. cbn [as_mat vmap rows cols len].
  rewrite Hpr, Hpc. cbn [bdim Nat.eqb bind].
  unfold col0. rewrite H0c. cbn [Nat.eqb bind].
  unfold trapz_mat, broadcast_mat. cbn [rows cols len diff]. rewrite H0r.
  cbn [Nat.sub bdim Nat.eqb bind].
  unfold row0. rewrite H1r. cbn [Nat.eqb bind].
  unfold trapz_vec. cbn [len diff rows cols]. rewrite H1c.
  cbn [Nat.sub bdim Nat.eqb bind Csum]. reflexivity.
Qed.

Lemma per_monitor_zero (e : Near2Far) (theta phi : R) (d : Near2FarData) (ph : mat C) :
  phase e theta phi d = Ok ph ->
  integrate (fst (J d)) ph (grid_points d) = Ok (RtoC 0) ->
  integrate (snd (J d)) ph (grid_points d) = Ok (RtoC 0) ->
  integrate (fst (M d)) ph (grid_points d) = Ok (RtoC 0) ->
  integrate (snd (M d)) ph (grid_points d) = Ok (RtoC 0) ->
  _radiation_vectors_per_monitor e theta phi d = Ok zero4.
Proof.
  intros Hph H1 H2 H3 H4. unfold _radiation_vectors_per_monitor.
  rewrite Hph. cbn [bind]. rewrite H1, H2, H3, H4. cbn [bind].
  destruct (mon_axis d); cbn [source_vector]; unfold zero4; ceq.
Qed.

(** X13: a monitor sampled with a single point along its first (u)
    axis, or with two points along the first and one point along the second
    axis, contributes radiation vectors that are exactly zero at every
    angle, whatever its fields are. *)
Theorem thin_monitor_contributes_nothing (k f : R) (ppw : Z) (sd : SimulationData)
    (mon : FieldMonitor) (d : Near2FarData) (e : Near2Far) (theta phi : R) :
  _get_data_from_monitor k f ppw sd mon = Ok d ->
  (rows (fst (grid_points d)) = 1%nat /\ (1 <= cols (fst (grid_points d)))%nat) \/
  (rows (fst (grid_points d)) = 2%nat /\ cols (fst (grid_points d)) = 1%nat) ->
  _radiation_vectors_per_monitor e theta phi d = Ok zero4.
Proof.
  intros H. apply get_data_inv in H.
  destruct H as (_ & fd & wl & u & v & Eu & Ev & Hu & Hv & _ & _ & _ & _ & Hsel & Hd).
  apply select_fields_colocate in Hsel.
  destruct Hsel as (eu & ev & hu & hv & -> & -> & -> & ->).
  cbv zeta in Hd. subst d. cbn [grid_points meshgrid fst snd rows cols]. intros Hshape.
  match goal with
  | |- _radiation_vectors_per_monitor e theta phi ?d = _ =>
      destruct (phase_ok e theta phi d) as (ph & Hph & Hpr & Hpc); [reflexivity.. |];
      apply (per_monitor_zero e theta phi d ph Hph)
  end; cbn [grid_points meshgrid fst snd rows cols J M] in *;
    (destruct Hshape as [[Hr Hc]|[Hr Hc]];
     [ apply (integrate_single_row _ _ ph _ (len v)); cbn [rows cols fst snd meshgrid];
       congruence || lia
     | apply integrate_two_by_one; cbn [rows cols fst snd meshgrid]; congruence ]).
Qed.

(** X14: when the first monitor of an engine is sampled with three or
    more points along its first axis and one point along the second, every
    query of the radiation vectors raises [ValueError]. *)
Theorem strip_query_raises (k f : R) (ppw : Z) (sd : SimulationData) (mon : FieldMonitor)
    (d : Near2FarData) (e : Near2Far) (rest : list Near2FarData) (theta phi : R) :
  _get_data_from_monitor k f ppw sd mon = Ok d ->
  (3 <= rows (fst (grid_points d)))%nat -> cols (fst (grid_points d)) = 1%nat ->
  data e = d :: rest ->
  _radiation_vectors e theta phi = Raise ValueError.
Proof.
  intros Hd Hr Hc He. unfold _radiation_vectors. rewrite He. cbn [accumulate].
  rewrite (per_monitor_strip _ _ _ _ _ _ e theta phi Hd Hr Hc). reflexivity.
Qed.

Lemma per_monitor_empty (k f : R) (ppw : Z) (sd : SimulationData) (mon : FieldMonitor)
    (d : Near2FarData) (e : Near2Far) (theta phi : R) :
  _get_data_from_monitor k f ppw sd mon = Ok d ->
  cols (fst (grid_points d)) = 0%nat ->
  _radiation_vectors_per_monitor e theta phi d = Raise IndexError.
Proof.
  intros H. apply get_data_inv in H.
  destruct H as (_ & fd & wl & u & v & Eu & Ev & Hu & Hv & _ & _ & _ & _ & Hsel & Hd).
  apply select_fields_colocate in Hsel.
  destruct Hsel as (eu & ev & hu & hv & -> & -> & -> & ->).
  cbv zeta in Hd. subst d. cbn [grid_points meshgrid fst snd rows cols]. intros Hc.
  unfold _radiation_vectors_per_monitor.
  match goal with
  | |- context [phase e theta phi ?d] =>
      destruct (phase_ok e theta phi d) as (ph & -> & Hpr & Hpc); [reflexivity.. |]
  end.
  cbn [grid_points meshgrid fst snd rows cols] in Hpr, Hpc. cbn [bind J fst].
  assert (Hi : forall s a, rows a = len u -> cols a = len v ->
                 integrate (ascale s (squeeze (Arr2 a))) ph (meshgrid u v) = Raise IndexError).
  { intros s a Har Hac. cbn [squeeze]. rewrite Har, Hac, Hc. cbn [Nat.eqb].
    unfold integrate, col0. cbn [meshgrid fst cols]. rewrite Hc. cbn [Nat.eqb].
    destruct (len u =? 1)%nat; cbn [ascale amap as_mat vmap mmap]; unfold broadcast_mat;
      cbn [rows cols len mmap vmap]; rewrite Hpr, Hpc, ?Hac, ?Hc, ?Har, ?bdim_same, ?bdim_one_l;
      cbn [bind]; rewrite ?bdim_same; reflexivity. }
  rewrite Hi by reflexivity. reflexivity.
Qed.

Lemma ceil_zero : ceil 0 = 0%Z.
Proof. apply ceil_unique. lra. Qed.

(** X15: with zero points per wavelength a well stored monitor is
    accepted with an empty grid of shape (0, 0), and its contribution to
    the radiation vectors raises [IndexError] at every angle. *)
Theorem zero_points_per_wavelength (k f : R) (sd : SimulationData) (mon : FieldMonitor)
    (fd : FieldData) :
  0 < k -> well_stored sd mon fd ->
  (forall key sf, In key (required_keys (argmin (size mon))) ->
                  lookup key fd = Some sf -> In f (sf_f sf)) ->
  exists d, _get_data_from_monitor k f 0 sd mon = Ok d /\
            grid_shape d = [0; 0]%nat /\
            forall e theta phi, _radiation_vectors_per_monitor e theta phi d = Raise IndexError.
Proof.
  intros Hk Hws Hf.
  destruct (get_data_accepted k f 0 sd mon fd Hk (Z.le_refl 0) Hws Hf) as [d Hd].
  exists d. split; [exact Hd|].
  pose proof (get_data_shapes _ _ _ _ _ _ Hd) as Hs. cbv beta zeta in Hs.
  assert (Hz : forall s w, ceil (0 * s / w) = 0%Z).
  { intros s w. replace (0 * s / w) with 0 by (unfold Rdiv; ring). exact ceil_zero. }
  rewrite !Hz in Hs. cbn [Z.to_nat] in Hs. destruct Hs as (Hg & _).
  split; [exact Hg|]. intros e theta phi.
  apply (per_monitor_empty _ _ _ _ _ _ e theta phi Hd).
  unfold grid_shape in Hg. injection Hg as _ Hc. exact Hc.
Qed.

Lemma strip_well_stored : well_stored ex_sd strip_mon ex_fd.
Proof.
  apply ex_well_stored; [reflexivity | exact strip_argmin | exact strip_count
                         | exact strip_sizes].
Qed.

Lemma ex_mon_well_stored : well_stored ex_sd ex_mon ex_fd.
Proof.
  apply ex_well_stored; [reflexivity | exact ex_argmin | exact ex_count | exact ex_sizes].
Qed.

Lemma ex_k_pos : 0 < 2 * PI * 1 / 1.
Proof. pose proof PI_RGT_0. lra. Qed.

Lemma strip2_data :
  exists d, _get_data_from_monitor (2 * PI * 1 / 1) 1 2 ex_sd strip_mon = Ok d /\
            rows (fst (grid_points d)) = 2%nat /\ cols (fst (grid_points d)) = 1%nat.
Proof.
  destruct (get_data_accepted (2 * PI * 1 / 1) 1 2 ex_sd strip_mon ex_fd) as [d Hd].
  - exact ex_k_pos.
  - lia.
  - exact strip_well_stored.
  - intros key sf _ Hsf. exact (ex_frequency_stored key sf Hsf).
  - exists d. split; [exact Hd|].
    pose proof (get_data_shapes _ _ _ _ _ _ Hd) as Hs. cbv zeta in Hs.
    rewrite strip_argmin, ex_wavelength in Hs.
    cbn [idx_uv fst snd strip_mon size item] in Hs.
    rewrite (ceil_unique (2 * 1 / 1) 2), (ceil_unique (2 * (1 / 4) / 1) 1) in Hs by lra.
    destruct Hs as (Hg & _). unfold grid_shape in Hg. injection Hg as Hr Hc.
    split; [exact Hr | exact Hc].
Qed.

Lemma thin_monitor_contributes_nothing_witness :
  exists d,
    _get_data_from_monitor (2 * PI * 1 / 1) 1 2 ex_sd strip_mon = Ok d /\
    rows (fst (grid_points d)) = 2%nat /\ cols (fst (grid_points d)) = 1%nat /\
    _radiation_vectors_per_monitor ex_engine 0 0 d = Ok zero4.
Proof.
  destruct strip2_data as (d & Hd & Hr & Hc). exists d.
  split; [exact Hd|]. split; [exact Hr|]. split; [exact Hc|].
  exact (thin_monitor_contributes_nothing _ _ _ _ _ d ex_engine 0 0 Hd
           (or_intror (conj Hr Hc))).
Defined.

Lemma strip_query_raises_witness :
  exists d,
    _get_data_from_monitor (2 * PI * 1 / 1) 1 3 ex_sd strip_mon = Ok d /\
    rows (fst (grid_points d)) = 3%nat /\ cols (fst (grid_points d)) = 1%nat /\
    _radiation_vectors (mkengine 1 1 (2 * PI * 1 / 1) 3 [d] (0, 0, 1)) 0 0
    = Raise ValueError.
Proof.
  destruct strip3_data as (d & Hd & Hr & Hc). exists d.
  split; [exact Hd|]. split; [exact Hr|]. split; [exact Hc|].
  apply (strip_query_raises _ _ _ _ _ d _ [] 0 0 Hd); [|exact Hc | reflexivity].
  rewrite Hr. apply le_n.
Defined.

Lemma zero_points_per_wavelength_witness :
  0 < 2 * PI * 1 / 1 /\ well_stored ex_sd ex_mon ex_fd /\
  exists d, _get_data_from_monitor (2 * PI * 1 / 1) 1 0 ex_sd ex_mon = Ok d /\
            grid_shape d = [0; 0]%nat /\
            forall e theta phi, _radiation_vectors_per_monitor e theta phi d = Raise IndexError.
Proof.
  split; [exact ex_k_pos|]. split; [exact ex_mon_well_stored|].
  apply (zero_points_per_wavelength _ 1 ex_sd ex_mon ex_fd ex_k_pos ex_mon_well_stored).
  intros key sf _ Hsf. exact (ex_frequency_stored key sf Hsf).
Defined.

(** ** Errors of [_get_data_from_monitor] and of the constructor *)

Lemma init_first_failure (C_0 : R) (sd : SimulationData) (f : R) (ppw : Z)
    (pre post : list FieldMonitor) (mon : FieldMonitor) (err : exn) :
  Forall (fun m => exists d,
              _get_data_from_monitor (2 * PI * f / C_0) f ppw sd m = Ok d) pre ->
  _get_data_from_monitor (2 * PI * f / C_0) f ppw sd mon = Raise err ->
  __init__ C_0 sd (pre ++ mon :: post) f ppw = Raise err.
Proof.
  intros Hpre Hmon. unfold __init__.
  rewrite (collect_data_first_failure _ _ _ _ pre post mon _ Hpre Hmon). reflexivity.
Qed.

(** X16: a surface monitor whose name is not a key of the simulation
    data is rejected with the [SetupError] that says no data was found,
    whatever the frequency and the sampling; the constructor raises this
    error when the monitors before it are accepted. *)
Theorem missing_monitor_data (sd : SimulationData) (mon : FieldMonitor) :
  count_nonzero (size mon) = 2%nat -> lookup (name mon) sd = None ->
  (forall k f ppw,
      _get_data_from_monitor k f ppw sd mon = Raise (SetupError (no_data mon))) /\
  (forall C_0 f ppw pre post,
      Forall (fun m => exists d,
                  _get_data_from_monitor (2 * PI * f / C_0) f ppw sd m = Ok d) pre ->
      __init__ C_0 sd (pre ++ mon :: post) f ppw = Raise (SetupError (no_data mon))).
Proof.
  intros Hc Hl.
  assert (Hg : forall k f ppw,
             _get_data_from_monitor k f ppw sd mon = Raise (SetupError (no_data mon))).
  { intros k f ppw. unfold _get_data_from_monitor. rewrite Hc, Hl. reflexivity. }
  split; [exact Hg|]. intros C_0 f ppw pre post Hpre.
  apply init_first_failure; [exact Hpre | apply Hg].
Qed.

(** X17: for a surface monitor of non-negative extents with data, a
    positive wave number and a non-negative number of points per
    wavelength: when one of the two tangential E components is not stored,
    the monitor is rejected with the [SetupError] about the E field, also
    when H components are missing too; when both E components are stored
    and one of the two tangential H components is not, it is rejected with
    the [SetupError] about the H field. *)
Theorem missing_field_component (k f : R) (ppw : Z) (sd : SimulationData)
    (mon : FieldMonitor) (fd : FieldData) :
  0 < k -> (0 <= ppw)%Z ->
  count_nonzero (size mon) = 2%nat -> (forall a, 0 <= item (size mon) a) ->
  lookup (name mon) sd = Some fd ->
  let rf := required_fields (argmin (size mon)) in
  let stored key := mem key (keys fd) in
  (stored ("E" ++ fst rf)%string = false \/ stored ("E" ++ snd rf)%string = false ->
   _get_data_from_monitor k f ppw sd mon = Raise (SetupError (no_E_field mon))) /\
  (stored ("E" ++ fst rf)%string = true -> stored ("E" ++ snd rf)%string = true ->
   stored ("H" ++ fst rf)%string = false \/ stored ("H" ++ snd rf)%string = false ->
   _get_data_from_monitor k f ppw sd mon = Raise (SetupError (no_H_field mon))).
Proof.
  intros Hk Hp Hc Hsz Hfd rf stored. pose proof PI_RGT_0 as Hpi.
  assert (Hw : 0 < 2 * PI / k) by (apply Rdiv_lt_0_compat; lra).
  destruct (uv_points_ok ppw _ mon (fst (idx_uv (argmin (size mon)))) Hp Hw (Hsz _))
    as [u Hu].
  destruct (uv_points_ok ppw _ mon (snd (idx_uv (argmin (size mon)))) Hp Hw (Hsz _))
    as [v Hv].
  split.
  - intros HE. unfold _get_data_from_monitor. rewrite Hc, Hfd. cbn [Nat.eqb negb].
    unfold py_truediv. destruct (Req_dec_T k 0) as [E|_]; [lra|]. cbn [bind].
    rewrite Hu, Hv. cbn [bind]. rewrite keys_colocate.
    fold rf. unfold stored in HE. destruct HE as [-> | ->]; cbn [negb orb];
      rewrite ?orb_true_r; reflexivity.
  - intros HE1 HE2 HH. unfold _get_data_from_monitor. rewrite Hc, Hfd. cbn [Nat.eqb negb].
    unfold py_truediv. destruct (Req_dec_T k 0) as [E|_]; [lra|]. cbn [bind].
    rewrite Hu, Hv. cbn [bind]. rewrite keys_colocate.
    fold rf. unfold stored in HE1, HE2, HH. rewrite HE1, HE2. cbn [negb orb].
    destruct HH as [-> | ->]; cbn [negb orb]; rewrite ?orb_true_r; reflexivity.
Qed.

(** X18: the constructor returns an engine exactly when the list of
    monitors is not empty and [_get_data_from_monitor] accepts every
    monitor of the list. *)
Theorem init_ok_iff (C_0 : R) (sd : SimulationData) (mons : list FieldMonitor)
    (f : R) (ppw : Z) :
  (exists e, __init__ C_0 sd mons f ppw = Ok e) <->
  mons <> [] /\
  Forall (fun m => exists d,
              _get_data_from_monitor (2 * PI * f / C_0) f ppw sd m = Ok d) mons.
Proof.
  split.
  - intros [e He]. apply init_inv in He. destruct He as (ds & Hds & Hne & _).
    apply collect_data_inv in Hds. split.
    + intros ->. inversion Hds. congruence.
    + clear Hne. induction Hds as [|m d rest ds' Hd _ IH]; constructor; eauto.
  - intros [Hne Hall].
    destruct (collect_data_accepted _ f ppw sd mons Hall) as (ds & Hds & Hlen).
    eexists. apply (init_spec C_0 sd mons f ppw ds Hds).
    destruct ds; [destruct mons; [congruence | discriminate] | discriminate].
Qed.

(** X19: the constructor raises the exception of the first monitor of
    the list that [_get_data_from_monitor] rejects; the monitors after it
    are not looked at. *)
Theorem init_raises_first_failure (C_0 : R) (sd : SimulationData) (f : R) (ppw : Z)
    (pre post : list FieldMonitor) (mon : FieldMonitor) (err : exn) :
  Forall (fun m => exists d,
              _get_data_from_monitor (2 * PI * f / C_0) f ppw sd m = Ok d) pre ->
  _get_data_from_monitor (2 * PI * f / C_0) f ppw sd mon = Raise err ->
  __init__ C_0 sd (pre ++ mon :: post) f ppw = Raise err.
Proof. apply init_first_failure. Qed.

(** X20: an engine returned by the constructor has the space-time sign
    1, the frequency and the number of points per wavelength it was given,
    the wave number 2 pi f / C_0, and one data record per monitor, in the
    order of the list: the record [_get_data_from_monitor] returns for the
    monitor, with the monitor's center and the axis [argmin] of its size. *)
Theorem init_attributes (C_0 : R) (sd : SimulationData) (mons : list FieldMonitor)
    (f : R) (ppw : Z) (e : Near2Far) :
  __init__ C_0 sd mons f ppw = Ok e ->
  spacetime_sign e = 1 /\ frequency e = f /\ k0 e = 2 * PI * f / C_0 /\
  pts_per_wavelength e = ppw /\
  Forall2 (fun m d => _get_data_from_monitor (k0 e) f ppw sd m = Ok d /\
                      data_center d = center m /\ mon_axis d = argmin (size m))
          mons (data e).
Proof.
  intros He. apply init_inv in He. destruct He as (ds & Hds & _ & ->).
  cbn [spacetime_sign frequency k0 pts_per_wavelength data].
  repeat split. apply collect_data_inv in Hds.
  induction Hds as [|m d rest ds' Hd _ IH]; constructor; [|exact IH].
  split; [exact Hd|]. split; [eapply get_data_center; exact Hd|].
  apply get_data_inv in Hd.
  destruct Hd as (_ & fd & wl & u & v & Eu & Ev & Hu & Hv & _ & _ & _ & _ & _ & ->).
  reflexivity.
Qed.

(** X21: for a positive speed of light and frequency and a
    non-negative number of points per wavelength, the constructor accepts
    every non-empty list of surface monitors of non-negative extents whose
    data stores the four tangential components at the frequency; the
    engine has one data record per monitor. *)
Theorem init_accepts_well_stored (C_0 : R) (sd : SimulationData)
    (mons : list FieldMonitor) (f : R) (ppw : Z) :
  0 < C_0 -> 0 < f -> (0 <= ppw)%Z -> mons <> [] ->
  Forall (fun m => exists fd,
              well_stored sd m fd /\
              forall key sf, In key (required_keys (argmin (size m))) ->
                             lookup key fd = Some sf -> In f (sf_f sf)) mons ->
  exists e, __init__ C_0 sd mons f ppw = Ok e /\
            List.length (data e) = List.length mons.
Proof.
  intros HC Hf Hp Hne Hall. pose proof PI_RGT_0 as Hpi.
  assert (Hk : 0 < 2 * PI * f / C_0) by (apply Rdiv_lt_0_compat; nra).
  assert (Hacc : Forall (fun m => exists d,
                     _get_data_from_monitor (2 * PI * f / C_0) f ppw sd m = Ok d) mons).
  { eapply Forall_impl; [|exact Hall]. cbv beta. intros m (fd & Hws & Hfr).
    exact (get_data_accepted _ f ppw sd m fd Hk Hp Hws Hfr). }
  destruct (collect_data_accepted _ f ppw sd mons Hacc) as (ds & Hds & Hlen).
  eexists. split.
  - apply (init_spec C_0 sd mons f ppw ds Hds).
    destruct ds; [destruct mons; [congruence | discriminate] | discriminate].
  - cbn [data]. exact Hlen.
Qed.

(** ** The normal axis and the collocation points *)

Lemma argmin_flat (t : point) :
  count_nonzero t = 2%nat -> (forall a, 0 <= item t a) ->
  item t (argmin t) = 0 /\
  0 < item t (fst (idx_uv (argmin t))) /\ 0 < item t (snd (idx_uv (argmin t))).
Proof.
  destruct t as [[a b] c]. intros Hc Hs.
  pose proof (Hs Ax0) as Ha. pose proof (Hs Ax1) as Hb. pose proof (Hs Ax2) as Hc'.
  cbn [item] in Ha, Hb, Hc'. unfold count_nonzero, truthy in Hc. unfold argmin.
  destruct (Req_dec_T a 0), (Req_dec_T b 0), (Req_dec_T c 0); cbn in Hc; try discriminate;
    destruct (Rle_dec a b), (Rle_dec a c), (Rle_dec b c); cbn [item idx_uv fst snd];
    repeat split; lra.
Qed.

(** X22: for an accepted monitor of non-negative extents, the axis
    chosen with [np.argmin] is the axis of zero extent, and the two
    in-plane axes have positive extents. *)
Theorem normal_axis_is_flat (k f : R) (ppw : Z) (sd : SimulationData) (mon : FieldMonitor)
    (d : Near2FarData) :
  _get_data_from_monitor k f ppw sd mon = Ok d ->
  (forall a, 0 <= item (size mon) a) ->
  item (size mon) (mon_axis d) = 0 /\
  0 < item (size mon) (fst (idx_uv (mon_axis d))) /\
  0 < item (size mon) (snd (idx_uv (mon_axis d))).
Proof.
  intros H Hs. apply get_data_inv in H.
  destruct H as (Hc & fd & wl & u & v & Eu & Ev & Hu & Hv & _ & _ & _ & _ & _ & ->).
  cbn [mon_axis]. apply argmin_flat; assumption.
Qed.

Lemma linspace_bounds (a b : R) (num : Z) (u : vec R) :
  linspace a b num = Ok u -> a <= b ->
  (forall i, (i < len u)%nat -> a <= vat u i <= b) /\
  ((1 <= len u)%nat -> vat u 0 = a) /\
  ((2 <= len u)%nat -> vat u (len u - 1) = b).
Proof.
  unfold linspace. destruct (num <? 0)%Z eqn:E; [discriminate|].
  apply Z.ltb_ge in E. intros H Hab. injection H as <-. cbn [len vat].
  assert (Hn : IZR num = INR (Z.to_nat num)).
  { rewrite INR_IZR_INZ, Z2Nat.id by exact E. reflexivity. }
  set (n := Z.to_nat num) in *. rewrite Hn.
  split; [|split].
  - intros i Hi.
    destruct ((1 <? n)%nat && (i =? n - 1)%nat) eqn:Eb; [lra|].
    destruct (Nat.eq_dec n 1) as [E1|E1].
    + assert (i = 0%nat) by lia. subst i. cbn [INR]. lra.
    + assert (Hlt : (i < n - 1)%nat).
      { apply andb_false_iff in Eb. destruct Eb as [Eb|Eb].
        - apply Nat.ltb_ge in Eb. lia.
        - apply Nat.eqb_neq in Eb. lia. }
      assert (Hi' : INR i <= INR n - 1).
      { replace (INR n - 1) with (INR (n - 1)) by (rewrite minus_INR by lia; reflexivity).
        apply le_INR. lia. }
      assert (Hpos : 0 < INR n - 1).
      { replace (INR n - 1) with (INR (n - 1)) by (rewrite minus_INR by lia; reflexivity).
        apply lt_0_INR. lia. }
      pose proof (pos_INR i) as H0.
      assert (Hq : 0 <= INR i / (INR n - 1) <= 1).
      { split.
        - apply Rmult_le_pos; [exact H0 | left; apply Rinv_0_lt_compat; exact Hpos].
        - apply (Rmult_le_reg_r (INR n - 1)); [exact Hpos|].
          replace (INR i / (INR n - 1) * (INR n - 1)) with (INR i) by (field; lra). lra. }
      replace (a + INR i * ((b - a) / (INR n - 1)))
        with (a + (INR i / (INR n - 1)) * (b - a)) by (field; lra).
      split; nra.
  - intros H1.
    destruct ((1 <? n)%nat && (0 =? n - 1)%nat) eqn:Eb.
    + apply andb_true_iff in Eb. destruct Eb as [Eb1 Eb2].
      apply Nat.ltb_lt in Eb1. apply Nat.eqb_eq in Eb2. lia.
    + cbn [INR]. ring.
  - intros H2.
    assert (Eb : (1 <? n)%nat && (n - 1 =? n - 1)%nat = true).
    { apply andb_true_iff. split; [apply Nat.ltb_lt; lia | apply Nat.eqb_refl]. }
    rewrite Eb. reflexivity.
Qed.

(** X23: the collocation points of an accepted monitor of non-negative
    extents lie on the monitor: along each in-plane axis every grid
    coordinate is between center - size/2 and center + size/2, and with two
    or more points along an axis the first and the last are exactly these
    two ends. *)
Theorem grid_points_span_monitor (k f : R) (ppw : Z) (sd : SimulationData)
    (mon : FieldMonitor) (d : Near2FarData) :
  _get_data_from_monitor k f ppw sd mon = Ok d ->
  (forall a, 0 <= item (size mon) a) ->
  let iu := fst (idx_uv (mon_axis d)) in
  let iv := snd (idx_uv (mon_axis d)) in
  let lo a := item (center mon) a - item (size mon) a / 2 in
  let hi a := item (center mon) a + item (size mon) a / 2 in
  let U := fst (grid_points d) in
  let V := snd (grid_points d) in
  (forall i j, (i < rows U)%nat -> (j < cols U)%nat ->
               lo iu <= mat_at U i j <= hi iu /\ lo iv <= mat_at V i j <= hi iv) /\
  (forall j, (2 <= rows U)%nat ->
             mat_at U 0 j = lo iu /\ mat_at U (rows U - 1) j = hi iu) /\
  (forall i, (2 <= cols V)%nat ->
             mat_at V i 0 = lo iv /\ mat_at V i (cols V - 1) = hi iv).
Proof.
  intros H Hs. apply get_data_inv in H.
  destruct H as (_ & fd & wl & u & v & Eu & Ev & Hu & Hv & _ & _ & Hlu & Hlv & _ & ->).
  cbv zeta. cbn [mon_axis grid_points meshgrid fst snd rows cols mat_at].
  unfold uv_points_at in Hlu, Hlv. cbv zeta in Hlu, Hlv.
  pose proof (Hs (fst (idx_uv (argmin (size mon))))) as Hsu.
  pose proof (Hs (snd (idx_uv (argmin (size mon))))) as Hsv.
  apply linspace_bounds in Hlu; [|lra]. apply linspace_bounds in Hlv; [|lra].
  destruct Hlu as (Hu1 & Hu2 & Hu3). destruct Hlv as (Hv1 & Hv2 & Hv3).
  split; [|split].
  - intros i j Hi Hj. split; [apply Hu1 | apply Hv1]; assumption.
  - intros _ Hr. split; [apply Hu2; lia | apply Hu3; exact Hr].
  - intros _ Hc. split; [apply Hv2; lia | apply Hv3; exact Hc].
Qed.

(** X24: the grid of an accepted monitor has
    ceil(pts_per_wavelength * size / wavelength) points along each in-plane
    axis, with wavelength = 2 pi / k0; the four current arrays have this
    shape with the axes of length one removed. *)
Theorem sampled_shapes (k f : R) (ppw : Z) (sd : SimulationData) (mon : FieldMonitor)
    (d : Near2FarData) :
  _get_data_from_monitor k f ppw sd mon = Ok d ->
  let n idx := Z.to_nat (ceil (IZR ppw * item (size mon) idx / (2 * PI / k))) in
  let nu := n (fst (idx_uv (argmin (size mon)))) in
  let nv := n (snd (idx_uv (argmin (size mon)))) in
  let squeezed := filter (fun a => negb (a =? 1)%nat) [nu; nv] in
  grid_shape d = [nu; nv] /\
  shape (Arr2 (snd (grid_points d))) = [nu; nv] /\
  shape (fst (J d)) = squeezed /\ shape (snd (J d)) = squeezed /\
  shape (fst (M d)) = squeezed /\ shape (snd (M d)) = squeezed.
Proof. apply get_data_shapes. Qed.

(** ** Instances on the example data *)

Lemma other_count : count_nonzero (size other_mon) = 2%nat.
Proof. exact ex_count. Qed.

Lemma cube_get_data (k f : R) (ppw : Z) (sd : SimulationData) :
  _get_data_from_monitor k f ppw sd cube_mon = Raise (SetupError (not_a_surface cube_mon)).
Proof.
  unfold _get_data_from_monitor.
  destruct (count_nonzero (size cube_mon) =? 2)%nat eqn:E; [|reflexivity].
  apply Nat.eqb_eq in E. exfalso. exact (cube_count E).
Qed.

Lemma missing_monitor_data_witness :
  count_nonzero (size other_mon) = 2%nat /\ lookup (name other_mon) ex_sd = None /\
  __init__ 1 ex_sd [ex_mon; other_mon] 1 2 = Raise (SetupError (no_data other_mon)).
Proof.
  assert (Hl : lookup (name other_mon) ex_sd = None) by reflexivity.
  split; [exact other_count|]. split; [exact Hl|].
  destruct (missing_monitor_data ex_sd other_mon other_count Hl) as [_ H].
  exact (H 1 1 2%Z [ex_mon] [] ex_accepted).
Defined.

Lemma ex_lookup_no_E :
  lookup (name ex_mon) ex_sd_no_E
  = Some [("Hx", ex_field (RtoC 0)); ("Hy", ex_field (RtoC 0))]%string.
Proof. reflexivity. Qed.

Lemma ex_lookup_no_H :
  lookup (name ex_mon) ex_sd_no_H
  = Some [("Ex", ex_field (RtoC 0)); ("Ey", ex_field (RtoC 1))]%string.
Proof. reflexivity. Qed.

Lemma missing_field_component_witness :
  _get_data_from_monitor (2 * PI * 1 / 1) 1 2 ex_sd_no_E ex_mon
  = Raise (SetupError (no_E_field ex_mon)) /\
  _get_data_from_monitor (2 * PI * 1 / 1) 1 2 ex_sd_no_H ex_mon
  = Raise (SetupError (no_H_field ex_mon)).
Proof.
  assert (Hp : (0 <= 2)%Z) by lia.
  split.
  - destruct (missing_field_component (2 * PI * 1 / 1) 1 2 ex_sd_no_E ex_mon _
                ex_k_pos Hp ex_count ex_sizes ex_lookup_no_E) as [H _].
    apply H. rewrite ex_argmin. left. reflexivity.
  - destruct (missing_field_component (2 * PI * 1 / 1) 1 2 ex_sd_no_H ex_mon _
                ex_k_pos Hp ex_count ex_sizes ex_lookup_no_H) as [_ H].
    apply H; rewrite ex_argmin; [reflexivity | reflexivity | left; reflexivity].
Defined.

Lemma init_raises_first_failure_witness :
  __init__ 1 ex_sd [ex_mon; cube_mon; other_mon] 1 2
  = Raise (SetupError (not_a_surface cube_mon)).
Proof.
  exact (init_raises_first_failure 1 ex_sd 1 2 [ex_mon] [other_mon] cube_mon _
           ex_accepted (cube_get_data _ _ _ _)).
Defined.

Lemma init_attributes_witness :
  __init__ 1 ex_sd [ex_mon] 1 2 = Ok ex_engine /\
  spacetime_sign ex_engine = 1 /\ frequency ex_engine = 1 /\
  k0 ex_engine = 2 * PI * 1 / 1 /\ pts_per_wavelength ex_engine = 2%Z.
Proof.
  split; [exact ex_init|].
  destruct (init_attributes 1 ex_sd [ex_mon] 1 2 ex_engine ex_init)
    as (H1 & H2 & H3 & H4 & _).
  split; [exact H1|]. split; [exact H2|]. split; [exact H3 | exact H4].
Defined.

Lemma init_accepts_well_stored_witness :
  0 < 1 /\ (0 <= 2)%Z /\ [ex_mon] <> [] /\
  exists e, __init__ 1 ex_sd [ex_mon] 1 2 = Ok e /\
            List.length (data e) = List.length [ex_mon].
Proof.
  assert (H1 : 0 < 1) by lra. assert (Hp : (0 <= 2)%Z) by lia.
  assert (Hne : [ex_mon] <> []) by discriminate.
  split; [exact H1|]. split; [exact Hp|]. split; [exact Hne|].
  apply (init_accepts_well_stored 1 ex_sd [ex_mon] 1 2 H1 H1 Hp Hne).
  constructor; [|constructor]. exists ex_fd. split; [exact ex_mon_well_stored|].
  intros key sf _ Hsf. exact (ex_frequency_stored key sf Hsf).
Defined.

Lemma normal_axis_is_flat_witness :
  _get_data_from_monitor (2 * PI * 1 / 1) 1 2 ex_sd ex_mon = Ok ex_data /\
  item (size ex_mon) (mon_axis ex_data) = 0 /\
  0 < item (size ex_mon) (fst (idx_uv (mon_axis ex_data))) /\
  0 < item (size ex_mon) (snd (idx_uv (mon_axis ex_data))).
Proof.
  split; [exact ex_get_data|].
  exact (normal_axis_is_flat _ _ _ _ _ _ ex_get_data ex_sizes).
Defined.

Lemma grid_points_span_monitor_witness :
  _get_data_from_monitor (2 * PI * 1 / 1) 1 2 ex_sd ex_mon = Ok ex_data /\
  forall j, mat_at (fst (grid_points ex_data)) 0 j = 0 - 1 / 2 /\
            mat_at (fst (grid_points ex_data)) 1 j = 0 + 1 / 2.
Proof.
  split; [exact ex_get_data|].
  destruct (grid_points_span_monitor _ _ _ _ _ _ ex_get_data ex_sizes) as (_ & H & _).
  intros j. exact (H j (le_n 2)).
Defined.

Lemma sampled_shapes_witness :
  _get_data_from_monitor (2 * PI * 1 / 1) 1 2 ex_sd ex_mon = Ok ex_data /\
  exists nu nv, grid_shape ex_data = [nu; nv] /\
                shape (fst (J ex_data)) = filter (fun a => negb (a =? 1)%nat) [nu; nv].
Proof.
  split; [exact ex_get_data|].
  destruct (sampled_shapes _ _ _ _ _ _ ex_get_data) as (Hg & _ & HJ & _).
  do 2 eexists. split; [exact Hg | exact HJ].
Defined.
